(** * LocalContentGenerator: the adapter between a locally hosted
      text-generation HTTP service and the content-generation interface

    A shallow embedding of [packages/core/src/core/localContentGenerator.ts]:
    the single-shot requester [generateContent], the streaming decoder
    [generateContentStream] and the two unsupported-operation stubs.

    Platform pieces the adapter calls are modelled after their standards:
    JavaScript strings as sequences of UTF-16 code units, [TextDecoder] as
    the WHATWG UTF-8 decoder, [JSON.parse] / [JSON.stringify] after
    ECMA-262 / ECMA-404.  The network ([fetch], [fetchWithTimeout]) is a
    parameter of the model. *)

From Stdlib Require Import List ZArith Lia Bool.
From Stdlib.Strings Require Import String Ascii Byte.
From Equations Require Import Equations.
From Equations.Prop Require Import Logic.
From Stdlib Require DecimalN DecimalPos.
Import ListNotations.
Set Warnings "-register-all".
Local Open Scope Z_scope.
Local Open Scope list_scope.

(* ===================================================================== *)
(** ** JavaScript strings *)
(* ===================================================================== *)

(** A JavaScript string is a finite sequence of 16-bit code units. *)
Definition jsstring : Type := list Z.

(** The code unit of a 7-bit character. *)
Definition ch (a : ascii) : Z := Z.of_N (N_of_ascii a).

(** A string literal of the source, as code units (ASCII literals only). *)
Definition js (s : string) : jsstring := map ch (list_ascii_of_string s).

(** The line terminator the decoder frames on: ['\n']. *)
Definition NL : Z := 10.

(** [String.prototype.startsWith(searchString)]. *)
Fixpoint startsWith (s searchString : jsstring) {struct searchString} : bool :=
  match searchString, s with
  | [], _ => true
  | _ :: _, [] => false
  | p :: ps, c :: cs => (c =? p) && startsWith cs ps
  end.

Fixpoint indexOf_from (s searchString : jsstring) (i : Z) : Z :=
  match s with
  | [] => match searchString with [] => i | _ :: _ => -1 end
  | _ :: r => if startsWith s searchString then i
              else indexOf_from r searchString (i + 1)
  end.

(** [String.prototype.indexOf(searchString)]: the index of the first
    occurrence, [-1] when there is none. *)
Definition indexOf (s searchString : jsstring) : Z :=
  indexOf_from s searchString 0.

(** [String.prototype.substring(start, end)]: both indices are clamped to
    [0 .. length] and swapped when out of order; an absent [end] is the
    length. *)
Definition substring (s : jsstring) (start : Z) (end_ : option Z) : jsstring :=
  let len := Z.of_nat (List.length s) in
  let intStart := Z.min (Z.max start 0) len in
  let intEnd := match end_ with
                | None => len
                | Some e => Z.min (Z.max e 0) len
                end in
  let from := Z.min intStart intEnd in
  let to := Z.max intStart intEnd in
  firstn (Z.to_nat (to - from)) (skipn (Z.to_nat from) s).

(** Template-literal rendering of an integer-valued Number (used for
    [response.status]). *)
Fixpoint digits_of_uint (u : Decimal.uint) : jsstring :=
  match u with
  | Decimal.Nil => []
  | Decimal.D0 r => 48 :: digits_of_uint r
  | Decimal.D1 r => 49 :: digits_of_uint r
  | Decimal.D2 r => 50 :: digits_of_uint r
  | Decimal.D3 r => 51 :: digits_of_uint r
  | Decimal.D4 r => 52 :: digits_of_uint r
  | Decimal.D5 r => 53 :: digits_of_uint r
  | Decimal.D6 r => 54 :: digits_of_uint r
  | Decimal.D7 r => 55 :: digits_of_uint r
  | Decimal.D8 r => 56 :: digits_of_uint r
  | Decimal.D9 r => 57 :: digits_of_uint r
  end.

Definition string_of_N (n : N) : jsstring := digits_of_uint (N.to_uint n).

Definition string_of_Z (z : Z) : jsstring :=
  if z <? 0 then ch "-" :: string_of_N (Z.to_N (- z))
  else string_of_N (Z.to_N z).

(* ===================================================================== *)
(** ** TextDecoder: the WHATWG UTF-8 decoder *)
(* ===================================================================== *)

Module Utf8.

(** The value of one octet of a [Uint8Array]. *)
Definition byte_val (b : byte) : Z := Z.of_N (Byte.to_N b).

(** The state of the UTF-8 decoder (Encoding Standard, 9.1.1). *)
Record state : Type := mkState {
  code_point : Z;
  bytes_seen : Z;
  bytes_needed : Z;
  lower_boundary : Z;
  upper_boundary : Z
}.

Definition initial : state := mkState 0 0 0 128 191.

Inductive result : Type :=
| Continue
| CodePoint (cp : Z)
| Error
| ErrorRestore.   (* error, and the byte is put back on the stream *)

(** The decoder's handler for one byte (the end-of-queue case is
    [at_end] below). *)
Definition handler (st : state) (b : Z) : state * result :=
  if bytes_needed st =? 0 then
    if b <=? 127 then (st, CodePoint b)
    else if (194 <=? b) && (b <=? 223) then
      (mkState (Z.land b 31) (bytes_seen st) 1
               (lower_boundary st) (upper_boundary st), Continue)
    else if (224 <=? b) && (b <=? 239) then
      (mkState (Z.land b 15) (bytes_seen st) 2
               (if b =? 224 then 160 else lower_boundary st)
               (if b =? 237 then 159 else upper_boundary st), Continue)
    else if (240 <=? b) && (b <=? 244) then
      (mkState (Z.land b 7) (bytes_seen st) 3
               (if b =? 240 then 144 else lower_boundary st)
               (if b =? 244 then 143 else upper_boundary st), Continue)
    else (st, Error)
  else if negb ((lower_boundary st <=? b) && (b <=? upper_boundary st)) then
    (initial, ErrorRestore)
  else
    let cp := Z.lor (Z.shiftl (code_point st) 6) (Z.land b 63) in
    let seen := bytes_seen st + 1 in
    if negb (seen =? bytes_needed st) then
      (mkState cp seen (bytes_needed st) 128 191, Continue)
    else (initial, CodePoint cp).

(** U+FFFD, emitted for every decoding error (the decoder is not fatal). *)
Definition REPLACEMENT : Z := 65533.

(** One byte through the decoder in replacement mode: the code points it
    puts on the output.  A restored byte is handled again at once; the
    state is then [initial], so it cannot be restored a second time. *)
Definition step (st : state) (b : Z) : state * list Z :=
  match handler st b with
  | (st', Continue) => (st', [])
  | (st', CodePoint cp) => (st', [cp])
  | (st', Error) => (st', [REPLACEMENT])
  | (st', ErrorRestore) =>
      match handler st' b with
      | (st'', Continue) => (st'', [REPLACEMENT])
      | (st'', CodePoint cp) => (st'', [REPLACEMENT; cp])
      | (st'', _) => (st'', [REPLACEMENT; REPLACEMENT])
      end
  end.

(** A code point as UTF-16 code units. *)
Definition utf16 (cp : Z) : jsstring :=
  if cp <? 65536 then [cp]
  else [55296 + Z.shiftr (cp - 65536) 10; 56320 + Z.land (cp - 65536) 1023].

(** The [TextDecoder] object: the UTF-8 decoder and its "BOM seen" flag
    ([ignoreBOM] is false: one leading U+FEFF is dropped). *)
Record TextDecoder : Type := mkDecoder {
  utf8 : state;
  bom_seen : bool
}.

(** [new TextDecoder()]. *)
Definition new_TextDecoder : TextDecoder := mkDecoder initial false.

(** "Serialize I/O queue": the first code point sets the flag and is
    dropped when it is U+FEFF. *)
Fixpoint serialize (seen : bool) (cps : list Z) : bool * jsstring :=
  match cps with
  | [] => (seen, [])
  | cp :: r =>
      if seen then let '(f, out) := serialize true r in (f, utf16 cp ++ out)
      else if cp =? 65279 then serialize true r
      else let '(f, out) := serialize true r in (f, utf16 cp ++ out)
  end.

(** [decoder.decode(value, { stream: true })]: the bytes go through the
    decoder one by one, nothing is flushed, an incomplete sequence stays in
    the decoder for the next call. *)
Fixpoint decode (d : TextDecoder) (value : list byte) : TextDecoder * jsstring :=
  match value with
  | [] => (d, [])
  | b :: r =>
      let '(st, cps) := step (utf8 d) (byte_val b) in
      let '(seen, out) := serialize (bom_seen d) cps in
      let '(d', out') := decode (mkDecoder st seen) r in
      (d', out ++ out')
  end.

(** End of queue: an incomplete sequence is one decoding error. *)
Definition at_end (st : state) : jsstring :=
  if bytes_needed st =? 0 then [] else [REPLACEMENT].

(** "UTF-8 decode" of a complete byte sequence (what [response.json()]
    applies to the body): a leading EF BB BF is skipped, the rest is
    decoded to the end of the queue. *)
Definition decode_all (bytes : list byte) : jsstring :=
  let bytes' := match bytes with
                | xef :: xbb :: xbf :: r => r
                | _ => bytes
                end in
  let '(d, out) := decode (mkDecoder initial true) bytes' in
  out ++ at_end (utf8 d).

End Utf8.

(* ===================================================================== *)
(** ** JSON values, [JSON.parse] *)
(* ===================================================================== *)

Module JSON.

(** A Number that came from (or goes to) JSON text: the decimal value
    [mantissa * 10 ^ exponent], with its sign kept apart (JSON has [-0]).
    The mantissa carries no trailing zero, so that [1], [1.0] and [10e-1]
    are one value, as they are in JavaScript.  Rounding to a binary64 is
    not represented. *)
Record Number : Type := mkNumber {
  negative : bool;
  mantissa : Z;
  exponent : Z
}.

(** The JavaScript values [JSON.parse] can return.  An object is its list
    of own properties. *)
Inductive Json : Type :=
| JNull
| JBool (b : bool)
| JNumber (n : Number)
| JString (s : jsstring)
| JArray (elements : list Json)
| JObject (members : list (jsstring * Json)).

(** [Array.isArray(v)]. *)
Definition isArray (v : Json) : bool :=
  match v with JArray _ => true | _ => false end.

Fixpoint jsstring_eqb (a b : jsstring) : bool :=
  match a, b with
  | [], [] => true
  | x :: a', y :: b' => (x =? y) && jsstring_eqb a' b'
  | _, _ => false
  end.

(** [CreateDataProperty]: a repeated key keeps its place and takes the
    later value. *)
Fixpoint obj_set (members : list (jsstring * Json)) (k : jsstring) (v : Json)
  : list (jsstring * Json) :=
  match members with
  | [] => [(k, v)]
  | (k', v') :: r =>
      if jsstring_eqb k k' then (k', v) :: r else (k', v') :: obj_set r k v
  end.

(** Outcome of a sub-parser: a value and the unread input, a syntax error,
    or recursion budget exhausted ([parse_value_budget] shows the budget of
    [parse] is never exhausted). *)
Inductive PResult (A : Type) : Type :=
| POk (a : A) (rest : jsstring)
| PFail
| PFuel.
Arguments POk {A} a rest.
Arguments PFail {A}.
Arguments PFuel {A}.

(** JSON white space: space, tab, line feed, carriage return. *)
Definition is_ws (c : Z) : bool :=
  (c =? 32) || (c =? 9) || (c =? 10) || (c =? 13).

Fixpoint skip_ws (s : jsstring) : jsstring :=
  match s with
  | c :: r => if is_ws c then skip_ws r else s
  | [] => []
  end.

Definition is_digit (c : Z) : bool := (48 <=? c) && (c <=? 57).

(** The longest run of decimal digits at the head of the input, as digit
    values. *)
Fixpoint span_digits (s : jsstring) : list Z * jsstring :=
  match s with
  | c :: r =>
      if is_digit c
      then let '(ds, rest) := span_digits r in ((c - 48) :: ds, rest)
      else ([], s)
  | [] => ([], [])
  end.

Definition digits_value (ds : list Z) : Z :=
  fold_left (fun acc d => acc * 10 + d) ds 0.

Fixpoint strip_zeros (n : nat) (m e : Z) : Z * Z :=
  match n with
  | O => (m, e)
  | S n' =>
      if m =? 0 then (0, 0)
      else if m mod 10 =? 0 then strip_zeros n' (m / 10) (e + 1)
      else (m, e)
  end.

Definition number_of_digits (neg : bool) (ds : list Z) (e : Z) : Number :=
  let '(m, e') := strip_zeros (List.length ds) (digits_value ds) e in
  mkNumber neg m e'.

(** JSONNumber: an optional minus sign; an integer part that is a single
    zero or starts with a non-zero digit; an optional fraction (a point and
    one or more digits); an optional exponent ([e] or [E], an optional
    sign, one or more digits). *)
Definition parse_number (s : jsstring) : option (Number * jsstring) :=
  let '(neg, s1) :=
    match s with
    | c :: r => if c =? ch "-" then (true, r) else (false, s)
    | [] => (false, s)
    end in
  let int_part :=
    match s1 with
    | c :: r1 =>
        if c =? ch "0" then Some ([0], r1)
        else if is_digit c then Some (span_digits s1)
        else None
    | [] => None
    end in
  match int_part with
  | None => None
  | Some (ints, s2) =>
      let frac_part :=
        match s2 with
        | c :: r2 =>
            if c =? ch "." then
              match span_digits r2 with
              | ([], _) => None
              | (fs, s3) => Some (fs, s3)
              end
            else Some ([], s2)
        | [] => Some ([], s2)
        end in
      match frac_part with
      | None => None
      | Some (fracs, s3) =>
          let exp_part :=
            match s3 with
            | c :: r3 =>
                if (c =? ch "e") || (c =? ch "E") then
                  let '(eneg, r4) :=
                    match r3 with
                    | sg :: r' =>
                        if sg =? ch "-" then (true, r')
                        else if sg =? ch "+" then (false, r')
                        else (false, r3)
                    | [] => (false, r3)
                    end in
                  match span_digits r4 with
                  | ([], _) => None
                  | (es, s4) =>
                      let e := digits_value es in
                      Some (if eneg then - e else e, s4)
                  end
                else Some (0, s3)
            | [] => Some (0, s3)
            end in
          match exp_part with
          | None => None
          | Some (e, s4) =>
              Some (number_of_digits neg (ints ++ fracs)
                      (e - Z.of_nat (List.length fracs)), s4)
          end
      end
  end.

Definition hex_digit (c : Z) : option Z :=
  if is_digit c then Some (c - 48)
  else if (97 <=? c) && (c <=? 102) then Some (c - 87)
  else if (65 <=? c) && (c <=? 70) then Some (c - 55)
  else None.

Definition hex4 (a b c d : Z) : option Z :=
  match hex_digit a, hex_digit b, hex_digit c, hex_digit d with
  | Some x, Some y, Some z, Some w => Some (((x * 16 + y) * 16 + z) * 16 + w)
  | _, _, _, _ => None
  end.

(** The single-character escapes of a JSON string. *)
Definition simple_escape (e : Z) : option Z :=
  if e =? 34 then Some 34
  else if e =? 92 then Some 92
  else if e =? ch "/" then Some (ch "/")
  else if e =? ch "b" then Some 8
  else if e =? ch "f" then Some 12
  else if e =? ch "n" then Some 10
  else if e =? ch "r" then Some 13
  else if e =? ch "t" then Some 9
  else None.

(** JSONString after its opening quote: the characters up to the closing
    quote, escapes resolved; a control character below U+0020 is an error. *)
Fixpoint parse_string_chars (s : jsstring) (acc : jsstring)
  : option (jsstring * jsstring) :=
  match s with
  | [] => None
  | c :: r =>
      if c =? 34 then Some (rev acc, r)
      else if c =? 92 then
        match r with
        | [] => None
        | e :: r' =>
            if e =? ch "u" then
              match r' with
              | h1 :: h2 :: h3 :: h4 :: r'' =>
                  match hex4 h1 h2 h3 h4 with
                  | Some u => parse_string_chars r'' (u :: acc)
                  | None => None
                  end
              | _ => None
              end
            else
              match simple_escape e with
              | Some u => parse_string_chars r' (u :: acc)
              | None => None
              end
        end
      else if c <? 32 then None
      else parse_string_chars r (c :: acc)
  end.

(** A literal name ([null], [true], [false]) after its first letter. *)
Definition parse_literal (tail : jsstring) (v : Json) (s : jsstring)
  : PResult Json :=
  if startsWith s tail then POk v (skipn (List.length tail) s) else PFail.

(** JSONValue by recursive descent.  [parse_elements] reads the elements
    of an array after [[], [parse_members] the members of an object after
    [{]; both are entered with the white space already skipped. *)
Fixpoint parse_value (fuel : nat) (s : jsstring) {struct fuel} : PResult Json :=
  match fuel with
  | O => PFuel
  | S fuel' =>
      match s with
      | [] => PFail
      | c :: r =>
          if c =? ch "n" then parse_literal (js "ull") JNull r
          else if c =? ch "t" then parse_literal (js "rue") (JBool true) r
          else if c =? ch "f" then parse_literal (js "alse") (JBool false) r
          else if c =? 34 then
            match parse_string_chars r [] with
            | Some (str, rest) => POk (JString str) rest
            | None => PFail
            end
          else if c =? ch "[" then
            match skip_ws r with
            | c' :: rest =>
                if c' =? ch "]" then POk (JArray []) rest
                else parse_elements fuel' (c' :: rest) []
            | [] => PFail
            end
          else if c =? ch "{" then
            match skip_ws r with
            | c' :: rest =>
                if c' =? ch "}" then POk (JObject []) rest
                else parse_members fuel' (c' :: rest) []
            | [] => PFail
            end
          else
            match parse_number s with
            | Some (n, rest) => POk (JNumber n) rest
            | None => PFail
            end
      end
  end
with parse_elements (fuel : nat) (s : jsstring) (acc : list Json)
       {struct fuel} : PResult Json :=
  match fuel with
  | O => PFuel
  | S fuel' =>
      match parse_value fuel' s with
      | POk v rest =>
          match skip_ws rest with
          | c :: rest' =>
              if c =? ch "," then parse_elements fuel' (skip_ws rest') (v :: acc)
              else if c =? ch "]" then POk (JArray (rev (v :: acc))) rest'
              else PFail
          | [] => PFail
          end
      | PFail => PFail
      | PFuel => PFuel
      end
  end
with parse_members (fuel : nat) (s : jsstring) (acc : list (jsstring * Json))
       {struct fuel} : PResult Json :=
  match fuel with
  | O => PFuel
  | S fuel' =>
      match s with
      | c :: r =>
          if c =? 34 then
            match parse_string_chars r [] with
            | Some (key, rest) =>
                match skip_ws rest with
                | c1 :: rest1 =>
                    if c1 =? ch ":" then
                      match parse_value fuel' (skip_ws rest1) with
                      | POk v rest2 =>
                          match skip_ws rest2 with
                          | c2 :: rest3 =>
                              if c2 =? ch ","
                              then parse_members fuel' (skip_ws rest3)
                                     (obj_set acc key v)
                              else if c2 =? ch "}"
                              then POk (JObject (obj_set acc key v)) rest3
                              else PFail
                          | [] => PFail
                          end
                      | PFail => PFail
                      | PFuel => PFuel
                      end
                    else PFail
                | [] => PFail
                end
            | None => PFail
            end
          else PFail
      | [] => PFail
      end
  end.

(** [JSON.parse(text)]: white space, one value, white space, end of text.
    [None] stands for the [SyntaxError] that [JSON.parse] throws. *)
Definition parse (text : jsstring) : option Json :=
  let s := skip_ws text in
  match parse_value (2 * List.length s + 2) s with
  | POk v rest => match skip_ws rest with [] => Some v | _ :: _ => None end
  | PFail => None
  | PFuel => None
  end.

(** *** Serialization *)

(** The digits of [Number::toString]: with [k] digits [ds] and decimal
    point position [n] (the value is [0.ds * 10 ^ n]), positional notation
    for [-6 < n <= 21] and exponent notation outside. *)
Definition number_to_string (x : Number) : jsstring :=
  if mantissa x =? 0 then js "0"
  else
    let ds := string_of_Z (mantissa x) in
    let k := Z.of_nat (List.length ds) in
    let n := k + exponent x in
    let body :=
      if (k <=? n) && (n <=? 21) then ds ++ repeat (ch "0") (Z.to_nat (n - k))
      else if (0 <? n) && (n <=? 21) then
        firstn (Z.to_nat n) ds ++ ch "." :: skipn (Z.to_nat n) ds
      else if (-6 <? n) && (n <=? 0) then
        ch "0" :: ch "." :: repeat (ch "0") (Z.to_nat (- n)) ++ ds
      else
        let e := n - 1 in
        let sign := if e <? 0 then ch "-" else ch "+" in
        match ds with
        | [d] => d :: ch "e" :: sign :: string_of_Z (Z.abs e)
        | d :: more => d :: ch "." :: more ++ ch "e" :: sign :: string_of_Z (Z.abs e)
        | [] => []
        end in
    if negative x then ch "-" :: body else body.

Definition hex_char (d : Z) : Z := if d <? 10 then 48 + d else 87 + d.

(** [\uXXXX] with lower-case hexadecimal digits. *)
Definition unicode_escape (c : Z) : jsstring :=
  [92; ch "u"; hex_char (Z.shiftr c 12 mod 16); hex_char (Z.shiftr c 8 mod 16);
   hex_char (Z.shiftr c 4 mod 16); hex_char (c mod 16)].

Definition is_high_surrogate (c : Z) : bool := (55296 <=? c) && (c <=? 56319).
Definition is_low_surrogate (c : Z) : bool := (56320 <=? c) && (c <=? 57343).

Fixpoint quote_chars (s : jsstring) : jsstring :=
  match s with
  | [] => []
  | c :: r =>
      if c =? 8 then 92 :: ch "b" :: quote_chars r
      else if c =? 9 then 92 :: ch "t" :: quote_chars r
      else if c =? 10 then 92 :: ch "n" :: quote_chars r
      else if c =? 12 then 92 :: ch "f" :: quote_chars r
      else if c =? 13 then 92 :: ch "r" :: quote_chars r
      else if c =? 34 then 92 :: 34 :: quote_chars r
      else if c =? 92 then 92 :: 92 :: quote_chars r
      else if c <? 32 then unicode_escape c ++ quote_chars r
      else if is_high_surrogate c then
        match r with
        | d :: r' =>
            if is_low_surrogate d then c :: d :: quote_chars r'
            else unicode_escape c ++ quote_chars r
        | [] => unicode_escape c
        end
      else if is_low_surrogate c then unicode_escape c ++ quote_chars r
      else c :: quote_chars r
  end.

(** [QuoteJSONString]. *)
Definition QuoteJSONString (s : jsstring) : jsstring :=
  34 :: quote_chars s ++ [34].

(** The JSON text of a value ([JSON.stringify] without indentation). *)
Fixpoint stringify (v : Json) : jsstring :=
  match v with
  | JNull => js "null"
  | JBool true => js "true"
  | JBool false => js "false"
  | JNumber n => number_to_string n
  | JString s => QuoteJSONString s
  | JArray elements =>
      ch "[" ::
      (fix elems (l : list Json) (first : bool) : jsstring :=
         match l with
         | [] => []
         | x :: r =>
             (if first then [] else [ch ","]) ++ stringify x ++ elems r false
         end) elements true ++ [ch "]"]
  | JObject members =>
      ch "{" ::
      (fix mems (l : list (jsstring * Json)) (first : bool) : jsstring :=
         match l with
         | [] => []
         | (k, x) :: r =>
             (if first then [] else [ch ","]) ++
             QuoteJSONString k ++ ch ":" :: stringify x ++ mems r false
         end) members true ++ [ch "}"]
  end.

End JSON.

Import JSON.

(* ===================================================================== *)
(** ** Errors, promises and the network *)
(* ===================================================================== *)

(** A thrown [Error] object. *)
Record JsError : Type := mkError { message : jsstring }.

(** Modelled from the spec: [getErrorMessage] of [utils/errors.js], which
    is not among the sources; the error-message-extraction helper used when
    a cause is wrapped: it gives the cause's message. *)
Definition getErrorMessage (error : JsError) : jsstring := message error.

Inductive Promise (A : Type) : Type :=
| Resolved (a : A)
| Rejected (reason : JsError).
Arguments Resolved {A} a.
Arguments Rejected {A} reason.

(** What one [reader.read()] settles to. *)
Inductive ReadResult : Type :=
| ReadValue (value : list byte)     (* { done: false, value } *)
| ReadDone                          (* { done: true } *)
| ReadRejected (reason : JsError).  (* the transport failed *)

(** A response body: what the successive reads of its reader settle to.
    A script that is used up stands for a closed stream (every further
    read reports done). *)
Definition ReadableStream : Type := list ReadResult.

Record Response : Type := mkResponse {
  ok : bool;
  status : Z;
  statusText : jsstring;
  body : option ReadableStream
}.

Record RequestInit : Type := mkRequestInit {
  method : jsstring;
  headers : list (jsstring * jsstring);
  init_body : option jsstring
}.

(** The collaborators the adapter is handed: the ambient [fetch], the
    timeout-aware [fetchWithTimeout] of [utils/fetch.js], and the
    engine-defined [SyntaxError] that [JSON.parse] raises on a text. *)
Record Platform : Type := mkPlatform {
  fetch : jsstring -> RequestInit -> Promise Response;
  fetchWithTimeout : jsstring -> RequestInit -> Z -> Promise Response;
  syntaxError : jsstring -> JsError
}.

(* ===================================================================== *)
(** ** Effects: a trace of actions and a completion *)
(* ===================================================================== *)

Inductive Action : Type :=
| CallFetchWithTimeout (url : jsstring) (init : RequestInit) (timeout : Z)
| CallFetch (url : jsstring) (init : RequestInit)
| CallJson                         (* response.json() *)
| CallRead                         (* reader.read() *)
| Yield (value : Json)             (* yield json[0] *)
| ConsoleWarn (json : Json)        (* 'Unexpected stream format:' *)
| ConsoleError (jsonStr : jsstring). (* 'Failed to parse JSON stream chunk:' *)

Inductive Completion (A : Type) : Type :=
| Return (a : A)
| Throw (error : JsError).
Arguments Return {A} a.
Arguments Throw {A} error.

(** A computation: the actions it performed, in order, and how it ended. *)
Definition M (A : Type) : Type := (list Action * Completion A)%type.

Definition ret {A} (a : A) : M A := ([], Return a).

Definition throw {A} (error : JsError) : M A := ([], Throw error).

Definition bind {A B} (m : M A) (k : A -> M B) : M B :=
  match m with
  | (t, Return a) => let '(t', c) := k a in (t ++ t', c)
  | (t, Throw e) => (t, Throw e)
  end.

(** [try { m } catch (error) { handler error }]. *)
Definition try_catch {A} (m : M A) (handler : JsError -> M A) : M A :=
  match m with
  | (t, Throw e) => let '(t', c) := handler e in (t ++ t', c)
  | (t, Return a) => (t, Return a)
  end.

(** [await] of a call that settles to [p]. *)
Definition await {A} (call : Action) (p : Promise A) : M A :=
  ([call], match p with Resolved a => Return a | Rejected e => Throw e end).

Notation "x <- m ;; k" := (bind m (fun x => k))
  (at level 61, m at next level, right associativity).

(** The events a trace hands to the consumer, in order. *)
Fixpoint yielded (t : list Action) : list Json :=
  match t with
  | [] => []
  | Yield v :: r => v :: yielded r
  | _ :: r => yielded r
  end.

(** How many times the body of a response was asked to be parsed. *)
Definition json_calls (t : list Action) : nat :=
  List.length (filter (fun a => match a with CallJson => true | _ => false end) t).

(* ===================================================================== *)
(** ** The request payload, [JSON.stringify] *)
(* ===================================================================== *)

(** The values an object literal of the source can hold: [undefined], a
    JSON value, or a nested object literal. *)
Inductive JsValue : Type :=
| Undefined
| OfJson (v : Json)
| ObjectLiteral (props : list (jsstring * JsValue)).

(** [SerializeJSONProperty]: [None] is the [undefined] result; a property
    of an object whose value serializes to [undefined] is left out. *)
Fixpoint SerializeJSONProperty (v : JsValue) : option Json :=
  match v with
  | Undefined => None
  | OfJson j => Some j
  | ObjectLiteral props =>
      Some (JObject
        ((fix members (ps : list (jsstring * JsValue)) : list (jsstring * Json) :=
            match ps with
            | [] => []
            | (k, pv) :: r =>
                match SerializeJSONProperty pv with
                | Some j => [(k, j)]
                | None => []
                end ++ members r
            end) props))
  end.

(** [JSON.stringify(value)]. *)
Definition JSON_stringify (value : JsValue) : option jsstring :=
  option_map JSON.stringify (SerializeJSONProperty value).

(** [GenerateContentConfig], the fields the adapter reads.  [None] is a
    field the caller left unset. *)
Record GenerateContentConfig : Type := mkGenerateContentConfig {
  temperature : option Number;
  topP : option Number;
  topK : option Number;
  candidateCount : option Number;
  maxOutputTokens : option Number;
  stopSequences : option (list jsstring);
  safetySettings : option (list Json)
}.

(** [GenerateContentParameters]. *)
Record GenerateContentParameters : Type := mkGenerateContentParameters {
  contents : Json;
  config : option GenerateContentConfig
}.

(** [request.config?.field]. *)
Definition optional_field {A} (request : GenerateContentParameters)
  (field : GenerateContentConfig -> option A) (inj : A -> Json) : JsValue :=
  match config request with
  | None => Undefined
  | Some c =>
      match field c with
      | None => Undefined
      | Some x => OfJson (inj x)
      end
  end.

(** The [payload] object literal, the same in both operations. *)
Definition payload (request : GenerateContentParameters) : JsValue :=
  ObjectLiteral
    [ (js "contents", OfJson (contents request));
      (js "safetySettings", optional_field request safetySettings JArray);
      (js "generationConfig",
       ObjectLiteral
         [ (js "temperature", optional_field request temperature JNumber);
           (js "topP", optional_field request topP JNumber);
           (js "topK", optional_field request topK JNumber);
           (js "candidateCount", optional_field request candidateCount JNumber);
           (js "maxOutputTokens", optional_field request maxOutputTokens JNumber);
           (js "stopSequences",
            optional_field request stopSequences
              (fun l => JArray (map JString l))) ]) ].

(** The [init] argument of both network calls. *)
Definition post_init (request : GenerateContentParameters) : RequestInit :=
  mkRequestInit (js "POST")
    [(js "Content-Type", js "application/json")]
    (JSON_stringify (payload request)).

(* ===================================================================== *)
(** ** LocalContentGenerator *)
(* ===================================================================== *)

Record Config : Type := mkConfig {
  getLocalLlmBaseUrl : jsstring;
  getLocalLlmModel : jsstring
}.

Record LocalContentGenerator : Type := mkLocalContentGenerator {
  baseUrl : jsstring;
  model : jsstring;
  timeoutMs : Z
}.

(** The constructor. *)
Definition new_LocalContentGenerator (config : Config) : LocalContentGenerator :=
  mkLocalContentGenerator (getLocalLlmBaseUrl config) (getLocalLlmModel config)
    60000.

Definition getEndpoint (this : LocalContentGenerator) (stream : bool) : jsstring :=
  let method := if stream then js "streamGenerateContent"
                else js "generateContent" in
  baseUrl this ++ js "/models/" ++ model this ++ js ":" ++ method.

(** The error thrown for a response whose [ok] is false. *)
Definition http_error (response : Response) : JsError :=
  mkError (js "HTTP error! status: " ++ string_of_Z (status response)
           ++ js " " ++ statusText response).

(** All the bytes of a body, or the reason its stream failed. *)
Fixpoint read_all (stream : ReadableStream) : Promise (list byte) :=
  match stream with
  | [] => Resolved []
  | ReadDone :: _ => Resolved []
  | ReadRejected e :: _ => Rejected e
  | ReadValue value :: rest =>
      match read_all rest with
      | Resolved bytes => Resolved (value ++ bytes)
      | Rejected e => Rejected e
      end
  end.

(** "Consume body": a null body is the empty byte sequence. *)
Definition consume_body (response : Response) : Promise (list byte) :=
  match body response with
  | None => Resolved []
  | Some stream => read_all stream
  end.

(** The body of one line of the framing loop: what the generator does with
    a complete [line].  The pattern [JArray (first :: _)] is the test
    [Array.isArray(json) && json.length > 0], and [first] is [json[0]]. *)
Definition process_line (line : jsstring) : list Action :=
  if startsWith line (js "data: ") then
    let jsonStr := substring line 5 None in
    match JSON.parse jsonStr with
    | Some json =>
        match json with
        | JArray (first :: _) => [Yield first]
        | _ => [ConsoleWarn json]
        end
    | None => [ConsoleError jsonStr]
    end
  else [].

(** The inner [while]: as long as the buffer holds a newline, cut the line
    before it off the buffer and process it.  Returns the actions and the
    buffer that is left. *)
Equations? frame (buffer : jsstring) : list Action * jsstring
  by wf (List.length buffer) lt :=
  frame buffer with inspect (indexOf buffer [NL] =? -1) := {
    | exist _ true _ => ([], buffer)
    | exist _ false _ =>
        let newlineIndex := indexOf buffer [NL] in
        let line := substring buffer 0 (Some newlineIndex) in
        let '(acts, rest) := frame (substring buffer (newlineIndex + 1) None) in
        (process_line line ++ acts, rest) }.
Proof.
  assert (R : forall s i, indexOf_from s [NL] i = -1 \/
                          i <= indexOf_from s [NL] i).
  { induction s as [|c r IH]; intro i; simpl; [now left|].
    destruct ((c =? NL) && true); [right; lia|].
    destruct (IH (i + 1)); [now left | right; lia]. }
  subst newlineIndex line. unfold indexOf in *.
  assert (L : (0 < List.length buffer)%nat).
  { destruct buffer; [discriminate e | simpl; lia]. }
  destruct (R buffer 0) as [E|E]; [rewrite E in e; discriminate e|].
  unfold substring. rewrite length_firstn, length_skipn. lia.
Qed.

(** The state the streaming call keeps between two reads. *)
Record DecodeState : Type := mkDecodeState {
  decoder : Utf8.TextDecoder;
  buffer : jsstring
}.

(** [const decoder = new TextDecoder(); let buffer = '';] *)
Definition initial_state : DecodeState :=
  mkDecodeState Utf8.new_TextDecoder [].

(** One turn of the outer loop once a chunk has arrived: decode, append,
    drain the complete lines. *)
Definition on_chunk (st : DecodeState) (value : list byte)
  : list Action * DecodeState :=
  let '(decoder', text) := Utf8.decode (decoder st) value in
  let '(acts, buffer') := frame (buffer st ++ text) in
  (acts, mkDecodeState decoder' buffer').

(** The outer [while (true)]. *)
Fixpoint read_loop (reader : ReadableStream) (st : DecodeState) : M unit :=
  match reader with
  | [] => ([CallRead], Return tt)
  | ReadDone :: _ => ([CallRead], Return tt)
  | ReadRejected e :: _ => ([CallRead], Throw e)
  | ReadValue value :: rest =>
      let '(acts, st') := on_chunk st value in
      let '(acts', c) := read_loop rest st' in
      (CallRead :: acts ++ acts', c)
  end.

Section Operations.

Variable platform : Platform.
Variable this : LocalContentGenerator.

(** [response.json()]: the whole body, UTF-8 decoded, parsed as JSON. *)
Definition Response_json (response : Response) : M Json :=
  bytes <- await CallJson (consume_body response) ;;
  let text := Utf8.decode_all bytes in
  match JSON.parse text with
  | Some v => ret v
  | None => throw (syntaxError platform text)
  end.

Definition generateContent (request : GenerateContentParameters) : M Json :=
  let endpoint := getEndpoint this false in
  let init := post_init request in
  try_catch
    (response <- await (CallFetchWithTimeout endpoint init (timeoutMs this))
                   (fetchWithTimeout platform endpoint init (timeoutMs this)) ;;
     if negb (ok response) then throw (http_error response)
     else Response_json response)
    (fun error =>
       throw (mkError (js "Failed to generate content from local LLM: "
                       ++ getErrorMessage error))).

(** The generator, run to its end by a consumer that keeps pulling: the
    trace holds every [Yield] in order. *)
Definition generateContentStream (request : GenerateContentParameters) : M unit :=
  let endpoint := getEndpoint this true in
  let init := post_init request in
  try_catch
    (response <- await (CallFetch endpoint init)
                   (fetch platform endpoint init) ;;
     if negb (ok response) then throw (http_error response)
     else
       match body response with
       | None => throw (mkError (js "Response body is null"))
       | Some reader => read_loop reader initial_state
       end)
    (fun error =>
       throw (mkError (js "Failed to generate content stream from local LLM: "
                       ++ getErrorMessage error))).

Definition countTokens : M unit :=
  throw (mkError (js "countTokens is not supported by the local LLM server.")).

Definition embedContent : M unit :=
  throw (mkError (js "embedContent is not supported by the local LLM server.")).

End Operations.

(* ===================================================================== *)
(** ** Vocabulary of the statements *)
(* ===================================================================== *)

(** The streaming loop as a function of the chunks received so far: the
    actions performed and the state in which the next read is awaited. *)
Fixpoint run_chunks (st : DecodeState) (chunks : list (list byte))
  : list Action * DecodeState :=
  match chunks with
  | [] => ([], st)
  | value :: rest =>
      let '(acts, st') := on_chunk st value in
      let '(acts', st'') := run_chunks st' rest in
      (acts ++ acts', st'')
  end.

(** The text a fresh decoder has handed out once it was given [bytes]. *)
Definition decoded_text (bytes : list byte) : jsstring :=
  snd (Utf8.decode Utf8.new_TextDecoder bytes).

(** What the consumer or the console sees of a trace. *)
Definition is_output (a : Action) : bool :=
  match a with
  | Yield _ | ConsoleWarn _ | ConsoleError _ => true
  | _ => false
  end.

Definition outputs (t : list Action) : list Action := filter is_output t.

(** The console entries of a trace. *)
Definition logged (t : list Action) : list Action :=
  filter (fun a => match a with
                   | ConsoleWarn _ | ConsoleError _ => true
                   | _ => false
                   end) t.

(** The value of an own property of an object. *)
Fixpoint lookup (key : jsstring) (members : list (jsstring * Json)) : option Json :=
  match members with
  | [] => None
  | (k, v) :: r => if jsstring_eqb key k then Some v else lookup key r
  end.

(** [request.config?.field] as an option. *)
Definition config_field {A} (request : GenerateContentParameters)
  (field : GenerateContentConfig -> option A) : option A :=
  match config request with
  | None => None
  | Some c => field c
  end.

(** A body delivered in [chunks] and then closed. *)
Definition stream_of (chunks : list (list byte)) : ReadableStream :=
  map ReadValue chunks ++ [ReadDone].

(** The states the UTF-8 decoder can be in between two bytes: at rest, or
    inside a sequence, where the bits gathered so far already decide that
    the finished code point lies above U+007F. *)
Definition decoder_inv (st : Utf8.state) : Prop :=
  st = Utf8.initial \/
  (Utf8.bytes_needed st <> 0 /\
   128 <= Utf8.lower_boundary st /\ Utf8.upper_boundary st <= 191 /\
   0 <= Utf8.code_point st /\
   (1 <= Utf8.code_point st \/
    (144 <= Utf8.lower_boundary st /\
     Utf8.bytes_seen st + 1 <> Utf8.bytes_needed st))).

(** The newline octet. *)
Definition LF : byte := x0a.

(** The member a field contributes to a serialized object: none when the
    field is unset. *)
Definition present {A} (key : jsstring) (field : option A) (inj : A -> Json)
  : list (jsstring * Json) :=
  match field with
  | Some x => [(key, inj x)]
  | None => []
  end.

(** The events one line contributes. *)
Definition line_events (line : jsstring) : list Json := yielded (process_line line).

(** A platform whose every network call settles to the same promise. *)
Definition serving (p : Promise Response) : Platform :=
  mkPlatform (fun _ _ => p) (fun _ _ _ => p)
    (fun _ => mkError (js "Unexpected token in JSON")).

(** The octets of an ASCII literal (test inputs). *)
Definition octets (s : string) : list byte := list_byte_of_string s.

(** A newline and a double quote, for writing test inputs. *)
Definition nl : string := String (ascii_of_nat 10) EmptyString.
Definition dq : string := String (ascii_of_nat 34) EmptyString.

(** The generator and the request of the examples. *)
Definition example_generator : LocalContentGenerator :=
  new_LocalContentGenerator
    (mkConfig (js "http://localhost:8000/v1beta") (js "gemini-1.5-flash")).

Definition example_request : GenerateContentParameters :=
  mkGenerateContentParameters (JArray []) None.

(** A response with a success status whose body arrives in [chunks]. *)
Definition streamed (chunks : list (list byte)) : Response :=
  mkResponse true 200 (js "OK") (Some (stream_of chunks)).


(* ===================================================================== *)
(** ** Vocabulary of the further properties *)
(* ===================================================================== *)

(** How many times the reader was asked for a chunk. *)
Definition reads (t : list Action) : nat :=
  List.length (filter (fun a => match a with CallRead => true | _ => false end) t).

(** The network calls of a trace. *)
Definition network_calls (t : list Action) : list Action :=
  filter (fun a => match a with
                   | CallFetch _ _ | CallFetchWithTimeout _ _ _ => true
                   | _ => false
                   end) t.

(** The chunks a reader hands out before it reports done or fails. *)
Fixpoint leading_values (reader : ReadableStream) : list (list byte) :=
  match reader with
  | ReadValue value :: rest => value :: leading_values rest
  | _ => []
  end.

(** The failure that ends the reading of a body, if one does. *)
Fixpoint first_failure (reader : ReadableStream) : option JsError :=
  match reader with
  | ReadValue _ :: rest => first_failure rest
  | ReadRejected e :: _ => Some e
  | _ => None
  end.

(** How many newline octets a byte sequence holds. *)
Definition newlines (bytes : list byte) : nat := count_occ byte_eq_dec bytes LF.

(** The octet of a value below 256. *)
Definition byte_of (z : Z) : byte :=
  match Byte.of_N (Z.to_N z) with
  | Some b => b
  | None => x00
  end.

(** The scalar values of a string (its conversion to a [USVString]): a
    surrogate pair is one code point, a surrogate on its own is replaced
    by U+FFFD. *)
Fixpoint scalar_values (s : jsstring) : list Z :=
  match s with
  | [] => []
  | c :: r =>
      if is_high_surrogate c then
        match r with
        | d :: r' =>
            if is_low_surrogate d
            then (65536 + (c - 55296) * 1024 + (d - 56320)) :: scalar_values r'
            else Utf8.REPLACEMENT :: scalar_values r
        | [] => [Utf8.REPLACEMENT]
        end
      else if is_low_surrogate c then Utf8.REPLACEMENT :: scalar_values r
      else c :: scalar_values r
  end.

(** The UTF-8 encoder for one scalar value: the lead byte carries the top
    bits and the length, each further byte six bits. *)
Definition utf8_encode (cp : Z) : list byte :=
  let continuation (shift : Z) :=
    byte_of (Z.lor 128 (Z.land (Z.shiftr cp shift) 63)) in
  if cp <? 128 then [byte_of cp]
  else if cp <? 2048 then
    [byte_of (Z.shiftr cp 6 + 192); continuation 0]
  else if cp <? 65536 then
    [byte_of (Z.shiftr cp 12 + 224); continuation 6; continuation 0]
  else
    [byte_of (Z.shiftr cp 18 + 240); continuation 12; continuation 6;
     continuation 0].

(** [new TextEncoder().encode(s)], as the helper of the test suite applies
    it to every chunk. *)
Definition TextEncoder_encode (s : jsstring) : list byte :=
  flat_map utf8_encode (scalar_values s).

(** [String.prototype.isWellFormed()]: no surrogate on its own. *)
Fixpoint isWellFormed (s : jsstring) : bool :=
  match s with
  | [] => true
  | c :: r =>
      if is_high_surrogate c then
        match r with
        | d :: r' => is_low_surrogate d && isWellFormed r'
        | [] => false
        end
      else negb (is_low_surrogate c) && isWellFormed r
  end.

(** Every element is a code unit: sixteen bits. *)
Definition code_units (s : jsstring) : bool :=
  forallb (fun c => (0 <=? c) && (c <? 65536)) s.

(** [createMockStream(chunks)] of the test suite: [{ ok: true, body }],
    where the body hands out the encoding of each chunk, then closes.  The
    helper sets no status and no status text; the adapter reads them only
    when [ok] is false. *)
Definition createMockStream (chunks : list jsstring) : Response :=
  mkResponse true 200 [] (Some (stream_of (map TextEncoder_encode chunks))).

(** A scalar value: a code point that is not a surrogate. *)
Definition is_scalar (cp : Z) : Prop :=
  0 <= cp < 1114112 /\ ~ (55296 <= cp <= 57343).

(** A text less the byte order mark U+FEFF in front, when it has one. *)
Definition drop_mark (s : jsstring) : jsstring :=
  match s with
  | c :: r => if c =? 65279 then r else s
  | [] => []
  end.

(** A Number in the form [JSON.parse] builds: no trailing zero in the
    mantissa, zero written in one way; [-0] is left out, which
    [JSON.stringify] writes as [0]. *)
Definition normal_number (x : Number) : bool :=
  if mantissa x =? 0 then (exponent x =? 0) && negb (negative x)
  else (0 <? mantissa x) && negb (mantissa x mod 10 =? 0).

(** No key occurs twice. *)
Fixpoint distinct (keys : list jsstring) : bool :=
  match keys with
  | [] => true
  | k :: r => negb (existsb (jsstring_eqb k) r) && distinct r
  end.

(** The values JSON text carries without loss: strings of code units,
    numbers in normal form, objects whose keys are distinct. *)
Fixpoint plain (v : Json) : bool :=
  match v with
  | JNull => true
  | JBool _ => true
  | JNumber n => normal_number n
  | JString s => code_units s
  | JArray elements =>
      (fix all (l : list Json) : bool :=
         match l with
         | [] => true
         | x :: r => plain x && all r
         end) elements
  | JObject members =>
      distinct (map fst members) &&
      (fix all (l : list (jsstring * Json)) : bool :=
         match l with
         | [] => true
         | (k, x) :: r => code_units k && plain x && all r
         end) members
  end.

(** The text behind a value inside an array or an object, or the end of
    the text. *)
Definition delimited (rest : jsstring) : Prop :=
  match rest with
  | [] => True
  | c :: _ => c = ch "," \/ c = ch "]" \/ c = ch "}"
  end.

(** The stages of [parse_number]: sign, integer part, fraction,
    exponent. *)
Definition number_sign (s : jsstring) : bool * jsstring :=
  match s with
  | c :: r => if c =? ch "-" then (true, r) else (false, s)
  | [] => (false, s)
  end.

Definition number_int (s1 : jsstring) : option (list Z * jsstring) :=
  match s1 with
  | c :: r1 =>
      if c =? ch "0" then Some ([0], r1)
      else if is_digit c then Some (span_digits s1)
      else None
  | [] => None
  end.

Definition number_frac (s2 : jsstring) : option (list Z * jsstring) :=
  match s2 with
  | c :: r2 =>
      if c =? ch "." then
        match span_digits r2 with
        | ([], _) => None
        | (fs, s3) => Some (fs, s3)
        end
      else Some ([], s2)
  | [] => Some ([], s2)
  end.

Definition number_exp (s3 : jsstring) : option (Z * jsstring) :=
  match s3 with
  | c :: r3 =>
      if (c =? ch "e") || (c =? ch "E") then
        let '(eneg, r4) :=
          match r3 with
          | sg :: r' =>
              if sg =? ch "-" then (true, r')
              else if sg =? ch "+" then (false, r')
              else (false, r3)
          | [] => (false, r3)
          end in
        match span_digits r4 with
        | ([], _) => None
        | (es, s4) =>
            let e := digits_value es in
            Some (if eneg then - e else e, s4)
        end
      else Some (0, s3)
  | [] => Some (0, s3)
  end.

(** The values of a run of digit characters. *)
Definition digit_values (ds : jsstring) : list Z := map (fun c => c - 48) ds.

(** [parse_number] behind the sign. *)
Definition number_body (neg : bool) (s1 : jsstring) : option (Number * jsstring) :=
  match number_int s1 with
  | None => None
  | Some (ints, s2) =>
      match number_frac s2 with
      | None => None
      | Some (fracs, s3) =>
          match number_exp s3 with
          | None => None
          | Some (e, s4) =>
              Some (number_of_digits neg (ints ++ fracs)
                      (e - Z.of_nat (List.length fracs)), s4)
          end
      end
  end.

(** [SerializeJSONArray] and [SerializeJSONObject] between the brackets,
    as [stringify] writes them. *)
Fixpoint stringify_elements (l : list Json) (first : bool) : jsstring :=
  match l with
  | [] => []
  | x :: r =>
      (if first then [] else [ch ","]) ++ stringify x ++ stringify_elements r false
  end.

Fixpoint stringify_members (l : list (jsstring * Json)) (first : bool)
  : jsstring :=
  match l with
  | [] => []
  | (k, x) :: r =>
      (if first then [] else [ch ","]) ++
      QuoteJSONString k ++ ch ":" :: stringify x ++ stringify_members r false
  end.

(** The text of a value is read back as that value, whatever delimiter
    follows it, once the recursion budget is large enough. *)
Definition parses_back (v : Json) : Prop :=
  exists f0 : nat, forall fuel : nat, (f0 <= fuel)%nat ->
  forall rest, delimited rest ->
  parse_value fuel (stringify v ++ rest) = POk v rest.

(** A character that stands for itself on the wire and ends no line: a
    code unit below the surrogates, not a newline. *)
Definition simple (c : Z) : Prop := 0 <= c < 55296 /\ c <> NL.

(** A text that survives encoding and decoding and lies within one line. *)
Definition clean (s : jsstring) : Prop :=
  code_units s = true /\ isWellFormed s = true /\ ~ In NL s.

(** The chunk the test suite makes of a response [r]: the line
    [data: ] with the text of the one-element array, and a newline. *)
Definition data_chunk (r : Json) : jsstring :=
  js "data: " ++ stringify (JArray [r]) ++ [NL].

(** A field that is unset, or set to a value for which [p] holds. *)
Definition all_set {A} (p : A -> bool) (field : option A) : bool :=
  match field with
  | Some x => p x
  | None => true
  end.

(** Every value the request holds is plain. *)
Definition plain_request (request : GenerateContentParameters) : bool :=
  plain (contents request) &&
  all_set (fun l => plain (JArray l)) (config_field request safetySettings) &&
  all_set normal_number (config_field request temperature) &&
  all_set normal_number (config_field request topP) &&
  all_set normal_number (config_field request topK) &&
  all_set normal_number (config_field request candidateCount) &&
  all_set normal_number (config_field request maxOutputTokens) &&
  all_set (forallb code_units) (config_field request stopSequences).

(* ===================================================================== *)
(** ** Strings: [indexOf], [substring] and lines *)
(* ===================================================================== *)

Lemma indexOf_from_NL_cons c r i :
  indexOf_from (c :: r) [NL] i =
  if c =? NL then i else indexOf_from r [NL] (i + 1).
Proof. simpl. now rewrite andb_true_r. Qed.

Lemma indexOf_from_none s : forall i,
  0 <= i -> ~ In NL s -> indexOf_from s [NL] i = -1.
Proof.
  induction s as [|c r IH]; intros i Hi Hn; [reflexivity|].
  rewrite indexOf_from_NL_cons.
  destruct (Z.eqb_spec c NL) as [->|_].
  - exfalso. apply Hn. now left.
  - apply IH; [lia|]. intro H. apply Hn. now right.
Qed.

Lemma indexOf_from_found l rest : forall i,
  ~ In NL l ->
  indexOf_from (l ++ NL :: rest) [NL] i = i + Z.of_nat (List.length l).
Proof.
  induction l as [|c r IH]; intros i Hn.
  - simpl. lia.
  - change ((c :: r) ++ NL :: rest) with (c :: (r ++ NL :: rest)).
    rewrite indexOf_from_NL_cons.
    destruct (Z.eqb_spec c NL) as [->|_].
    + exfalso. apply Hn. now left.
    + rewrite IH; [simpl List.length; lia|].
      intro H. apply Hn. now right.
Qed.

Lemma indexOf_none s : ~ In NL s -> indexOf s [NL] = -1.
Proof. intro H. apply indexOf_from_none; [lia|exact H]. Qed.

Lemma indexOf_found l rest :
  ~ In NL l -> indexOf (l ++ NL :: rest) [NL] = Z.of_nat (List.length l).
Proof. intro H. unfold indexOf. now rewrite indexOf_from_found. Qed.

Lemma substring_prefix l rest :
  substring (l ++ rest) 0 (Some (Z.of_nat (List.length l))) = l.
Proof.
  unfold substring. rewrite length_app.
  replace (Z.min (Z.max 0 0) _) with 0 by lia.
  replace (Z.min (Z.max (Z.of_nat (List.length l)) 0) _)
    with (Z.of_nat (List.length l)) by lia.
  replace (Z.min 0 _) with 0 by lia.
  replace (Z.max 0 _) with (Z.of_nat (List.length l)) by lia.
  rewrite Z.sub_0_r, Nat2Z.id. simpl skipn.
  rewrite firstn_app, Nat.sub_diag, firstn_all. simpl. apply app_nil_r.
Qed.

Lemma substring_suffix l rest :
  substring (l ++ rest) (Z.of_nat (List.length l)) None = rest.
Proof.
  unfold substring. rewrite length_app.
  replace (Z.min (Z.max (Z.of_nat (List.length l)) 0) _)
    with (Z.of_nat (List.length l)) by lia.
  replace (Z.min (Z.of_nat (List.length l)) _)
    with (Z.of_nat (List.length l)) by lia.
  replace (Z.max (Z.of_nat (List.length l)) _)
    with (Z.of_nat (List.length l + List.length rest)) by lia.
  rewrite Nat2Z.id, skipn_app, skipn_all, Nat.sub_diag. simpl.
  apply firstn_all2. lia.
Qed.

(** Any text either has no newline or is a first line, a newline and the
    rest. *)
Lemma first_line s :
  ~ In NL s \/ exists l rest, s = l ++ NL :: rest /\ ~ In NL l.
Proof.
  induction s as [|c r IH]; [left; intros []|].
  destruct (Z.eq_dec c NL) as [->|Hc].
  - right. exists [], r. split; [reflexivity|intros []].
  - destruct IH as [Hn|(l & rest & -> & Hl)].
    + left. intros [H|H]; [now apply Hc|now apply Hn].
    + right. exists (c :: l), rest. split; [reflexivity|].
      intros [H|H]; [now apply Hc|now apply Hl].
Qed.

(* ===================================================================== *)
(** ** The framing loop *)
(* ===================================================================== *)

(** The loop, unfolded once. *)
Lemma frame_once buffer :
  frame buffer =
  if indexOf buffer [NL] =? -1 then ([], buffer)
  else
    let newlineIndex := indexOf buffer [NL] in
    let '(acts, rest) := frame (substring buffer (newlineIndex + 1) None) in
    (process_line (substring buffer 0 (Some newlineIndex)) ++ acts, rest).
Proof.
  funelim (frame buffer).
  - now rewrite e.
  - rewrite e. reflexivity.
Qed.

Lemma frame_no_newline s : ~ In NL s -> frame s = ([], s).
Proof.
  intro H. rewrite frame_once, indexOf_none by exact H. reflexivity.
Qed.

Lemma frame_line l rest :
  ~ In NL l ->
  frame (l ++ NL :: rest) = (process_line l ++ fst (frame rest), snd (frame rest)).
Proof.
  intro H. rewrite frame_once, indexOf_found by exact H.
  assert (E : (Z.of_nat (List.length l) =? -1) = false)
    by (apply Z.eqb_neq; lia).
  rewrite E. cbv zeta.
  rewrite substring_prefix.
  replace (Z.of_nat (List.length l) + 1)
    with (Z.of_nat (List.length (l ++ [NL]))) by (rewrite length_app; simpl; lia).
  replace (l ++ NL :: rest) with ((l ++ [NL]) ++ rest)
    by (rewrite <- app_assoc; reflexivity).
  rewrite substring_suffix. now destruct (frame rest).
Qed.

(** Induction over a text line by line. *)
Lemma lines_ind (P : jsstring -> Prop) :
  (forall s, ~ In NL s -> P s) ->
  (forall l rest, ~ In NL l -> P rest -> P (l ++ NL :: rest)) ->
  forall s, P s.
Proof.
  intros Hbase Hline s.
  remember (List.length s) as n eqn:En.
  revert s En. induction n as [n IH] using lt_wf_ind. intros s En.
  destruct (first_line s) as [Hn|(l & rest & -> & Hl)]; [now apply Hbase|].
  apply Hline; [exact Hl|].
  apply (IH (List.length rest)); [|reflexivity].
  subst n. rewrite length_app. simpl. lia.
Qed.

(** [by_lines s]: the goal for a text without newline, and for a first
    line put in front of a text for which it holds. *)
Ltac by_lines s :=
  pattern s; apply lines_ind; clear s;
  [ intros s ?Hs | intros ?l ?rest ?Hl ?IH ].

(** Text appended behind a buffer is framed as if it had been there from
    the start: the loop only ever looks at the first newline. *)
Lemma frame_app a b :
  frame (a ++ b) =
  (fst (frame a) ++ fst (frame (snd (frame a) ++ b)),
   snd (frame (snd (frame a) ++ b))).
Proof.
  by_lines a.
  - rewrite (frame_no_newline a Hs). simpl. now destruct (frame (a ++ b)).
  - rewrite <- app_assoc. change ((NL :: rest) ++ b) with (NL :: (rest ++ b)).
    rewrite !frame_line by exact Hl. rewrite IH. simpl.
    now rewrite app_assoc.
Qed.

(** When the loop is left no complete line remains in the buffer. *)
Lemma frame_rest_no_newline s : ~ In NL (snd (frame s)).
Proof.
  by_lines s.
  - now rewrite (frame_no_newline s Hs).
  - now rewrite (frame_line l rest Hl).
Qed.

(** The loop cuts the text into its complete lines, processes each in
    order, and leaves what follows the last newline. *)
Lemma frame_lines s :
  exists lines,
    s = flat_map (fun l => l ++ [NL]) lines ++ snd (frame s) /\
    Forall (fun l => ~ In NL l) lines /\
    fst (frame s) = flat_map process_line lines.
Proof.
  by_lines s.
  - exists []. rewrite (frame_no_newline s Hs). simpl. auto.
  - destruct IH as (lines & E & F & A).
    exists (l :: lines). rewrite (frame_line l rest Hl). simpl.
    repeat split.
    + rewrite <- !app_assoc. simpl. now rewrite <- E.
    + now constructor.
    + now rewrite A.
Qed.

Lemma process_line_outputs line : outputs (process_line line) = process_line line.
Proof.
  unfold process_line.
  destruct (startsWith line (js "data: ")); [|reflexivity].
  destruct (JSON.parse _) as [[| | | |[|]|]|]; reflexivity.
Qed.

Lemma outputs_app a b : outputs (a ++ b) = outputs a ++ outputs b.
Proof. apply filter_app. Qed.

Lemma frame_outputs s : outputs (fst (frame s)) = fst (frame s).
Proof.
  by_lines s.
  - now rewrite (frame_no_newline s Hs).
  - rewrite (frame_line l rest Hl). simpl.
    now rewrite outputs_app, process_line_outputs, IH.
Qed.

Lemma yielded_app a b : yielded (a ++ b) = yielded a ++ yielded b.
Proof.
  induction a as [|x a IH]; [reflexivity|].
  destruct x; simpl; now rewrite IH.
Qed.

Lemma yielded_outputs t : yielded (outputs t) = yielded t.
Proof.
  induction t as [|x t IH]; [reflexivity|].
  destruct x; simpl; now rewrite IH.
Qed.

(* ===================================================================== *)
(** ** The UTF-8 decoder *)
(* ===================================================================== *)

Lemma byte_val_range b : 0 <= Utf8.byte_val b < 256.
Proof.
  unfold Utf8.byte_val. pose proof (Byte.to_N_bounded b). lia.
Qed.

Lemma byte_val_LF b : Utf8.byte_val b = 10 <-> b = LF.
Proof.
  split; [|intros ->; reflexivity].
  unfold Utf8.byte_val. intro H.
  assert (E : Byte.to_N b = 10%N) by lia.
  pose proof (Byte.of_to_N b) as O. rewrite E in O.
  simpl in O. now inversion O.
Qed.

(** The continuation step: six more bits below the bits gathered so far. *)
Lemma continuation_value cp b :
  Z.lor (Z.shiftl cp 6) (Z.land b 63) = cp * 64 + b mod 64.
Proof.
  assert (D : Z.land (Z.shiftl cp 6) (Z.land b 63) = 0).
  { rewrite (Z.land_comm b 63), Z.land_assoc.
    change 63 with (Z.ones 6). rewrite Z.land_ones by lia.
    rewrite Z.shiftl_mul_pow2 by lia. rewrite Z.mod_mul by lia.
    apply Z.land_0_l. }
  rewrite <- Z.lxor_lor by exact D.
  rewrite <- Z.add_nocarry_lxor by exact D.
  rewrite Z.shiftl_mul_pow2 by lia.
  change 63 with (Z.ones 6). rewrite Z.land_ones by lia. reflexivity.
Qed.

Lemma land_low b n : 0 <= n -> Z.land b (Z.ones n) = b mod 2 ^ n.
Proof. intro H. now apply Z.land_ones. Qed.

(** Comparisons of the decoder's tests, as propositions. *)
Ltac tests :=
  repeat match goal with
  | H : (_ && _) = true |- _ => apply andb_true_iff in H; destruct H
  | H : (_ && _) = false |- _ => apply andb_false_iff in H; destruct H
  | H : negb _ = true |- _ => apply negb_true_iff in H
  | H : negb _ = false |- _ => apply negb_false_iff in H
  | H : (_ <=? _) = true |- _ => apply Z.leb_le in H
  | H : (_ <=? _) = false |- _ => apply Z.leb_gt in H
  | H : (_ <? _) = true |- _ => apply Z.ltb_lt in H
  | H : (_ <? _) = false |- _ => apply Z.ltb_ge in H
  | H : (_ =? _) = true |- _ => apply Z.eqb_eq in H
  | H : (_ =? _) = false |- _ => apply Z.eqb_neq in H
  end.

(** Linear arithmetic with division and remainder by a constant. *)
Ltac zmod := Z.div_mod_to_equations; lia.

(** One byte from a state at rest. *)
Lemma step_initial b :
  0 <= b < 256 ->
  let '(st', cps) := Utf8.step Utf8.initial b in
  decoder_inv st' /\
  (b = 10 -> st' = Utf8.initial /\ cps = [10]) /\
  (b <> 10 -> Forall (fun cp => cp <> 10 /\ 0 <= cp) cps).
Proof.
  intro Hb. unfold Utf8.step, Utf8.handler. simpl Utf8.bytes_needed.
  change (0 =? 0) with true. cbv iota.
  destruct (b <=? 127) eqn:T1.
  { tests. split; [now left|]. split; [intros ->; auto|].
    intro. repeat constructor; lia. }
  destruct ((194 <=? b) && (b <=? 223)) eqn:T2.
  { tests; (split; [|split; [lia|constructor]]).
    right. simpl. change 31 with (Z.ones 5). rewrite land_low by lia.
    change (2 ^ 5) with 32. zmod. }
  destruct ((224 <=? b) && (b <=? 239)) eqn:T3.
  { tests; (split; [|split; [lia|constructor]]);
    right; simpl; change 15 with (Z.ones 4); rewrite land_low by lia;
    change (2 ^ 4) with 16;
    destruct (b =? 224) eqn:?, (b =? 237) eqn:?; tests; zmod. }
  destruct ((240 <=? b) && (b <=? 244)) eqn:T4.
  { tests; (split; [|split; [lia|constructor]]);
    right; simpl; change 7 with (Z.ones 3); rewrite land_low by lia;
    change (2 ^ 3) with 8;
    destruct (b =? 240) eqn:?, (b =? 244) eqn:?; tests; zmod. }
  split; [now left|]. split; [tests; lia|].
  intro. repeat constructor; unfold Utf8.REPLACEMENT; lia.
Qed.

(** A byte that does not continue the sequence under way: one error, and
    the byte is decoded again from the state at rest. *)
Lemma step_restore st b :
  Utf8.bytes_needed st <> 0 ->
  (Utf8.lower_boundary st <=? b) && (b <=? Utf8.upper_boundary st) = false ->
  Utf8.step st b =
  (fst (Utf8.step Utf8.initial b),
   Utf8.REPLACEMENT :: snd (Utf8.step Utf8.initial b)).
Proof.
  intros Hn Hr. unfold Utf8.step. unfold Utf8.handler at 1.
  apply Z.eqb_neq in Hn. rewrite Hn, Hr. simpl negb. cbv iota.
  unfold Utf8.handler. simpl Utf8.bytes_needed. change (0 =? 0) with true.
  cbv iota.
  repeat match goal with
         | |- context [if ?c then _ else _] => destruct c
         end; reflexivity.
Qed.

(** One byte from any state of the decoder. *)
Lemma step_inv st b :
  decoder_inv st -> 0 <= b < 256 ->
  let '(st', cps) := Utf8.step st b in
  decoder_inv st' /\
  (b = 10 -> st' = Utf8.initial /\ (cps = [10] \/ cps = [Utf8.REPLACEMENT; 10])) /\
  (b <> 10 -> Forall (fun cp => cp <> 10 /\ 0 <= cp) cps).
Proof.
  intros [->|(Hn & Hl & Hu & Hc & Hd)] Hb.
  { pose proof (step_initial b Hb) as S.
    destruct (Utf8.step Utf8.initial b) as [st' cps].
    destruct S as (I & A & B). split; [exact I|]. split; [|exact B].
    intro E. destruct (A E) as [-> ->]. auto. }
  destruct ((Utf8.lower_boundary st <=? b) && (b <=? Utf8.upper_boundary st))
    eqn:T1.
  - unfold Utf8.step, Utf8.handler.
    destruct (Utf8.bytes_needed st =? 0) eqn:T0; [tests; contradiction|].
    rewrite T1. simpl negb. cbv iota. rewrite continuation_value.
    destruct (negb (Utf8.bytes_seen st + 1 =? Utf8.bytes_needed st)) eqn:T2;
      tests.
    + split; [|split; [lia|constructor]].
      right. simpl. repeat split; try lia; zmod.
    + split; [now left|]. split; [lia|].
      intro. repeat constructor; zmod.
  - rewrite (step_restore st b Hn T1).
    pose proof (step_initial b Hb) as S.
    destruct (Utf8.step Utf8.initial b) as [st' cps].
    destruct S as (I & A & B). simpl. split; [exact I|]. split.
    + intro E. destruct (A E) as [-> ->]. auto.
    + intro E. constructor; [unfold Utf8.REPLACEMENT; lia|auto].
Qed.

Lemma utf16_no_newline cp : cp <> 10 -> 0 <= cp -> ~ In NL (Utf8.utf16 cp).
Proof.
  intros Hc Hp. unfold Utf8.utf16, NL.
  destruct (cp <? 65536) eqn:T; tests.
  - intros [H|[]]. lia.
  - pose proof (Z.shiftr_nonneg (cp - 65536) 10) as S.
    pose proof (Z.land_nonneg (cp - 65536) 1023) as L.
    intros [H|[H|[]]]; lia.
Qed.

Lemma serialize_no_newline cps : forall seen,
  Forall (fun cp => cp <> 10 /\ 0 <= cp) cps ->
  ~ In NL (snd (Utf8.serialize seen cps)).
Proof.
  induction cps as [|cp r IH]; intros seen F; [intros []|].
  inversion F as [|? ? [Hc Hp] Fr]; subst. simpl.
  assert (G : ~ In NL (Utf8.utf16 cp ++ snd (Utf8.serialize true r))).
  { intro H. apply in_app_or in H. destruct H as [H|H].
    - now apply (utf16_no_newline cp Hc Hp).
    - now apply (IH true Fr). }
  destruct seen; [|destruct (cp =? 65279)].
  - now destruct (Utf8.serialize true r).
  - now apply IH.
  - now destruct (Utf8.serialize true r).
Qed.

(** The decoder over a chunk, one byte further. *)
Lemma decode_cons d b r :
  Utf8.decode d (b :: r) =
  (fst (Utf8.decode
          (Utf8.mkDecoder (fst (Utf8.step (Utf8.utf8 d) (Utf8.byte_val b)))
             (fst (Utf8.serialize (Utf8.bom_seen d)
                     (snd (Utf8.step (Utf8.utf8 d) (Utf8.byte_val b)))))) r),
   snd (Utf8.serialize (Utf8.bom_seen d)
          (snd (Utf8.step (Utf8.utf8 d) (Utf8.byte_val b)))) ++
   snd (Utf8.decode
          (Utf8.mkDecoder (fst (Utf8.step (Utf8.utf8 d) (Utf8.byte_val b)))
             (fst (Utf8.serialize (Utf8.bom_seen d)
                     (snd (Utf8.step (Utf8.utf8 d) (Utf8.byte_val b)))))) r)).
Proof.
  destruct d as [u s].
  cbn [Utf8.decode Utf8.utf8 Utf8.bom_seen].
  destruct (Utf8.step u (Utf8.byte_val b)) as [st cps].
  cbn [fst snd]. destruct (Utf8.serialize s cps) as [seen out].
  cbn [fst snd]. now destruct (Utf8.decode _ r).
Qed.

(** The decoder is stateful: two chunks in a row are decoded as their
    concatenation. *)
Lemma decode_app a : forall d b,
  Utf8.decode d (a ++ b) =
  (fst (Utf8.decode (fst (Utf8.decode d a)) b),
   snd (Utf8.decode d a) ++ snd (Utf8.decode (fst (Utf8.decode d a)) b)).
Proof.
  induction a as [|x a IH]; intros d b.
  - simpl. now destruct (Utf8.decode d b).
  - change ((x :: a) ++ b) with (x :: (a ++ b)).
    rewrite !decode_cons, IH. simpl. now rewrite app_assoc.
Qed.

Lemma decode_inv v : forall d,
  decoder_inv (Utf8.utf8 d) -> decoder_inv (Utf8.utf8 (fst (Utf8.decode d v))).
Proof.
  induction v as [|b r IH]; intros d I; [exact I|].
  rewrite decode_cons. simpl fst. apply IH. simpl.
  pose proof (step_inv (Utf8.utf8 d) (Utf8.byte_val b) I (byte_val_range b)) as S.
  destruct (Utf8.step _ _). now destruct S.
Qed.

(** Only the newline octet decodes to a newline. *)
Lemma decode_no_newline v : forall d,
  decoder_inv (Utf8.utf8 d) -> ~ In LF v -> ~ In NL (snd (Utf8.decode d v)).
Proof.
  induction v as [|b r IH]; intros d I Hn; [intros []|].
  rewrite decode_cons. simpl snd.
  pose proof (step_inv (Utf8.utf8 d) (Utf8.byte_val b) I (byte_val_range b)) as S.
  destruct (Utf8.step _ _) as [st cps]. destruct S as (I' & _ & B).
  assert (Hb : Utf8.byte_val b <> 10).
  { intro E. apply byte_val_LF in E. apply Hn. now left. }
  intro H. apply in_app_or in H. destruct H as [H|H].
  - now apply (serialize_no_newline cps (Utf8.bom_seen d) (B Hb)).
  - revert H. apply IH; [exact I'|]. intro H. apply Hn. now right.
Qed.

(** The newline octet always decodes to a newline, in last place, and
    leaves the decoder at rest. *)
Lemma decode_LF d :
  decoder_inv (Utf8.utf8 d) ->
  exists t, Utf8.decode d [LF] = (Utf8.mkDecoder Utf8.initial true, t ++ [NL]).
Proof.
  intro I. rewrite decode_cons.
  pose proof (step_inv (Utf8.utf8 d) (Utf8.byte_val LF) I (byte_val_range LF)) as S.
  destruct (Utf8.step _ _) as [st cps]. destruct S as (_ & A & _).
  destruct (A eq_refl) as [-> [->| ->]]; simpl.
  - exists []. now destruct (Utf8.bom_seen d).
  - exists [Utf8.REPLACEMENT]. now destruct (Utf8.bom_seen d).
Qed.

(* ===================================================================== *)
(** ** The reading loop *)
(* ===================================================================== *)

Lemma on_chunk_eq st value :
  on_chunk st value =
  (fst (frame (buffer st ++ snd (Utf8.decode (decoder st) value))),
   mkDecodeState (fst (Utf8.decode (decoder st) value))
     (snd (frame (buffer st ++ snd (Utf8.decode (decoder st) value))))).
Proof.
  unfold on_chunk. destruct (Utf8.decode (decoder st) value) as [d text].
  simpl. now destruct (frame (buffer st ++ text)).
Qed.

Lemma run_chunks_cons st value rest :
  run_chunks st (value :: rest) =
  (fst (on_chunk st value) ++ fst (run_chunks (snd (on_chunk st value)) rest),
   snd (run_chunks (snd (on_chunk st value)) rest)).
Proof.
  simpl. destruct (on_chunk st value) as [acts st']. simpl.
  now destruct (run_chunks st' rest).
Qed.

(** The loop over any number of chunks does what the framing loop does on
    the text decoded from all their bytes put together. *)
Lemma run_chunks_spec chunks : forall st,
  ~ In NL (buffer st) ->
  run_chunks st chunks =
  (fst (frame (buffer st ++ snd (Utf8.decode (decoder st) (List.concat chunks)))),
   mkDecodeState (fst (Utf8.decode (decoder st) (List.concat chunks)))
     (snd (frame (buffer st ++ snd (Utf8.decode (decoder st) (List.concat chunks)))))).
Proof.
  induction chunks as [|value rest IH]; intros st Hb.
  - simpl. rewrite app_nil_r, (frame_no_newline _ Hb). now destruct st.
  - rewrite run_chunks_cons, on_chunk_eq. cbn [fst snd].
    rewrite IH by (cbn [buffer]; apply frame_rest_no_newline).
    cbn [buffer decoder List.concat]. rewrite decode_app. cbn [fst snd].
    rewrite (app_assoc (buffer st)).
    rewrite (frame_app (buffer st ++ snd (Utf8.decode (decoder st) value))).
    reflexivity.
Qed.

Lemma run_chunks_outputs chunks : forall st,
  outputs (fst (run_chunks st chunks)) = fst (run_chunks st chunks).
Proof.
  induction chunks as [|value rest IH]; intro st; [reflexivity|].
  rewrite run_chunks_cons, on_chunk_eq. cbn [fst snd].
  now rewrite outputs_app, frame_outputs, IH.
Qed.

Lemma read_loop_value value rest st :
  read_loop (ReadValue value :: rest) st =
  (CallRead :: fst (on_chunk st value)
     ++ fst (read_loop rest (snd (on_chunk st value))),
   snd (read_loop rest (snd (on_chunk st value)))).
Proof.
  simpl. destruct (on_chunk st value) as [acts st']. simpl.
  now destruct (read_loop rest st').
Qed.

(** The outer loop over a run of chunks, then whatever the transport does
    next. *)
Lemma read_loop_chunks chunks : forall st tail,
  outputs (fst (read_loop (map ReadValue chunks ++ tail) st)) =
    fst (run_chunks st chunks)
    ++ outputs (fst (read_loop tail (snd (run_chunks st chunks)))) /\
  snd (read_loop (map ReadValue chunks ++ tail) st) =
    snd (read_loop tail (snd (run_chunks st chunks))).
Proof.
  induction chunks as [|value rest IH]; intros st tail; [now simpl|].
  change (map ReadValue (value :: rest) ++ tail)
    with (ReadValue value :: (map ReadValue rest ++ tail)).
  rewrite read_loop_value, run_chunks_cons. cbn [fst snd].
  destruct (IH (snd (on_chunk st value)) tail) as [E1 E2].
  split; [|exact E2].
  change (outputs (CallRead :: ?x)) with (outputs x).
  unfold outputs at 1. simpl filter. fold (outputs
    (fst (on_chunk st value) ++
     fst (read_loop (map ReadValue rest ++ tail) (snd (on_chunk st value))))).
  rewrite outputs_app, E1, on_chunk_eq. cbn [fst snd].
  now rewrite frame_outputs, app_assoc.
Qed.

Lemma frame_of_lines lines rest :
  Forall (fun l => ~ In NL l) lines -> ~ In NL rest ->
  frame (flat_map (fun l => l ++ [NL]) lines ++ rest) =
  (flat_map process_line lines, rest).
Proof.
  intros F Hr. induction F as [|l lines Hl F IH].
  - simpl. now apply frame_no_newline.
  - simpl. rewrite <- !app_assoc. simpl.
    rewrite (frame_line l _ Hl), IH. reflexivity.
Qed.

Lemma try_catch_throw {A} (m : M A) (f : JsError -> JsError) :
  try_catch m (fun error => throw (f error)) =
  (fst m, match snd m with
          | Return a => Return a
          | Throw e => Throw (f e)
          end).
Proof.
  destruct m as [t [a|e]]; simpl; [reflexivity|]. now rewrite app_nil_r.
Qed.

Section Streaming.

Variable platform : Platform.
Variable this : LocalContentGenerator.
Variable request : GenerateContentParameters.
Variable response : Response.

Hypothesis fetch_resolves :
  fetch platform (getEndpoint this true) (post_init request) = Resolved response.
Hypothesis response_ok : ok response = true.

(** A streaming call whose response is usable: the fetch, then the reading
    loop, and the loop's failure (if any) wrapped once. *)
Lemma stream_reads reader :
  body response = Some reader ->
  generateContentStream platform this request =
  (CallFetch (getEndpoint this true) (post_init request)
     :: fst (read_loop reader initial_state),
   match snd (read_loop reader initial_state) with
   | Return a => Return a
   | Throw e =>
       Throw (mkError (js "Failed to generate content stream from local LLM: "
                       ++ getErrorMessage e))
   end).
Proof.
  intro Hb. unfold generateContentStream.
  rewrite try_catch_throw. unfold bind, await.
  rewrite fetch_resolves, response_ok, Hb. simpl negb. cbv iota.
  now destruct (read_loop reader initial_state) as [t [[]|e]].
Qed.

(** The body arrives in [chunks] and the transport then does [tail]: the
    consumer and the console see what the framing loop makes of the text
    decoded from all the bytes, and the call ends as the reading of [tail]
    ends. *)
Lemma stream_chunks chunks tail :
  body response = Some (map ReadValue chunks ++ tail) ->
  outputs (fst (generateContentStream platform this request)) =
    fst (frame (decoded_text (List.concat chunks)))
    ++ outputs (fst (read_loop tail (snd (run_chunks initial_state chunks)))) /\
  snd (generateContentStream platform this request) =
    match snd (read_loop tail (snd (run_chunks initial_state chunks))) with
    | Return a => Return a
    | Throw e =>
        Throw (mkError (js "Failed to generate content stream from local LLM: "
                        ++ getErrorMessage e))
    end.
Proof.
  intro Hb. rewrite (stream_reads _ Hb). cbn [fst snd].
  destruct (read_loop_chunks chunks initial_state tail) as [E1 E2].
  rewrite E2. split; [|reflexivity].
  change (outputs (CallFetch ?u ?i :: ?x)) with (outputs x).
  rewrite E1. f_equal.
  rewrite run_chunks_spec by (intros []). reflexivity.
Qed.

End Streaming.

(* ===================================================================== *)
(** ** The parser's recursion budget *)
(* ===================================================================== *)

Lemma skip_ws_length s : (List.length (skip_ws s) <= List.length s)%nat.
Proof.
  induction s as [|c r IH]; [simpl; lia|].
  simpl. destruct (is_ws c); simpl; lia.
Qed.

Lemma span_digits_length s :
  (List.length (snd (span_digits s)) <= List.length s)%nat.
Proof.
  induction s as [|c r IH]; [simpl; lia|].
  simpl. destruct (is_digit c); [|simpl; lia].
  destruct (span_digits r). simpl in *. lia.
Qed.

Lemma parse_string_chars_length n : forall s acc str rest,
  (List.length s <= n)%nat ->
  parse_string_chars s acc = Some (str, rest) ->
  (List.length rest < List.length s)%nat.
Proof.
  induction n as [|n IH]; intros s acc str rest Hn H.
  - destruct s; [discriminate H|simpl in Hn; lia].
  - destruct s as [|c r]; [discriminate H|]. simpl in H, Hn.
    destruct (c =? 34); [inversion H; subst; simpl; lia|].
    destruct (c =? 92).
    + destruct r as [|e r']; [discriminate H|].
      destruct (e =? ch "u").
      * destruct r' as [|h1 [|h2 [|h3 [|h4 r'']]]]; try discriminate H.
        destruct (hex4 h1 h2 h3 h4); [|discriminate H].
        apply IH in H; simpl in *; lia.
      * destruct (simple_escape e); [|discriminate H].
        apply IH in H; simpl in *; lia.
    + destruct (c <? 32); [discriminate H|].
      apply IH in H; simpl in *; lia.
Qed.

Lemma parse_number_length s x rest :
  parse_number s = Some (x, rest) -> (List.length rest < List.length s)%nat.
Proof.
  unfold parse_number.
  set (sign := match s with
               | c :: r => if c =? ch "-" then (true, r) else (false, s)
               | [] => (false, s)
               end).
  assert (L1 : (List.length (snd sign) <= List.length s)%nat).
  { subst sign. destruct s as [|c r]; [simpl; lia|].
    destruct (c =? ch "-"); simpl; lia. }
  destruct sign as [neg s1]. simpl in L1.
  set (int_part := match s1 with
                   | c :: r1 =>
                       if c =? ch "0" then Some ([0], r1)
                       else if is_digit c then Some (span_digits s1)
                       else None
                   | [] => None
                   end).
  assert (L2 : forall ints s2, int_part = Some (ints, s2) ->
                 (List.length s2 < List.length s1)%nat).
  { subst int_part. intros ints s2 E. destruct s1 as [|c r1]; [discriminate E|].
    destruct (c =? ch "0"); [inversion E; subst; simpl; lia|].
    destruct (is_digit c) eqn:D; [|discriminate E].
    inversion E as [E']. simpl in E'. rewrite D in E'.
    pose proof (span_digits_length r1) as S.
    destruct (span_digits r1). inversion E'; subst. simpl in *. lia. }
  destruct int_part as [[ints s2]|]; [|discriminate].
  specialize (L2 ints s2 eq_refl).
  set (frac_part := match s2 with
        | c :: r2 =>
            if c =? ch "." then
              match span_digits r2 with
              | ([], _) => None
              | (fs, s3) => Some (fs, s3)
              end
            else Some ([], s2)
        | [] => Some ([], s2)
        end).
  assert (L3 : forall fs s3, frac_part = Some (fs, s3) ->
                 (List.length s3 <= List.length s2)%nat).
  { subst frac_part. intros fs s3 E. destruct s2 as [|c r2]; [inversion E; subst; lia|].
    destruct (c =? ch "."); [|inversion E; subst; lia].
    pose proof (span_digits_length r2) as S.
    destruct (span_digits r2) as [[|d ds] t]; [discriminate E|].
    inversion E; subst. simpl in *. lia. }
  destruct frac_part as [[fracs s3]|]; [|discriminate].
  specialize (L3 fracs s3 eq_refl).
  set (exp_part := match s3 with
            | c :: r3 =>
                if (c =? ch "e") || (c =? ch "E") then
                  let '(eneg, r4) :=
                    match r3 with
                    | sg :: r' =>
                        if sg =? ch "-" then (true, r')
                        else if sg =? ch "+" then (false, r')
                        else (false, r3)
                    | [] => (false, r3)
                    end in
                  match span_digits r4 with
                  | ([], _) => None
                  | (es, s4) =>
                      let e := digits_value es in
                      Some (if eneg then - e else e, s4)
                  end
                else Some (0, s3)
            | [] => Some (0, s3)
            end).
  assert (L4 : forall e s4, exp_part = Some (e, s4) ->
                 (List.length s4 <= List.length s3)%nat).
  { subst exp_part. intros e s4 E. destruct s3 as [|c r3]; [inversion E; subst; lia|].
    destruct ((c =? ch "e") || (c =? ch "E")); [|inversion E; subst; lia].
    set (sg := match r3 with
               | sg :: r' =>
                   if sg =? ch "-" then (true, r')
                   else if sg =? ch "+" then (false, r')
                   else (false, r3)
               | [] => (false, r3)
               end) in E.
    assert (L : (List.length (snd sg) <= List.length r3)%nat).
    { subst sg. destruct r3 as [|y r']; [simpl; lia|].
      destruct (y =? ch "-"); [simpl; lia|].
      destruct (y =? ch "+"); simpl; lia. }
    destruct sg as [eneg r4]. simpl in L.
    pose proof (span_digits_length r4) as S.
    destruct (span_digits r4) as [[|d ds] t]; [discriminate E|].
    inversion E; subst. simpl in *. lia. }
  destruct exp_part as [[e s4]|]; [|discriminate].
  specialize (L4 e s4 eq_refl).
  intro H. inversion H; subst. lia.
Qed.

Lemma parse_literal_length tail v r v' rest :
  parse_literal tail v r = POk v' rest ->
  (List.length rest <= List.length r)%nat.
Proof.
  unfold parse_literal. destruct (startsWith r tail); [|discriminate].
  intro H. inversion H; subst. rewrite length_skipn. lia.
Qed.

Lemma parse_progress fuel :
  (forall s v rest, parse_value fuel s = POk v rest ->
     (List.length rest < List.length s)%nat) /\
  (forall s acc v rest, parse_elements fuel s acc = POk v rest ->
     (List.length rest < List.length s)%nat) /\
  (forall s acc v rest, parse_members fuel s acc = POk v rest ->
     (List.length rest < List.length s)%nat).
Proof.
  induction fuel as [|f (IHv & IHe & IHm)]; [repeat split; intros; discriminate|].
  repeat split.
  - intros s v rest H. destruct s as [|c r]; [discriminate H|].
    simpl in H.
    destruct (c =? ch "n");
      [apply parse_literal_length in H; simpl; lia|].
    destruct (c =? ch "t");
      [apply parse_literal_length in H; simpl; lia|].
    destruct (c =? ch "f");
      [apply parse_literal_length in H; simpl; lia|].
    destruct (c =? 34).
    { destruct (parse_string_chars r []) as [[str t]|] eqn:E; [|discriminate H].
      inversion H; subst.
      apply (parse_string_chars_length _ _ _ _ _ (le_n _)) in E. simpl. lia. }
    pose proof (skip_ws_length r) as W.
    destruct (c =? ch "[").
    { destruct (skip_ws r) as [|c' t]; [discriminate H|].
      destruct (c' =? ch "]"); [inversion H; subst; simpl in *; lia|].
      apply IHe in H. simpl in *. lia. }
    destruct (c =? ch "{").
    { destruct (skip_ws r) as [|c' t]; [discriminate H|].
      destruct (c' =? ch "}"); [inversion H; subst; simpl in *; lia|].
      apply IHm in H. simpl in *. lia. }
    destruct (parse_number (c :: r)) as [[x t]|] eqn:E; [|discriminate H].
    inversion H; subst. now apply parse_number_length in E.
  - intros s acc v rest H. simpl in H.
    destruct (parse_value f s) as [x t| |] eqn:E; try discriminate H.
    apply IHv in E. pose proof (skip_ws_length t) as W.
    destruct (skip_ws t) as [|c t']; [discriminate H|].
    destruct (c =? ch ",").
    { apply IHe in H. pose proof (skip_ws_length t'). simpl in *. lia. }
    destruct (c =? ch "]"); [|discriminate H].
    inversion H; subst. simpl in *. lia.
  - intros s acc v rest H. simpl in H.
    destruct s as [|c r]; [discriminate H|].
    destruct (c =? 34); [|discriminate H].
    destruct (parse_string_chars r []) as [[key t]|] eqn:E; [|discriminate H].
    apply (parse_string_chars_length _ _ _ _ _ (le_n _)) in E.
    pose proof (skip_ws_length t) as W.
    destruct (skip_ws t) as [|c1 t1]; [discriminate H|].
    destruct (c1 =? ch ":"); [|discriminate H].
    pose proof (skip_ws_length t1) as W1.
    destruct (parse_value f (skip_ws t1)) as [x t2| |] eqn:E2; try discriminate H.
    apply IHv in E2. pose proof (skip_ws_length t2) as W2.
    destruct (skip_ws t2) as [|c2 t3]; [discriminate H|].
    destruct (c2 =? ch ",").
    { apply IHm in H. pose proof (skip_ws_length t3). simpl in *. lia. }
    destruct (c2 =? ch "}"); [|discriminate H].
    inversion H; subst. simpl in *. lia.
Qed.

(** With a budget of twice the length of the input (and one or two more)
    the parser comes to an answer. *)
Lemma parse_budget fuel :
  (forall s, (2 * List.length s + 1 <= fuel)%nat -> parse_value fuel s <> PFuel) /\
  (forall s acc, (2 * List.length s + 2 <= fuel)%nat ->
     parse_elements fuel s acc <> PFuel) /\
  (forall s acc, (2 * List.length s + 2 <= fuel)%nat ->
     parse_members fuel s acc <> PFuel).
Proof.
  induction fuel as [|f (IHv & IHe & IHm)]; [repeat split; intros; lia|].
  destruct (parse_progress f) as (Pv & Pe & Pm).
  repeat split.
  - intros s B. destruct s as [|c r]; [discriminate|].
    simpl. simpl in B. unfold parse_literal.
    destruct (c =? ch "n"); [destruct (startsWith r _); discriminate|].
    destruct (c =? ch "t"); [destruct (startsWith r _); discriminate|].
    destruct (c =? ch "f"); [destruct (startsWith r _); discriminate|].
    destruct (c =? 34);
      [destruct (parse_string_chars r []) as [[? ?]|]; discriminate|].
    pose proof (skip_ws_length r) as W.
    destruct (c =? ch "[").
    { destruct (skip_ws r) as [|c' t]; [discriminate|].
      destruct (c' =? ch "]"); [discriminate|].
      apply IHe. simpl in *. lia. }
    destruct (c =? ch "{").
    { destruct (skip_ws r) as [|c' t]; [discriminate|].
      destruct (c' =? ch "}"); [discriminate|].
      apply IHm. simpl in *. lia. }
    destruct (parse_number (c :: r)) as [[? ?]|]; discriminate.
  - intros s acc B. simpl.
    pose proof (IHv s) as V.
    destruct (parse_value f s) as [x t| |] eqn:E;
      [|discriminate|exfalso; apply V; [lia|reflexivity]].
    apply Pv in E. pose proof (skip_ws_length t) as W.
    destruct (skip_ws t) as [|c t']; [discriminate|].
    destruct (c =? ch ",").
    { apply IHe. pose proof (skip_ws_length t'). simpl in *. lia. }
    destruct (c =? ch "]"); discriminate.
  - intros s acc B. simpl.
    destruct s as [|c r]; [discriminate|].
    destruct (c =? 34); [|discriminate].
    destruct (parse_string_chars r []) as [[key t]|] eqn:E; [|discriminate].
    apply (parse_string_chars_length _ _ _ _ _ (le_n _)) in E.
    pose proof (skip_ws_length t) as W.
    destruct (skip_ws t) as [|c1 t1]; [discriminate|].
    destruct (c1 =? ch ":"); [|discriminate].
    pose proof (skip_ws_length t1) as W1.
    pose proof (IHv (skip_ws t1)) as V.
    destruct (parse_value f (skip_ws t1)) as [x t2| |] eqn:E2;
      [|discriminate|exfalso; apply V; [simpl in *; lia|reflexivity]].
    apply Pv in E2. pose proof (skip_ws_length t2) as W2.
    destruct (skip_ws t2) as [|c2 t3]; [discriminate|].
    destruct (c2 =? ch ",").
    { apply IHm. pose proof (skip_ws_length t3). simpl in *. lia. }
    destruct (c2 =? ch "}"); discriminate.
Qed.

(** [JSON.parse] never gives up for lack of budget: its [None] is a syntax
    error of the text. *)
Lemma parse_value_budget text :
  parse_value (2 * List.length (skip_ws text) + 2) (skip_ws text) <> PFuel.
Proof. apply (proj1 (parse_budget _)). lia. Qed.

(* ===================================================================== *)
(** ** One line *)
(* ===================================================================== *)

Lemma startsWith_app p : forall r, startsWith (p ++ r) p = true.
Proof.
  induction p as [|c p IH]; intro r; [reflexivity|].
  simpl. now rewrite Z.eqb_refl, IH.
Qed.

Lemma startsWith_inv p : forall s,
  startsWith s p = true -> exists r, s = p ++ r.
Proof.
  induction p as [|c p IH]; intros s H.
  - now exists s.
  - destruct s as [|x s]; [discriminate H|]. simpl in H.
    apply andb_true_iff in H. destruct H as [E H].
    apply Z.eqb_eq in E. subst x.
    destruct (IH s H) as [r ->]. now exists r.
Qed.

(** [JSON.parse] skips white space in front of the value: the space that
    [line.substring(5)] leaves in front of the payload does not count. *)
Lemma parse_leading_space r : JSON.parse (ch " " :: r) = JSON.parse r.
Proof. reflexivity. Qed.

Lemma data_line_jsonStr r :
  substring (js "data: " ++ r) 5 None = ch " " :: r.
Proof.
  change (js "data: " ++ r) with (js "data:" ++ ch " " :: r).
  change 5 with (Z.of_nat (List.length (js "data:"))).
  apply substring_suffix.
Qed.

(** What the generator does with a line [data: r], by what [r] parses to. *)
Lemma process_data_line r :
  process_line (js "data: " ++ r) =
  match JSON.parse r with
  | Some (JArray (first :: _)) => [Yield first]
  | Some json => [ConsoleWarn json]
  | None => [ConsoleError (ch " " :: r)]
  end.
Proof.
  unfold process_line.
  rewrite startsWith_app, data_line_jsonStr, parse_leading_space.
  reflexivity.
Qed.

Lemma no_newline_check s : forallb (fun c => negb (c =? NL)) s = true -> ~ In NL s.
Proof.
  intros H I. rewrite forallb_forall in H. specialize (H NL I).
  now rewrite Z.eqb_refl in H.
Qed.

Lemma last_newline_octet bytes :
  ~ In LF bytes \/
  exists done tail, bytes = (done ++ [LF]) ++ tail /\ ~ In LF tail.
Proof.
  induction bytes as [|b r IH]; [left; intros []|].
  destruct IH as [Hn|(done & tail & -> & Ht)].
  - destruct (byte_eq_dec b LF) as [->|Hb].
    + right. exists [], r. now split.
    + left. intros [H|H]; [now apply Hb|now apply Hn].
  - right. exists (b :: done), tail. now split.
Qed.

(** A text that ends with a newline is framed completely. *)
Lemma frame_complete t : snd (frame (t ++ [NL])) = [].
Proof.
  by_lines t.
  - rewrite (frame_line t [] Hs). now rewrite frame_no_newline by (intros []).
  - rewrite <- app_assoc. change ((NL :: rest) ++ [NL]) with (NL :: (rest ++ [NL])).
    now rewrite (frame_line l _ Hl).
Qed.

Lemma data_line_payload r : substring (js "data: " ++ r) 6 None = r.
Proof.
  change 6 with (Z.of_nat (List.length (js "data: "))).
  apply substring_suffix.
Qed.

(* ===================================================================== *)
(** ** Properties of the streaming decoder *)
(* ===================================================================== *)

(** C6.  Line processing: a line counts only if it starts with the literal
    prefix [data: ].  Any other line, the blank line included, is ignored:
    no event, nothing logged.  For a data line the generator acts on what
    the remainder behind the six characters of the prefix parses to as
    JSON (the source cuts after five characters and parses the remainder
    with the space in front, which [JSON.parse] skips; only the text shown
    in the error log keeps that space). *)
Theorem only_data_lines_are_processed (line : jsstring) :
  process_line line =
  (if startsWith line (js "data: ") then
     match JSON.parse (substring line 6 None) with
     | Some (JArray (first :: _)) => [Yield first]
     | Some json => [ConsoleWarn json]
     | None => [ConsoleError (substring line 5 None)]
     end
   else []) /\
  process_line [] = [].
Proof.
  split; [|reflexivity].
  destruct (startsWith line (js "data: ")) eqn:S.
  - destruct (startsWith_inv _ _ S) as [r ->].
    rewrite process_data_line, data_line_jsonStr, data_line_payload.
    reflexivity.
  - unfold process_line. now rewrite S.
Qed.

(** C2, as the code has it.  For a data line whose remainder parses to an
    array with at least one element, exactly the first element is emitted
    as one event and nothing is logged, however many elements the array
    has.  A remainder that parses to the empty array or to a value that is
    not an array is logged as an anomaly (one console warning carrying the
    value) and no event is emitted for the line. *)
Theorem array_payload_emits_first_element (r : jsstring) (json : Json) :
  JSON.parse r = Some json ->
  process_line (js "data: " ++ r) =
  match json with
  | JArray (first :: _) => [Yield first]
  | _ => [ConsoleWarn json]
  end.
Proof.
  intro H. rewrite process_data_line, H. reflexivity.
Qed.

Lemma array_payload_witness :
  process_line (js "data: [true,false]") = [Yield (JBool true)] /\
  process_line (js "data: []") = [ConsoleWarn (JArray [])] /\
  process_line (js "data: {}") = [ConsoleWarn (JObject [])].
Proof.
  split; [|split].
  - apply (array_payload_emits_first_element (js "[true,false]")
             (JArray [JBool true; JBool false])).
    vm_compute. reflexivity.
  - apply (array_payload_emits_first_element (js "[]") (JArray [])).
    vm_compute. reflexivity.
  - apply (array_payload_emits_first_element (js "{}") (JObject [])).
    vm_compute. reflexivity.
Defined.

(** C2 as the specification words it fails: the remainder of this line
    parses to an array two elements wide, and yet its first element is
    emitted and nothing is logged. *)
Lemma wide_array_is_emitted_not_logged :
  JSON.parse (js "[true,false]") = Some (JArray [JBool true; JBool false]) /\
  List.length [JBool true; JBool false] <> 1%nat /\
  ~ (line_events (js "data: [true,false]") = [] /\
     logged (process_line (js "data: [true,false]")) <> []).
Proof.
  split; [vm_compute; reflexivity|]. split; [discriminate|].
  intros [H _]. vm_compute in H. discriminate H.
Qed.

Lemma flat_map_line_events lines :
  yielded (flat_map process_line lines) = flat_map line_events lines.
Proof.
  induction lines as [|l lines IH]; [reflexivity|].
  simpl. now rewrite yielded_app, IH.
Qed.

(** A successful streaming response that is delivered in full. *)
Lemma stream_closed platform this request response chunks :
  fetch platform (getEndpoint this true) (post_init request) = Resolved response ->
  ok response = true ->
  body response = Some (stream_of chunks) ->
  outputs (fst (generateContentStream platform this request)) =
    fst (frame (decoded_text (List.concat chunks))) /\
  snd (generateContentStream platform this request) = Return tt.
Proof.
  intros Hf Hok Hb.
  destruct (stream_chunks platform this request response Hf Hok chunks [ReadDone] Hb)
    as [E1 E2].
  split; [|exact E2]. rewrite E1. simpl. apply app_nil_r.
Qed.

Lemma stream_served this request chunks :
  generateContentStream (serving (Resolved (streamed chunks))) this request =
  (CallFetch (getEndpoint this true) (post_init request)
     :: fst (read_loop (stream_of chunks) initial_state),
   match snd (read_loop (stream_of chunks) initial_state) with
   | Return a => Return a
   | Throw e =>
       Throw (mkError (js "Failed to generate content stream from local LLM: "
                       ++ getErrorMessage e))
   end).
Proof.
  now apply (stream_reads (serving (Resolved (streamed chunks))) this request
               (streamed chunks)).
Qed.

(** C1.  A data line whose remainder fails to parse, or parses to the
    empty array or to a value that is not an array, emits no event, does
    not end the sequence, and lets every line behind it yield as before:
    the events of the call are those of the lines in front of it followed
    by those of the lines behind it, in arrival order, the call returns
    normally, and a well-formed line always yields its one event.  For a
    well-formed line, a line that is not JSON and another well-formed
    line, the call yields the two events in order, logs the bad line in
    between and returns. *)
Theorem malformed_data_line_is_skipped :
  (forall (platform : Platform) (this : LocalContentGenerator)
          (request : GenerateContentParameters) (response : Response)
          (chunks : list (list byte)) (before after : list jsstring)
          (r rest : jsstring),
     fetch platform (getEndpoint this true) (post_init request) = Resolved response ->
     ok response = true ->
     body response = Some (stream_of chunks) ->
     decoded_text (List.concat chunks) =
       flat_map (fun l => l ++ [NL]) (before ++ (js "data: " ++ r) :: after) ++ rest ->
     Forall (fun l => ~ In NL l) (before ++ (js "data: " ++ r) :: after) ->
     ~ In NL rest ->
     (JSON.parse r = None \/ JSON.parse r = Some (JArray []) \/
      exists v, JSON.parse r = Some v /\ isArray v = false) ->
     line_events (js "data: " ++ r) = [] /\
     snd (generateContentStream platform this request) = Return tt /\
     yielded (fst (generateContentStream platform this request)) =
       flat_map line_events before ++ flat_map line_events after /\
     (forall l e more,
        startsWith l (js "data: ") = true ->
        JSON.parse (substring l 6 None) = Some (JArray (e :: more)) ->
        line_events l = [e])) /\
  (forall (this : LocalContentGenerator) (request : GenerateContentParameters),
     generateContentStream
       (serving (Resolved (streamed
          [octets ("data: [{" ++ dq ++ "a" ++ dq ++ ":1}]" ++ nl ++
                   "data: {oops" ++ nl ++
                   "data: [{" ++ dq ++ "b" ++ dq ++ ":2}]" ++ nl)])))
       this request =
     ([CallFetch (getEndpoint this true) (post_init request);
       CallRead;
       Yield (JObject [(js "a", JNumber (mkNumber false 1 0))]);
       ConsoleError (js " {oops");
       Yield (JObject [(js "b", JNumber (mkNumber false 2 0))]);
       CallRead],
      Return tt)).
Proof.
  split.
  - intros platform this request response chunks before after r rest
      Hf Hok Hb Ht Hl Hr Hbad.
    assert (Hskip : line_events (js "data: " ++ r) = []).
    { unfold line_events. rewrite process_data_line.
      destruct Hbad as [-> | [-> | (v & -> & Hv)]]; try reflexivity.
      destruct v as [| | | |els|]; try reflexivity. discriminate Hv. }
    destruct (stream_closed platform this request response chunks Hf Hok Hb)
      as [E1 E2].
    split; [exact Hskip|]. split; [exact E2|]. split.
    + rewrite <- yielded_outputs, E1.
      rewrite Ht, (frame_of_lines _ rest Hl Hr). cbn [fst].
      rewrite flat_map_line_events, flat_map_app. cbn [flat_map].
      now rewrite Hskip.
    + intros l e more S P. destruct (startsWith_inv _ _ S) as [x ->].
      rewrite data_line_payload in P.
      unfold line_events. now rewrite process_data_line, P.
  - intros this request. rewrite stream_served.
    set (run := read_loop _ _). vm_compute in run. reflexivity.
Qed.

Lemma malformed_data_line_witness :
  snd (generateContentStream
         (serving (Resolved (streamed
            [octets ("data: [true]" ++ nl); octets ("data: tru" ++ nl);
             octets ("data: [false]" ++ nl ++ "data")])))
         example_generator example_request) = Return tt /\
  yielded (fst (generateContentStream
         (serving (Resolved (streamed
            [octets ("data: [true]" ++ nl); octets ("data: tru" ++ nl);
             octets ("data: [false]" ++ nl ++ "data")])))
         example_generator example_request)) =
  [JBool true; JBool false].
Proof.
  pose proof (proj1 malformed_data_line_is_skipped
    (serving (Resolved (streamed
       [octets ("data: [true]" ++ nl); octets ("data: tru" ++ nl);
        octets ("data: [false]" ++ nl ++ "data")])))
    example_generator example_request
    (streamed
       [octets ("data: [true]" ++ nl); octets ("data: tru" ++ nl);
        octets ("data: [false]" ++ nl ++ "data")])
    [octets ("data: [true]" ++ nl); octets ("data: tru" ++ nl);
     octets ("data: [false]" ++ nl ++ "data")]
    [js "data: [true]"] [js "data: [false]"] (js "tru") (js "data")) as W.
  destruct W as (_ & Done & Events & _).
  - reflexivity.
  - reflexivity.
  - reflexivity.
  - vm_compute. reflexivity.
  - repeat constructor; apply no_newline_check; vm_compute; reflexivity.
  - apply no_newline_check. vm_compute. reflexivity.
  - left. vm_compute. reflexivity.
  - split; [exact Done|]. rewrite Events. vm_compute. reflexivity.
Defined.

Lemma new_decoder_inv : decoder_inv (Utf8.utf8 Utf8.new_TextDecoder).
Proof. now left. Qed.

Lemma run_from_start chunks :
  run_chunks initial_state chunks =
  (fst (frame (decoded_text (List.concat chunks))),
   mkDecodeState (fst (Utf8.decode Utf8.new_TextDecoder (List.concat chunks)))
     (snd (frame (decoded_text (List.concat chunks))))).
Proof. rewrite run_chunks_spec by (intros []). reflexivity. Qed.

(** C3.  Between two chunk arrivals, whatever chunks have been received:
    the text decoded so far is the complete lines, each with its newline,
    followed by the buffer; every one of those lines has been processed, in
    order; no newline is left in the buffer; and the buffer is the decoded
    form of the bytes received behind the last newline byte (less the bytes
    of a character still incomplete, which the decoder holds).  The next
    read is awaited in exactly this state. *)
Theorem buffer_holds_unframed_suffix (chunks : list (list byte)) :
  (exists lines,
     decoded_text (List.concat chunks) =
       flat_map (fun l => l ++ [NL]) lines
       ++ buffer (snd (run_chunks initial_state chunks)) /\
     Forall (fun l => ~ In NL l) lines /\
     fst (run_chunks initial_state chunks) = flat_map process_line lines) /\
  indexOf (buffer (snd (run_chunks initial_state chunks))) [NL] = -1 /\
  (exists done tail,
     List.concat chunks = done ++ tail /\
     (done = [] \/ exists d, done = d ++ [LF]) /\
     ~ In LF tail /\
     buffer (snd (run_chunks initial_state chunks)) =
       snd (Utf8.decode (fst (Utf8.decode Utf8.new_TextDecoder done)) tail)) /\
  decoder (snd (run_chunks initial_state chunks)) =
    fst (Utf8.decode Utf8.new_TextDecoder (List.concat chunks)) /\
  (forall tail,
     snd (read_loop (map ReadValue chunks ++ tail) initial_state) =
       snd (read_loop tail (snd (run_chunks initial_state chunks))) /\
     outputs (fst (read_loop (map ReadValue chunks ++ tail) initial_state)) =
       fst (run_chunks initial_state chunks)
       ++ outputs (fst (read_loop tail (snd (run_chunks initial_state chunks))))).
Proof.
  rewrite run_from_start. cbn [fst snd buffer decoder].
  split; [|split; [|split; [|split]]].
  - destruct (frame_lines (decoded_text (List.concat chunks)))
      as (lines & E & F & A).
    exists lines. auto.
  - apply indexOf_none, frame_rest_no_newline.
  - destruct (last_newline_octet (List.concat chunks))
      as [Hn | (done & tail & E & Ht)].
    + exists [], (List.concat chunks). repeat split; auto.
      cbn [Utf8.decode fst].
      rewrite frame_no_newline; [reflexivity|].
      apply decode_no_newline; [apply new_decoder_inv | exact Hn].
    + exists (done ++ [LF]), tail. repeat split; eauto.
      unfold decoded_text. rewrite E, decode_app. cbn [snd].
      set (d1 := fst (Utf8.decode Utf8.new_TextDecoder (done ++ [LF]))).
      assert (I1 : decoder_inv (Utf8.utf8 d1))
        by (apply decode_inv, new_decoder_inv).
      assert (T2 : ~ In NL (snd (Utf8.decode d1 tail)))
        by (apply decode_no_newline; assumption).
      rewrite (decode_app done). cbn [snd].
      destruct (decode_LF (fst (Utf8.decode Utf8.new_TextDecoder done)))
        as [t Et]; [apply decode_inv, new_decoder_inv|].
      rewrite Et. cbn [snd]. rewrite app_assoc, frame_app. cbn [snd].
      rewrite frame_complete. simpl app.
      now rewrite frame_no_newline.
  - reflexivity.
  - intro tail.
    destruct (read_loop_chunks chunks initial_state tail) as [E1 E2].
    rewrite run_from_start in E1, E2. auto.
Qed.

(** C4.  The events of a streaming call depend on the bytes received, not
    on how the transport cut them into chunks: two deliveries of the same
    bytes give the same events (and the same console entries), which are
    those of the framing loop on the whole decoded text.  For the record
    [data: [{"a":1}]] cut after [{"a"]: the first chunk alone yields
    nothing, the two chunks yield the one event [{"a":1}]. *)
Theorem events_do_not_depend_on_chunk_boundaries :
  (forall (p1 p2 : Platform) (this : LocalContentGenerator)
          (request : GenerateContentParameters) (r1 r2 : Response)
          (chunks1 chunks2 : list (list byte)),
     fetch p1 (getEndpoint this true) (post_init request) = Resolved r1 ->
     fetch p2 (getEndpoint this true) (post_init request) = Resolved r2 ->
     ok r1 = true -> ok r2 = true ->
     body r1 = Some (stream_of chunks1) ->
     body r2 = Some (stream_of chunks2) ->
     List.concat chunks1 = List.concat chunks2 ->
     yielded (fst (generateContentStream p1 this request)) =
       yielded (fst (generateContentStream p2 this request)) /\
     outputs (fst (generateContentStream p1 this request)) =
       outputs (fst (generateContentStream p2 this request)) /\
     outputs (fst (generateContentStream p1 this request)) =
       fst (frame (decoded_text (List.concat chunks1))) /\
     snd (generateContentStream p1 this request) = Return tt /\
     snd (generateContentStream p2 this request) = Return tt) /\
  (forall (this : LocalContentGenerator) (request : GenerateContentParameters),
     generateContentStream
       (serving (Resolved (streamed
          [octets ("data: [{" ++ dq ++ "a"); octets (dq ++ ":1}]" ++ nl)])))
       this request =
     ([CallFetch (getEndpoint this true) (post_init request);
       CallRead; CallRead;
       Yield (JObject [(js "a", JNumber (mkNumber false 1 0))]);
       CallRead],
      Return tt)) /\
  (forall (this : LocalContentGenerator) (request : GenerateContentParameters),
     generateContentStream
       (serving (Resolved (streamed [octets ("data: [{" ++ dq ++ "a")])))
       this request =
     ([CallFetch (getEndpoint this true) (post_init request);
       CallRead; CallRead],
      Return tt)) /\
  fst (run_chunks initial_state [octets ("data: [{" ++ dq ++ "a")]) = [].
Proof.
  split; [|split; [|split]].
  - intros p1 p2 this request r1 r2 chunks1 chunks2 F1 F2 O1 O2 B1 B2 E.
    destruct (stream_closed p1 this request r1 chunks1 F1 O1 B1) as [A1 D1].
    destruct (stream_closed p2 this request r2 chunks2 F2 O2 B2) as [A2 D2].
    assert (X : outputs (fst (generateContentStream p1 this request)) =
                outputs (fst (generateContentStream p2 this request)))
      by (rewrite A1, A2, E; reflexivity).
    repeat split; auto.
    rewrite <- (yielded_outputs (fst (generateContentStream p1 this request))),
            <- (yielded_outputs (fst (generateContentStream p2 this request))).
    now rewrite X.
  - intros this request. rewrite stream_served.
    set (run := read_loop _ _). vm_compute in run. reflexivity.
  - intros this request. rewrite stream_served.
    set (run := read_loop _ _). vm_compute in run. reflexivity.
  - vm_compute. reflexivity.
Qed.

Lemma chunk_boundaries_witness :
  yielded (fst (generateContentStream
     (serving (Resolved (streamed
        [octets ("data: [{" ++ dq ++ "a"); octets (dq ++ ":1}]" ++ nl)])))
     example_generator example_request)) =
  yielded (fst (generateContentStream
     (serving (Resolved (streamed
        [octets ("data: [{" ++ dq ++ "a" ++ dq ++ ":1}]" ++ nl)])))
     example_generator example_request)).
Proof.
  apply (proj1 events_do_not_depend_on_chunk_boundaries
    (serving (Resolved (streamed
        [octets ("data: [{" ++ dq ++ "a"); octets (dq ++ ":1}]" ++ nl)])))
    (serving (Resolved (streamed
        [octets ("data: [{" ++ dq ++ "a" ++ dq ++ ":1}]" ++ nl)])))
    example_generator example_request
    (streamed [octets ("data: [{" ++ dq ++ "a"); octets (dq ++ ":1}]" ++ nl)])
    (streamed [octets ("data: [{" ++ dq ++ "a" ++ dq ++ ":1}]" ++ nl)])
    [octets ("data: [{" ++ dq ++ "a"); octets (dq ++ ":1}]" ++ nl)]
    [octets ("data: [{" ++ dq ++ "a" ++ dq ++ ":1}]" ++ nl)]);
    reflexivity.
Defined.

(** C5.  When the transport reports the end of the stream the call is
    done at once, whatever the buffer holds; so bytes behind the last
    newline produce nothing: the console and the consumer see what the
    bytes in front of a newline-free tail give, and the call returns. *)
Theorem trailing_partial_record_is_discarded
  (platform : Platform) (this : LocalContentGenerator)
  (request : GenerateContentParameters) (response : Response)
  (chunks : list (list byte)) (done tail : list byte) :
  fetch platform (getEndpoint this true) (post_init request) = Resolved response ->
  ok response = true ->
  body response = Some (stream_of chunks) ->
  List.concat chunks = done ++ tail ->
  ~ In LF tail ->
  snd (generateContentStream platform this request) = Return tt /\
  outputs (fst (generateContentStream platform this request)) =
    fst (frame (decoded_text done)) /\
  yielded (fst (generateContentStream platform this request)) =
    yielded (fst (frame (decoded_text done))) /\
  (forall st rest, read_loop (ReadDone :: rest) st = ([CallRead], Return tt)) /\
  (forall st, read_loop [] st = ([CallRead], Return tt)).
Proof.
  intros Hf Hok Hb E Ht.
  destruct (stream_closed platform this request response chunks Hf Hok Hb)
    as [A D].
  assert (X : outputs (fst (generateContentStream platform this request)) =
              fst (frame (decoded_text done))).
  { rewrite A, E. unfold decoded_text. rewrite decode_app. cbn [snd].
    rewrite frame_app. cbn [fst].
    rewrite (frame_no_newline (_ ++ _)); [apply app_nil_r|].
    intro H. apply in_app_or in H. destruct H as [H|H].
    - now apply (frame_rest_no_newline
                   (snd (Utf8.decode Utf8.new_TextDecoder done))).
    - revert H. apply decode_no_newline; [|exact Ht].
      apply decode_inv, new_decoder_inv. }
  repeat split; auto.
  now rewrite <- yielded_outputs, X.
Qed.

Lemma trailing_partial_record_witness :
  yielded (fst (generateContentStream
     (serving (Resolved (streamed
        [octets ("data: [true]" ++ nl); octets "data: [false]"])))
     example_generator example_request)) = [JBool true].
Proof.
  pose proof (trailing_partial_record_is_discarded
    (serving (Resolved (streamed
        [octets ("data: [true]" ++ nl); octets "data: [false]"])))
    example_generator example_request
    (streamed [octets ("data: [true]" ++ nl); octets "data: [false]"])
    [octets ("data: [true]" ++ nl); octets "data: [false]"]
    (octets ("data: [true]" ++ nl)) (octets "data: [false]")) as W.
  destruct W as (_ & _ & Events & _).
  - reflexivity.
  - reflexivity.
  - reflexivity.
  - reflexivity.
  - vm_compute. intuition discriminate.
  - rewrite Events. vm_compute. reflexivity.
Defined.

Lemma read_loop_fails chunks cause rest : forall st,
  exists t,
    fst (read_loop (map ReadValue chunks ++ ReadRejected cause :: rest) st) =
    t ++ [CallRead].
Proof.
  induction chunks as [|value more IH]; intro st.
  - now exists [].
  - change (map ReadValue (value :: more) ++ ReadRejected cause :: rest)
      with (ReadValue value :: (map ReadValue more ++ ReadRejected cause :: rest)).
    rewrite read_loop_value. cbn [fst].
    destruct (IH (snd (on_chunk st value))) as [t ->].
    exists (CallRead :: fst (on_chunk st value) ++ t).
    simpl. now rewrite app_assoc.
Qed.

(** C7.  A streaming call that meets a transport-level failure ends by
    throwing one error whose message is the name of the streaming
    operation followed by the message of the cause: when the fetch is
    rejected, when the status is not a success, when the response has no
    body, and when a read fails after any number of chunks.  In the last
    case everything decoded from the chunks received before the failure
    has been handed out, the failed read is the last action of the call,
    and nothing the transport would have delivered afterwards is seen. *)
Theorem transport_failure_raises_one_wrapped_error :
  (forall platform this request cause,
     fetch platform (getEndpoint this true) (post_init request) = Rejected cause ->
     generateContentStream platform this request =
     ([CallFetch (getEndpoint this true) (post_init request)],
      Throw (mkError (js "Failed to generate content stream from local LLM: "
                      ++ message cause)))) /\
  (forall platform this request response,
     fetch platform (getEndpoint this true) (post_init request) = Resolved response ->
     ok response = false ->
     generateContentStream platform this request =
     ([CallFetch (getEndpoint this true) (post_init request)],
      Throw (mkError (js "Failed to generate content stream from local LLM: "
                      ++ js "HTTP error! status: "
                      ++ string_of_Z (status response) ++ js " "
                      ++ statusText response)))) /\
  (forall platform this request response,
     fetch platform (getEndpoint this true) (post_init request) = Resolved response ->
     ok response = true ->
     body response = None ->
     generateContentStream platform this request =
     ([CallFetch (getEndpoint this true) (post_init request)],
      Throw (mkError (js "Failed to generate content stream from local LLM: "
                      ++ js "Response body is null")))) /\
  (forall platform this request response chunks cause rest,
     fetch platform (getEndpoint this true) (post_init request) = Resolved response ->
     ok response = true ->
     body response = Some (map ReadValue chunks ++ ReadRejected cause :: rest) ->
     snd (generateContentStream platform this request) =
       Throw (mkError (js "Failed to generate content stream from local LLM: "
                       ++ message cause)) /\
     outputs (fst (generateContentStream platform this request)) =
       fst (frame (decoded_text (List.concat chunks))) /\
     exists t, fst (generateContentStream platform this request) = t ++ [CallRead]).
Proof.
  split; [|split; [|split]].
  - intros platform this request cause Hf.
    unfold generateContentStream. rewrite try_catch_throw.
    unfold bind, await. now rewrite Hf.
  - intros platform this request response Hf Hok.
    unfold generateContentStream. rewrite try_catch_throw.
    unfold bind, await. rewrite Hf, Hok. reflexivity.
  - intros platform this request response Hf Hok Hb.
    unfold generateContentStream. rewrite try_catch_throw.
    unfold bind, await. rewrite Hf, Hok, Hb. reflexivity.
  - intros platform this request response chunks cause rest Hf Hok Hb.
    destruct (stream_chunks platform this request response Hf Hok chunks
                (ReadRejected cause :: rest) Hb) as [E1 E2].
    split; [exact E2|]. split.
    + rewrite E1. simpl. apply app_nil_r.
    + rewrite (stream_reads platform this request response Hf Hok _ Hb).
      cbn [fst].
      destruct (read_loop_fails chunks cause rest initial_state) as [t ->].
      now exists (CallFetch (getEndpoint this true) (post_init request) :: t).
Qed.

Lemma transport_failure_witness :
  snd (generateContentStream
         (serving (Resolved (mkResponse true 200 (js "OK")
            (Some (map ReadValue [octets ("data: [true]" ++ nl)] ++
                   ReadRejected (mkError (js "connection reset")) ::
                   [ReadValue (octets ("data: [false]" ++ nl)); ReadDone])))))
         example_generator example_request) =
    Throw (mkError (js "Failed to generate content stream from local LLM: connection reset")) /\
  yielded (fst (generateContentStream
         (serving (Resolved (mkResponse true 200 (js "OK")
            (Some (map ReadValue [octets ("data: [true]" ++ nl)] ++
                   ReadRejected (mkError (js "connection reset")) ::
                   [ReadValue (octets ("data: [false]" ++ nl)); ReadDone])))))
         example_generator example_request)) = [JBool true] /\
  generateContentStream
    (serving (Rejected (mkError (js "Stream failed"))))
    example_generator example_request =
  ([CallFetch (getEndpoint example_generator true) (post_init example_request)],
   Throw (mkError (js "Failed to generate content stream from local LLM: Stream failed"))).
Proof.
  destruct transport_failure_raises_one_wrapped_error as (W1 & _ & _ & W4).
  split; [|split].
  - destruct (W4
      (serving (Resolved (mkResponse true 200 (js "OK")
            (Some (map ReadValue [octets ("data: [true]" ++ nl)] ++
                   ReadRejected (mkError (js "connection reset")) ::
                   [ReadValue (octets ("data: [false]" ++ nl)); ReadDone])))))
      example_generator example_request
      (mkResponse true 200 (js "OK")
            (Some (map ReadValue [octets ("data: [true]" ++ nl)] ++
                   ReadRejected (mkError (js "connection reset")) ::
                   [ReadValue (octets ("data: [false]" ++ nl)); ReadDone])))
      [octets ("data: [true]" ++ nl)] (mkError (js "connection reset"))
      [ReadValue (octets ("data: [false]" ++ nl)); ReadDone]
      eq_refl eq_refl eq_refl) as (E & _ & _).
    rewrite E. reflexivity.
  - destruct (W4
      (serving (Resolved (mkResponse true 200 (js "OK")
            (Some (map ReadValue [octets ("data: [true]" ++ nl)] ++
                   ReadRejected (mkError (js "connection reset")) ::
                   [ReadValue (octets ("data: [false]" ++ nl)); ReadDone])))))
      example_generator example_request
      (mkResponse true 200 (js "OK")
            (Some (map ReadValue [octets ("data: [true]" ++ nl)] ++
                   ReadRejected (mkError (js "connection reset")) ::
                   [ReadValue (octets ("data: [false]" ++ nl)); ReadDone])))
      [octets ("data: [true]" ++ nl)] (mkError (js "connection reset"))
      [ReadValue (octets ("data: [false]" ++ nl)); ReadDone]
      eq_refl eq_refl eq_refl) as (_ & O & _).
    rewrite <- yielded_outputs, O. vm_compute. reflexivity.
  - rewrite (W1 (serving (Rejected (mkError (js "Stream failed"))))
               example_generator example_request
               (mkError (js "Stream failed")) eq_refl).
    reflexivity.
Defined.

(* ===================================================================== *)
(** ** Properties of the single-shot requester and of the payload *)
(* ===================================================================== *)

(** C8.  A single-shot call whose response has a status that is not a
    success fails with one error: the name of the operation, then the
    inner message, which carries the status code and the status text.  The
    only action of the call is the network call: the body is never asked
    to be parsed. *)
Theorem non_success_status_fails_before_parsing
  (platform : Platform) (this : LocalContentGenerator)
  (request : GenerateContentParameters) (response : Response) :
  fetchWithTimeout platform (getEndpoint this false) (post_init request)
    (timeoutMs this) = Resolved response ->
  ok response = false ->
  generateContent platform this request =
  ([CallFetchWithTimeout (getEndpoint this false) (post_init request)
      (timeoutMs this)],
   Throw (mkError (js "Failed to generate content from local LLM: "
                   ++ js "HTTP error! status: "
                   ++ string_of_Z (status response) ++ js " "
                   ++ statusText response))) /\
  json_calls (fst (generateContent platform this request)) = 0%nat.
Proof.
  intros Hf Hok.
  assert (E : generateContent platform this request =
    ([CallFetchWithTimeout (getEndpoint this false) (post_init request)
        (timeoutMs this)],
     Throw (mkError (js "Failed to generate content from local LLM: "
                     ++ js "HTTP error! status: "
                     ++ string_of_Z (status response) ++ js " "
                     ++ statusText response)))).
  { unfold generateContent. rewrite try_catch_throw.
    unfold bind, await. rewrite Hf, Hok. reflexivity. }
  split; [exact E|]. rewrite E. reflexivity.
Qed.

Lemma non_success_status_witness :
  snd (generateContent
         (serving (Resolved (mkResponse false 500 (js "Internal Server Error") None)))
         example_generator example_request) =
  Throw (mkError (js "Failed to generate content from local LLM: HTTP error! status: 500 Internal Server Error")).
Proof.
  rewrite (proj1 (non_success_status_fails_before_parsing
    (serving (Resolved (mkResponse false 500 (js "Internal Server Error") None)))
    example_generator example_request
    (mkResponse false 500 (js "Internal Server Error") None)
    eq_refl eq_refl)).
  reflexivity.
Defined.

(** C10.  A single-shot call whose response has a success status and
    whose body has arrived returns whatever the body parses to as JSON;
    the value is not compared with the shape of a generation event.  The
    call fails exactly when the body is not JSON, with the parser's error
    wrapped.  The bodies [null], [42] and [{}] are each returned. *)
Theorem success_body_is_returned_unvalidated :
  (forall (platform : Platform) (this : LocalContentGenerator)
          (request : GenerateContentParameters) (response : Response)
          (bytes : list byte),
     fetchWithTimeout platform (getEndpoint this false) (post_init request)
       (timeoutMs this) = Resolved response ->
     ok response = true ->
     consume_body response = Resolved bytes ->
     generateContent platform this request =
     ([CallFetchWithTimeout (getEndpoint this false) (post_init request)
         (timeoutMs this); CallJson],
      match JSON.parse (Utf8.decode_all bytes) with
      | Some v => Return v
      | None =>
          Throw (mkError (js "Failed to generate content from local LLM: "
                          ++ message (syntaxError platform (Utf8.decode_all bytes))))
      end)) /\
  (forall this request,
     snd (generateContent (serving (Resolved (streamed [octets "null"])))
            this request) = Return JNull) /\
  (forall this request,
     snd (generateContent (serving (Resolved (streamed [octets "42"])))
            this request) = Return (JNumber (mkNumber false 42 0))) /\
  (forall this request,
     snd (generateContent (serving (Resolved (streamed [octets "{}"])))
            this request) = Return (JObject [])).
Proof.
  assert (G : forall platform this request response bytes,
     fetchWithTimeout platform (getEndpoint this false) (post_init request)
       (timeoutMs this) = Resolved response ->
     ok response = true ->
     consume_body response = Resolved bytes ->
     generateContent platform this request =
     ([CallFetchWithTimeout (getEndpoint this false) (post_init request)
         (timeoutMs this); CallJson],
      match JSON.parse (Utf8.decode_all bytes) with
      | Some v => Return v
      | None =>
          Throw (mkError (js "Failed to generate content from local LLM: "
                          ++ message (syntaxError platform (Utf8.decode_all bytes))))
      end)).
  { intros platform this request response bytes Hf Hok Hb.
    unfold generateContent. rewrite try_catch_throw.
    unfold Response_json, bind, await. rewrite Hf, Hok, Hb.
    simpl negb. cbv iota.
    destruct (JSON.parse (Utf8.decode_all bytes)); reflexivity. }
  split; [exact G|]. split; [|split]; intros this request.
  - rewrite (G (serving (Resolved (streamed [octets "null"]))) this request
               (streamed [octets "null"]) (octets "null")
               eq_refl eq_refl eq_refl). reflexivity.
  - rewrite (G (serving (Resolved (streamed [octets "42"]))) this request
               (streamed [octets "42"]) (octets "42")
               eq_refl eq_refl eq_refl). reflexivity.
  - rewrite (G (serving (Resolved (streamed [octets "{}"]))) this request
               (streamed [octets "{}"]) (octets "{}")
               eq_refl eq_refl eq_refl). reflexivity.
Qed.

Lemma success_body_witness :
  snd (generateContent
         (serving (Resolved (streamed [octets "[1,"; octets "2]"])))
         example_generator example_request) =
  Return (JArray [JNumber (mkNumber false 1 0); JNumber (mkNumber false 2 0)]) /\
  snd (generateContent
         (serving (Resolved (streamed [octets "{oops"])))
         example_generator example_request) =
  Throw (mkError (js "Failed to generate content from local LLM: Unexpected token in JSON")).
Proof.
  split.
  - rewrite (proj1 success_body_is_returned_unvalidated
      (serving (Resolved (streamed [octets "[1,"; octets "2]"])))
      example_generator example_request
      (streamed [octets "[1,"; octets "2]"]) (octets "[1,2]")
      eq_refl eq_refl eq_refl).
    reflexivity.
  - rewrite (proj1 success_body_is_returned_unvalidated
      (serving (Resolved (streamed [octets "{oops"])))
      example_generator example_request
      (streamed [octets "{oops"]) (octets "{oops")
      eq_refl eq_refl eq_refl).
    reflexivity.
Defined.

Lemma serialize_optional_field {A} request (field : GenerateContentConfig -> option A) inj :
  SerializeJSONProperty (optional_field request field inj) =
  option_map inj (config_field request field).
Proof.
  unfold optional_field, config_field.
  destruct (config request) as [c|]; [|reflexivity].
  now destruct (field c).
Qed.

Lemma lookup_present {A} key k (field : option A) inj rest :
  lookup key (present k field inj ++ rest) =
  if jsstring_eqb key k
  then match field with
       | Some x => Some (inj x)
       | None => lookup key rest
       end
  else lookup key rest.
Proof.
  destruct field as [x|]; simpl; [reflexivity|].
  now destruct (jsstring_eqb key k).
Qed.

Lemma present_option_map {A} k (field : option A) inj :
  match option_map inj field with
  | Some j => [(k, j)]
  | None => []
  end = present k field inj.
Proof. now destruct field. Qed.

(** The object that [JSON.stringify] turns the payload into. *)
Lemma payload_serialized request :
  SerializeJSONProperty (payload request) =
  Some (JObject
    ((js "contents", contents request) ::
     present (js "safetySettings") (config_field request safetySettings) JArray ++
     [(js "generationConfig",
       JObject
         (present (js "temperature") (config_field request temperature) JNumber ++
          present (js "topP") (config_field request topP) JNumber ++
          present (js "topK") (config_field request topK) JNumber ++
          present (js "candidateCount") (config_field request candidateCount) JNumber ++
          present (js "maxOutputTokens") (config_field request maxOutputTokens) JNumber ++
          present (js "stopSequences") (config_field request stopSequences)
            (fun l => JArray (map JString l)) ++ []))])).
Proof.
  unfold payload. cbn [SerializeJSONProperty].
  rewrite !serialize_optional_field, !present_option_map. reflexivity.
Qed.

(** C9.  The request body, the same in both operations, is the JSON text
    of an object in which a field the caller left unset does not occur:
    [safetySettings] at the top, the six sampling fields inside
    [generationConfig]; a field that is set occurs with the caller's
    value.  With nothing set the body is
    [{"contents":[],"generationConfig":{}}]. *)
Theorem unset_fields_are_absent_from_body (request : GenerateContentParameters) :
  (exists top gc,
     SerializeJSONProperty (payload request) = Some (JObject top) /\
     init_body (post_init request) = Some (JSON.stringify (JObject top)) /\
     lookup (js "contents") top = Some (contents request) /\
     lookup (js "generationConfig") top = Some (JObject gc) /\
     lookup (js "safetySettings") top =
       option_map JArray (config_field request safetySettings) /\
     lookup (js "temperature") gc =
       option_map JNumber (config_field request temperature) /\
     lookup (js "topP") gc = option_map JNumber (config_field request topP) /\
     lookup (js "topK") gc = option_map JNumber (config_field request topK) /\
     lookup (js "candidateCount") gc =
       option_map JNumber (config_field request candidateCount) /\
     lookup (js "maxOutputTokens") gc =
       option_map JNumber (config_field request maxOutputTokens) /\
     lookup (js "stopSequences") gc =
       option_map (fun l => JArray (map JString l))
         (config_field request stopSequences)) /\
  (forall platform this,
     exists t,
       fst (generateContent platform this request) =
       CallFetchWithTimeout (getEndpoint this false) (post_init request)
         (timeoutMs this) :: t) /\
  (forall platform this,
     exists t,
       fst (generateContentStream platform this request) =
       CallFetch (getEndpoint this true) (post_init request) :: t) /\
  init_body (post_init example_request) =
    Some (js ("{" ++ dq ++ "contents" ++ dq ++ ":[]," ++
              dq ++ "generationConfig" ++ dq ++ ":{}}")).
Proof.
  split; [|split; [|split]].
  - do 2 eexists. split; [apply payload_serialized|].
    split; [unfold post_init, JSON_stringify; cbn [init_body];
            now rewrite payload_serialized|].
    split; [reflexivity|].
    split; [change (lookup ?k ((js "contents", ?c) :: ?r)) with (lookup k r);
            rewrite lookup_present; now destruct (config_field request safetySettings)|].
    split; [change (lookup ?k ((js "contents", ?c) :: ?r)) with (lookup k r);
            rewrite lookup_present; now destruct (config_field request safetySettings)|].
    repeat split; rewrite !lookup_present;
      repeat match goal with
             | |- context [jsstring_eqb (js ?a) (js ?b)] =>
                 let v := eval vm_compute in (jsstring_eqb (js a) (js b)) in
                 change (jsstring_eqb (js a) (js b)) with v
             end; cbv iota;
      match goal with
      | |- match ?o with _ => _ end = _ => now destruct o
      end.
  - intros platform this. unfold generateContent. rewrite try_catch_throw.
    cbn [fst]. unfold bind at 1. unfold await at 1.
    destruct (fetchWithTimeout _ _ _ _) as [r|e]; [|now eexists].
    destruct (if negb (ok r) then _ else _) as [t c]. now eexists.
  - intros platform this. unfold generateContentStream. rewrite try_catch_throw.
    cbn [fst]. unfold bind at 1. unfold await at 1.
    destruct (fetch _ _ _) as [r|e]; [|now eexists].
    destruct (if negb (ok r) then _ else _) as [t c]. now eexists.
  - vm_compute. reflexivity.
Qed.

(** The two operations the local server does not offer fail at once, with
    no action performed before the error. *)
Lemma unsupported_operations_fail :
  countTokens =
    ([], Throw (mkError (js "countTokens is not supported by the local LLM server."))) /\
  embedContent =
    ([], Throw (mkError (js "embedContent is not supported by the local LLM server."))).
Proof. split; reflexivity. Qed.

(* ===================================================================== *)
(** ** Further properties: how the two calls end *)
(* ===================================================================== *)

Lemma reader_split reader :
  exists tail,
    reader = map ReadValue (leading_values reader) ++ tail /\
    leading_values tail = [] /\
    first_failure tail = first_failure reader.
Proof.
  induction reader as [|x r (tail & E & L & F)].
  - now exists [].
  - destruct x as [value| |e].
    + exists tail. simpl. now rewrite <- E.
    + now exists (ReadDone :: r).
    + now exists (ReadRejected e :: r).
Qed.

Lemma read_loop_end tail st :
  leading_values tail = [] ->
  read_loop tail st =
  ([CallRead], match first_failure tail with
               | None => Return tt
               | Some e => Throw e
               end).
Proof.
  destruct tail as [|[value| |e] r]; intro H; try reflexivity.
  discriminate H.
Qed.

Lemma reads_app a b : reads (a ++ b) = (reads a + reads b)%nat.
Proof. unfold reads. now rewrite filter_app, length_app. Qed.

Lemma reads_of_outputs t : outputs t = t -> reads t = 0%nat.
Proof.
  induction t as [|x t IH]; [reflexivity|].
  unfold outputs. simpl. destruct (is_output x) eqn:O.
  - intro E. injection E as E. destruct x; try discriminate O; now apply IH.
  - intro E. exfalso.
    assert (L : (List.length (filter is_output t) <= List.length t)%nat)
      by apply filter_length_le.
    rewrite E in L. simpl in L. lia.
Qed.

Lemma reads_run_chunks chunks st : reads (fst (run_chunks st chunks)) = 0%nat.
Proof. apply reads_of_outputs, run_chunks_outputs. Qed.

Lemma read_loop_reads chunks : forall st tail,
  reads (fst (read_loop (map ReadValue chunks ++ tail) st)) =
  (List.length chunks
   + reads (fst (read_loop tail (snd (run_chunks st chunks)))))%nat.
Proof.
  induction chunks as [|value rest IH]; intros st tail; [reflexivity|].
  change (map ReadValue (value :: rest) ++ tail)
    with (ReadValue value :: (map ReadValue rest ++ tail)).
  rewrite read_loop_value, run_chunks_cons. cbn [fst snd].
  change (reads (CallRead :: ?x)) with (S (reads x)).
  rewrite reads_app, IH.
  rewrite (reads_of_outputs (fst (on_chunk st value))).
  - simpl. lia.
  - rewrite on_chunk_eq. apply frame_outputs.
Qed.

(** X1.  The streaming call on any body: the reader is asked once per
    chunk it hands out and once more, for the read that reports done or
    fails; the consumer and the console see what the framing loop makes of
    the text decoded from those chunks, whatever the bytes are; and the
    call returns unless a read failed, in which case it throws that
    failure, wrapped.  Nothing the reader would do after its first done or
    failure is looked at. *)
Theorem streaming_call_follows_the_reader
  (platform : Platform) (this : LocalContentGenerator)
  (request : GenerateContentParameters) (response : Response)
  (reader : ReadableStream) :
  fetch platform (getEndpoint this true) (post_init request) = Resolved response ->
  ok response = true ->
  body response = Some reader ->
  outputs (fst (generateContentStream platform this request)) =
    fst (frame (decoded_text (List.concat (leading_values reader)))) /\
  reads (fst (generateContentStream platform this request)) =
    S (List.length (leading_values reader)) /\
  snd (generateContentStream platform this request) =
    match first_failure reader with
    | None => Return tt
    | Some cause =>
        Throw (mkError (js "Failed to generate content stream from local LLM: "
                        ++ message cause))
    end.
Proof.
  intros Hf Hok Hb.
  destruct (reader_split reader) as (tail & E & L & F).
  rewrite E in Hb.
  destruct (stream_chunks platform this request response Hf Hok
              (leading_values reader) tail Hb) as [E1 E2].
  rewrite (read_loop_end tail _ L) in E1, E2. cbn [fst snd] in E1, E2.
  split; [|split].
  - rewrite E1. simpl. apply app_nil_r.
  - rewrite (stream_reads platform this request response Hf Hok _ Hb).
    cbn [fst]. change (reads (CallFetch ?u ?i :: ?x)) with (reads x).
    rewrite read_loop_reads, (read_loop_end tail _ L). cbn [fst]. unfold reads. simpl. lia.
  - rewrite E2, F. now destruct (first_failure reader).
Qed.

Lemma streaming_call_witness :
  outputs (fst (generateContentStream
     (serving (Resolved (mkResponse true 200 (js "OK")
        (Some [ReadValue (octets ("data: [true]" ++ nl)); ReadDone;
               ReadValue (octets ("data: [false]" ++ nl))]))))
     example_generator example_request)) = [Yield (JBool true)] /\
  reads (fst (generateContentStream
     (serving (Resolved (mkResponse true 200 (js "OK")
        (Some [ReadValue (octets ("data: [true]" ++ nl)); ReadDone;
               ReadValue (octets ("data: [false]" ++ nl))]))))
     example_generator example_request)) = 2%nat.
Proof.
  destruct (streaming_call_follows_the_reader
    (serving (Resolved (mkResponse true 200 (js "OK")
        (Some [ReadValue (octets ("data: [true]" ++ nl)); ReadDone;
               ReadValue (octets ("data: [false]" ++ nl))]))))
    example_generator example_request
    (mkResponse true 200 (js "OK")
        (Some [ReadValue (octets ("data: [true]" ++ nl)); ReadDone;
               ReadValue (octets ("data: [false]" ++ nl))]))
    [ReadValue (octets ("data: [true]" ++ nl)); ReadDone;
     ReadValue (octets ("data: [false]" ++ nl))]
    eq_refl eq_refl eq_refl) as (O & R & _).
  split.
  - rewrite O. vm_compute. reflexivity.
  - rewrite R. reflexivity.
Defined.

(** X2.  A single-shot call whose network call is rejected fails with the
    name of the operation followed by the text of the rejection; the
    network call is the only thing it did. *)
Theorem rejected_call_is_wrapped
  (platform : Platform) (this : LocalContentGenerator)
  (request : GenerateContentParameters) (cause : JsError) :
  fetchWithTimeout platform (getEndpoint this false) (post_init request)
    (timeoutMs this) = Rejected cause ->
  generateContent platform this request =
  ([CallFetchWithTimeout (getEndpoint this false) (post_init request)
      (timeoutMs this)],
   Throw (mkError (js "Failed to generate content from local LLM: "
                   ++ message cause))).
Proof.
  intro Hf. unfold generateContent. rewrite try_catch_throw.
  unfold bind, await. now rewrite Hf.
Qed.

Lemma rejected_call_witness :
  snd (generateContent (serving (Rejected (mkError (js "Network error"))))
         example_generator example_request) =
  Throw (mkError (js "Failed to generate content from local LLM: Network error")).
Proof.
  rewrite (rejected_call_is_wrapped
             (serving (Rejected (mkError (js "Network error"))))
             example_generator example_request
             (mkError (js "Network error")) eq_refl).
  reflexivity.
Defined.

(** X3.  A single-shot call returns a value in one case only: the network
    call resolved, the status is a success, the body arrived and its text
    is JSON; the value is then what the text parses to.  In particular no
    value is ever returned for a response whose status is not a success. *)
Theorem single_shot_returns_exactly_parsed_bodies
  (platform : Platform) (this : LocalContentGenerator)
  (request : GenerateContentParameters) (v : Json) :
  snd (generateContent platform this request) = Return v <->
  exists response bytes,
    fetchWithTimeout platform (getEndpoint this false) (post_init request)
      (timeoutMs this) = Resolved response /\
    ok response = true /\
    consume_body response = Resolved bytes /\
    JSON.parse (Utf8.decode_all bytes) = Some v.
Proof.
  unfold generateContent. rewrite try_catch_throw. cbn [snd].
  unfold Response_json, bind, await.
  destruct (fetchWithTimeout platform _ _ _) as [response|cause].
  - destruct (ok response) eqn:Hok; simpl negb; cbv iota.
    + destruct (consume_body response) as [bytes|cause] eqn:Hb.
      * destruct (JSON.parse (Utf8.decode_all bytes)) as [w|] eqn:P; simpl.
        -- split.
           ++ intro H. injection H as ->. now exists response, bytes.
           ++ intros (r & b & Hr & _ & Hc & Hp).
              injection Hr as <-. rewrite Hb in Hc. injection Hc as <-.
              rewrite P in Hp. now injection Hp as ->.
        -- split; [discriminate|].
           intros (r & b & Hr & _ & Hc & Hp).
           injection Hr as <-. rewrite Hb in Hc. injection Hc as <-.
           rewrite P in Hp. discriminate Hp.
      * simpl. split; [discriminate|].
        intros (r & b & Hr & _ & Hc & _).
        injection Hr as <-. rewrite Hb in Hc. discriminate Hc.
    + simpl. split; [discriminate|].
      intros (r & b & Hr & Ho & _). injection Hr as <-.
      rewrite Hok in Ho. discriminate Ho.
  - simpl. split; [discriminate|].
    intros (r & b & Hr & _). discriminate Hr.
Qed.

Lemma single_shot_returns_witness :
  exists response bytes,
    fetchWithTimeout (serving (Resolved (streamed [octets "[1"; octets "]"])))
      (getEndpoint example_generator false) (post_init example_request)
      (timeoutMs example_generator) = Resolved response /\
    ok response = true /\
    consume_body response = Resolved bytes /\
    JSON.parse (Utf8.decode_all bytes) =
      Some (JArray [JNumber (mkNumber false 1 0)]).
Proof.
  apply (proj1 (single_shot_returns_exactly_parsed_bodies
    (serving (Resolved (streamed [octets "[1"; octets "]"])))
    example_generator example_request
    (JArray [JNumber (mkNumber false 1 0)]))).
  vm_compute. reflexivity.
Defined.

(** X4.  Whatever the network does, an error that leaves either call
    carries the name of its operation in front: callers see one error
    shape per operation. *)
Theorem failures_carry_the_operation_name
  (platform : Platform) (this : LocalContentGenerator)
  (request : GenerateContentParameters) (error : JsError) :
  (snd (generateContent platform this request) = Throw error ->
   startsWith (message error)
     (js "Failed to generate content from local LLM: ") = true) /\
  (snd (generateContentStream platform this request) = Throw error ->
   startsWith (message error)
     (js "Failed to generate content stream from local LLM: ") = true).
Proof.
  split.
  - unfold generateContent. rewrite try_catch_throw. cbn [snd].
    destruct (snd _) as [a|e]; [discriminate|].
    intro H.
    assert (E : error = mkError (js "Failed to generate content from local LLM: "
                                 ++ getErrorMessage e)) by congruence.
    rewrite E. cbn [message]. apply startsWith_app.
  - unfold generateContentStream. rewrite try_catch_throw. cbn [snd].
    destruct (snd _) as [a|e]; [discriminate|].
    intro H.
    assert (E : error = mkError (js "Failed to generate content stream from local LLM: "
                                 ++ getErrorMessage e)) by congruence.
    rewrite E. cbn [message]. apply startsWith_app.
Qed.

Lemma failures_carry_the_operation_name_witness :
  startsWith
    (js "Failed to generate content stream from local LLM: Response body is null")
    (js "Failed to generate content stream from local LLM: ") = true.
Proof.
  apply (proj2 (failures_carry_the_operation_name
    (serving (Resolved (mkResponse true 200 (js "OK") None)))
    example_generator example_request
    (mkError (js "Failed to generate content stream from local LLM: Response body is null")))).
  vm_compute. reflexivity.
Defined.

Lemma outputs_all t : outputs t = t -> Forall (fun a => is_output a = true) t.
Proof.
  induction t as [|x t IH]; [constructor|].
  unfold outputs. simpl. destruct (is_output x) eqn:O.
  - intro E. injection E as E. constructor; [exact O|now apply IH].
  - intro E. exfalso.
    assert (L : (List.length (filter is_output t) <= List.length t)%nat)
      by apply filter_length_le.
    rewrite E in L. simpl in L. lia.
Qed.

Lemma outputs_no_calls t :
  outputs t = t -> network_calls t = [] /\ json_calls t = 0%nat.
Proof.
  intro H. apply outputs_all in H.
  induction H as [|x t O _ [IH1 IH2]]; [now split|].
  destruct x; try discriminate O; now split.
Qed.

Lemma read_loop_no_calls reader : forall st,
  network_calls (fst (read_loop reader st)) = [] /\
  json_calls (fst (read_loop reader st)) = 0%nat.
Proof.
  induction reader as [|[value| |e] rest IH]; intro st; try (now split).
  rewrite read_loop_value. cbn [fst].
  destruct (IH (snd (on_chunk st value))) as [N J].
  destruct (outputs_no_calls (fst (on_chunk st value))) as [N' J'];
    [rewrite on_chunk_eq; apply frame_outputs|].
  unfold network_calls, json_calls in *. simpl.
  rewrite !filter_app, length_app, N, N'. split; [reflexivity|lia].
Qed.

(** X5.  Each call makes exactly one network call.  The single-shot call
    makes it through the timeout-aware primitive, with its own endpoint
    and timeout, asks for the body to be parsed at most once, and never
    reads a chunk or yields.  The streaming call makes it through the
    plain fetch, with the streaming endpoint, and never asks for the body
    to be parsed as a whole. *)
Theorem one_network_call_per_operation
  (platform : Platform) (this : LocalContentGenerator)
  (request : GenerateContentParameters) :
  (network_calls (fst (generateContent platform this request)) =
     [CallFetchWithTimeout (getEndpoint this false) (post_init request)
        (timeoutMs this)] /\
   (json_calls (fst (generateContent platform this request)) <= 1)%nat /\
   reads (fst (generateContent platform this request)) = 0%nat /\
   outputs (fst (generateContent platform this request)) = []) /\
  (network_calls (fst (generateContentStream platform this request)) =
     [CallFetch (getEndpoint this true) (post_init request)] /\
   json_calls (fst (generateContentStream platform this request)) = 0%nat).
Proof.
  split.
  - unfold generateContent. rewrite try_catch_throw. cbn [fst].
    unfold Response_json, bind, await.
    destruct (fetchWithTimeout platform _ _ _) as [response|cause];
      [|repeat split; try reflexivity; unfold json_calls; simpl; lia].
    destruct (ok response); simpl negb; cbv iota; [|repeat split; try reflexivity; unfold json_calls; simpl; lia].
    destruct (consume_body response) as [bytes|cause];
      [|repeat split; try reflexivity; unfold json_calls; simpl; lia].
    destruct (JSON.parse (Utf8.decode_all bytes));
      repeat split; try reflexivity; unfold json_calls; simpl; lia.
  - unfold generateContentStream. rewrite try_catch_throw. cbn [fst].
    unfold bind, await.
    destruct (fetch platform _ _) as [response|cause]; [|now split].
    destruct (ok response); simpl negb; cbv iota; [|now split].
    destruct (body response) as [reader|]; [|now split].
    destruct (read_loop_no_calls reader initial_state) as [N J].
    destruct (read_loop reader initial_state) as [t c]. cbn [fst] in *.
    unfold network_calls, json_calls in *. simpl. now rewrite N, J.
Qed.

Lemma serialize_newline_count seen cps :
  cps = [10] \/ cps = [Utf8.REPLACEMENT; 10] ->
  count_occ Z.eq_dec (snd (Utf8.serialize seen cps)) NL = 1%nat.
Proof. intros [-> | ->]; destruct seen; reflexivity. Qed.

(** The decoder hands out one newline per newline octet, and no other. *)
Lemma decode_newlines v : forall d,
  decoder_inv (Utf8.utf8 d) ->
  count_occ Z.eq_dec (snd (Utf8.decode d v)) NL = newlines v.
Proof.
  induction v as [|b r IH]; intros d I; [reflexivity|].
  rewrite decode_cons. cbn [snd]. rewrite count_occ_app.
  pose proof (step_inv (Utf8.utf8 d) (Utf8.byte_val b) I (byte_val_range b)) as S.
  destruct (Utf8.step _ _) as [st cps]. destruct S as (I' & A & B).
  cbn [fst snd]. rewrite IH by exact I'. unfold newlines. cbn [count_occ].
  destruct (byte_eq_dec b LF) as [->|Hb].
  - destruct (A eq_refl) as [_ C].
    now rewrite (serialize_newline_count _ _ C).
  - assert (Hv : Utf8.byte_val b <> 10)
      by (intro E; now apply byte_val_LF in E).
    rewrite (proj1 (count_occ_not_In Z.eq_dec _ NL)
               (serialize_no_newline cps (Utf8.bom_seen d) (B Hv))).
    reflexivity.
Qed.

Lemma process_line_one_event line :
  (List.length (yielded (process_line line)) <= 1)%nat.
Proof.
  unfold process_line.
  destruct (startsWith line (js "data: ")); [|simpl; lia].
  destruct (JSON.parse _) as [[| | | |[|]|]|]; simpl; lia.
Qed.

Lemma frame_events_bound s :
  (List.length (yielded (fst (frame s))) <= count_occ Z.eq_dec s NL)%nat.
Proof.
  by_lines s.
  - rewrite (frame_no_newline s Hs). simpl. lia.
  - rewrite (frame_line l rest Hl). cbn [fst].
    rewrite yielded_app, length_app, count_occ_app.
    pose proof (process_line_one_event l). simpl.
    destruct (Z.eq_dec NL NL) as [_|N]; [lia|now elim N].
Qed.

(** X6.  A streaming call never yields more events than newline bytes it
    has received: an event needs a complete line, and a line gives at most
    one event. *)
Theorem events_bounded_by_newlines
  (platform : Platform) (this : LocalContentGenerator)
  (request : GenerateContentParameters) (response : Response)
  (reader : ReadableStream) :
  fetch platform (getEndpoint this true) (post_init request) = Resolved response ->
  body response = Some reader ->
  (List.length (yielded (fst (generateContentStream platform this request)))
   <= newlines (List.concat (leading_values reader)))%nat.
Proof.
  intros Hf Hb. destruct (ok response) eqn:Hok.
  - destruct (reader_split reader) as (tail & E & L & F).
    assert (Hb' : body response =
                  Some (map ReadValue (leading_values reader) ++ tail))
      by (now rewrite <- E).
    destruct (stream_chunks platform this request response Hf Hok
                (leading_values reader) tail Hb') as [E1 _].
    rewrite (read_loop_end tail _ L) in E1. cbn [fst] in E1.
    rewrite <- yielded_outputs, E1, yielded_app. simpl. rewrite app_nil_r.
    rewrite <- (decode_newlines _ Utf8.new_TextDecoder new_decoder_inv).
    apply frame_events_bound.
  - unfold generateContentStream. rewrite try_catch_throw. cbn [fst].
    unfold bind, await. rewrite Hf, Hok. simpl. lia.
Qed.

Lemma events_bounded_witness :
  (List.length (yielded (fst (generateContentStream
     (serving (Resolved (streamed
        [octets ("data: [true]" ++ nl ++ nl); octets "data: [false]"])))
     example_generator example_request))) <= 2)%nat.
Proof.
  apply (events_bounded_by_newlines
    (serving (Resolved (streamed
        [octets ("data: [true]" ++ nl ++ nl); octets "data: [false]"])))
    example_generator example_request
    (streamed [octets ("data: [true]" ++ nl ++ nl); octets "data: [false]"])
    (stream_of [octets ("data: [true]" ++ nl ++ nl); octets "data: [false]"]));
    reflexivity.
Defined.

(* ===================================================================== *)
(** ** Further properties: encoding and decoding text *)
(* ===================================================================== *)

Lemma byte_val_of z : 0 <= z < 256 -> Utf8.byte_val (byte_of z) = z.
Proof.
  intro H. unfold Utf8.byte_val, byte_of.
  destruct (Byte.of_N (Z.to_N z)) as [b|] eqn:E.
  - apply Byte.to_of_N in E. lia.
  - apply Byte.of_N_None_iff in E. lia.
Qed.

Lemma continuation_byte x : Z.lor 128 (Z.land x 63) = 128 + x mod 64.
Proof.
  assert (D : Z.land 128 (Z.land x 63) = 0).
  { rewrite (Z.land_comm x 63), Z.land_assoc. apply Z.land_0_l. }
  rewrite <- Z.lxor_lor by exact D.
  rewrite <- Z.add_nocarry_lxor by exact D.
  change 63 with (Z.ones 6). rewrite Z.land_ones by lia. reflexivity.
Qed.

Lemma shiftr_div x n : 0 <= n -> Z.shiftr x n = x / 2 ^ n.
Proof. intro H. now apply Z.shiftr_div_pow2. Qed.

Lemma step_ascii b : b <= 127 -> Utf8.step Utf8.initial b = (Utf8.initial, [b]).
Proof.
  intro H. unfold Utf8.step, Utf8.handler. simpl.
  now rewrite (proj2 (Z.leb_le b 127) H).
Qed.

Lemma step_lead2 b :
  194 <= b <= 223 ->
  Utf8.step Utf8.initial b = (Utf8.mkState (b mod 32) 0 1 128 191, []).
Proof.
  intro H. unfold Utf8.step, Utf8.handler. simpl.
  rewrite (proj2 (Z.leb_gt b 127)) by lia.
  rewrite (proj2 (Z.leb_le 194 b)), (proj2 (Z.leb_le b 223)) by lia. simpl.
  change 31 with (Z.ones 5). now rewrite land_low by lia.
Qed.

Lemma step_lead3 b :
  224 <= b <= 239 ->
  Utf8.step Utf8.initial b =
  (Utf8.mkState (b mod 16) 0 2 (if b =? 224 then 160 else 128)
     (if b =? 237 then 159 else 191), []).
Proof.
  intro H. unfold Utf8.step, Utf8.handler. simpl.
  rewrite (proj2 (Z.leb_gt b 127)) by lia.
  rewrite (proj2 (Z.leb_gt b 223)) by lia. rewrite andb_false_r.
  rewrite (proj2 (Z.leb_le 224 b)), (proj2 (Z.leb_le b 239)) by lia. simpl.
  change 15 with (Z.ones 4). now rewrite land_low by lia.
Qed.

Lemma step_lead4 b :
  240 <= b <= 244 ->
  Utf8.step Utf8.initial b =
  (Utf8.mkState (b mod 8) 0 3 (if b =? 240 then 144 else 128)
     (if b =? 244 then 143 else 191), []).
Proof.
  intro H. unfold Utf8.step, Utf8.handler. simpl.
  rewrite (proj2 (Z.leb_gt b 127)) by lia.
  rewrite (proj2 (Z.leb_gt b 223)) by lia. rewrite andb_false_r.
  rewrite (proj2 (Z.leb_gt b 239)) by lia. rewrite andb_false_r.
  rewrite (proj2 (Z.leb_le 240 b)), (proj2 (Z.leb_le b 244)) by lia. simpl.
  change 7 with (Z.ones 3). now rewrite land_low by lia.
Qed.

Lemma step_continue cp seen needed lower upper b :
  needed <> 0 -> lower <= b <= upper -> seen + 1 <> needed ->
  Utf8.step (Utf8.mkState cp seen needed lower upper) b =
  (Utf8.mkState (cp * 64 + b mod 64) (seen + 1) needed 128 191, []).
Proof.
  intros Hn Hr Hs. unfold Utf8.step, Utf8.handler.
  cbn [Utf8.bytes_needed Utf8.lower_boundary Utf8.upper_boundary
       Utf8.code_point Utf8.bytes_seen].
  rewrite (proj2 (Z.eqb_neq needed 0) Hn).
  rewrite (proj2 (Z.leb_le lower b)), (proj2 (Z.leb_le b upper)) by lia.
  cbn [andb negb]. rewrite (proj2 (Z.eqb_neq (seen + 1) needed) Hs).
  cbn [negb].
  now rewrite continuation_value.
Qed.

Lemma step_complete cp seen needed lower upper b :
  needed <> 0 -> lower <= b <= upper -> seen + 1 = needed ->
  Utf8.step (Utf8.mkState cp seen needed lower upper) b =
  (Utf8.initial, [cp * 64 + b mod 64]).
Proof.
  intros Hn Hr Hs. unfold Utf8.step, Utf8.handler.
  cbn [Utf8.bytes_needed Utf8.lower_boundary Utf8.upper_boundary
       Utf8.code_point Utf8.bytes_seen].
  rewrite (proj2 (Z.eqb_neq needed 0) Hn).
  rewrite (proj2 (Z.leb_le lower b)), (proj2 (Z.leb_le b upper)) by lia.
  cbn [andb negb]. rewrite (proj2 (Z.eqb_eq (seen + 1) needed) Hs).
  cbn [negb].
  now rewrite continuation_value.
Qed.

(** The decoder over one byte that completes nothing. *)
Lemma decode_silent d b st r :
  Utf8.step (Utf8.utf8 d) (Utf8.byte_val b) = (st, []) ->
  Utf8.decode d (b :: r) = Utf8.decode (Utf8.mkDecoder st (Utf8.bom_seen d)) r.
Proof.
  intro H. rewrite decode_cons, H. cbn [fst snd Utf8.serialize].
  now destruct (Utf8.decode _ r).
Qed.

(** The decoder over one byte that completes a code point. *)
Lemma decode_emit u seen b cp r :
  Utf8.step u (Utf8.byte_val b) = (Utf8.initial, [cp]) ->
  Utf8.decode (Utf8.mkDecoder u seen) (b :: r) =
  (fst (Utf8.decode (Utf8.mkDecoder Utf8.initial true) r),
   snd (Utf8.serialize seen [cp])
   ++ snd (Utf8.decode (Utf8.mkDecoder Utf8.initial true) r)).
Proof.
  intro H. rewrite decode_cons. cbn [Utf8.utf8 Utf8.bom_seen].
  rewrite H. cbn [fst snd].
  assert (E : fst (Utf8.serialize seen [cp]) = true).
  { simpl. destruct seen; [reflexivity|]. now destruct (cp =? 65279). }
  now rewrite E.
Qed.

(** Shifts and masks of the encoder, as quotients and remainders. *)
Ltac bytes_arith :=
  rewrite ?Z.shiftr_0_r, ?continuation_byte;
  rewrite ?shiftr_div by lia;
  change (2 ^ 6) with 64; change (2 ^ 12) with 4096;
  change (2 ^ 18) with 262144.

(** Decoding undoes encoding, one scalar value at a time. *)
Lemma decode_encoded cp seen r :
  is_scalar cp ->
  Utf8.decode (Utf8.mkDecoder Utf8.initial seen) (utf8_encode cp ++ r) =
  (fst (Utf8.decode (Utf8.mkDecoder Utf8.initial true) r),
   snd (Utf8.serialize seen [cp])
   ++ snd (Utf8.decode (Utf8.mkDecoder Utf8.initial true) r)).
Proof.
  intros [Hr Hs]. unfold utf8_encode.
  destruct (cp <? 128) eqn:T1; tests.
  { cbn [app]. apply decode_emit. rewrite byte_val_of by lia.
    apply step_ascii. lia. }
  destruct (cp <? 2048) eqn:T2; tests.
  { cbn [app]. bytes_arith.
    rewrite (decode_silent _ _ (Utf8.mkState ((cp / 64 + 192) mod 32) 0 1 128 191)).
    2:{ cbn [Utf8.utf8]. rewrite byte_val_of by zmod. apply step_lead2. zmod. }
    cbn [Utf8.bom_seen]. apply decode_emit.
    rewrite byte_val_of by zmod. rewrite step_complete by zmod.
    do 3 f_equal. zmod. }
  destruct (cp <? 65536) eqn:T3; tests.
  { cbn [app]. bytes_arith.
    rewrite (decode_silent _ _
      (Utf8.mkState ((cp / 4096 + 224) mod 16) 0 2
         (if cp / 4096 + 224 =? 224 then 160 else 128)
         (if cp / 4096 + 224 =? 237 then 159 else 191))).
    2:{ cbn [Utf8.utf8]. rewrite byte_val_of by zmod. apply step_lead3. zmod. }
    cbn [Utf8.bom_seen].
    rewrite (decode_silent _ _
      (Utf8.mkState ((cp / 4096 + 224) mod 16 * 64
                     + (128 + cp / 64 mod 64) mod 64) (0 + 1) 2 128 191)).
    2:{ cbn [Utf8.utf8]. rewrite byte_val_of by zmod. apply step_continue; try lia.
        destruct (Z.eqb_spec (cp / 4096 + 224) 224),
                 (Z.eqb_spec (cp / 4096 + 224) 237); zmod. }
    cbn [Utf8.bom_seen]. apply decode_emit.
    rewrite byte_val_of by zmod. rewrite step_complete by zmod.
    do 3 f_equal. zmod. }
  cbn [app]. bytes_arith.
  rewrite (decode_silent _ _
    (Utf8.mkState ((cp / 262144 + 240) mod 8) 0 3
       (if cp / 262144 + 240 =? 240 then 144 else 128)
       (if cp / 262144 + 240 =? 244 then 143 else 191))).
  2:{ cbn [Utf8.utf8]. rewrite byte_val_of by zmod. apply step_lead4. zmod. }
  cbn [Utf8.bom_seen].
  rewrite (decode_silent _ _
    (Utf8.mkState ((cp / 262144 + 240) mod 8 * 64
                   + (128 + cp / 4096 mod 64) mod 64) (0 + 1) 3 128 191)).
  2:{ cbn [Utf8.utf8]. rewrite byte_val_of by zmod. apply step_continue; try lia.
      destruct (Z.eqb_spec (cp / 262144 + 240) 240),
               (Z.eqb_spec (cp / 262144 + 240) 244); zmod. }
  cbn [Utf8.bom_seen].
  rewrite (decode_silent _ _
    (Utf8.mkState (((cp / 262144 + 240) mod 8 * 64
                    + (128 + cp / 4096 mod 64) mod 64) * 64
                   + (128 + cp / 64 mod 64) mod 64) (0 + 1 + 1) 3 128 191)).
  2:{ cbn [Utf8.utf8]. rewrite byte_val_of by zmod. apply step_continue; zmod. }
  cbn [Utf8.bom_seen]. apply decode_emit.
  rewrite byte_val_of by zmod. rewrite step_complete by zmod.
  do 3 f_equal. zmod.
Qed.

Lemma utf16_unit c : 0 <= c < 65536 -> Utf8.utf16 c = [c].
Proof.
  intro H. unfold Utf8.utf16. now rewrite (proj2 (Z.ltb_lt c 65536)) by lia.
Qed.

Lemma utf16_pair c d :
  is_high_surrogate c = true -> is_low_surrogate d = true ->
  Utf8.utf16 (65536 + (c - 55296) * 1024 + (d - 56320)) = [c; d].
Proof.
  unfold is_high_surrogate, is_low_surrogate. intros Hc Hd. tests.
  unfold Utf8.utf16. rewrite (proj2 (Z.ltb_ge _ 65536)) by lia.
  rewrite shiftr_div by lia. change 1023 with (Z.ones 10).
  rewrite land_low by lia. change (2 ^ 10) with 1024.
  f_equal; [|f_equal]; zmod.
Qed.

Lemma pair_is_scalar c d :
  is_high_surrogate c = true -> is_low_surrogate d = true ->
  is_scalar (65536 + (c - 55296) * 1024 + (d - 56320)).
Proof.
  unfold is_high_surrogate, is_low_surrogate, is_scalar. intros Hc Hd. tests. lia.
Qed.

Lemma unit_is_scalar c :
  0 <= c < 65536 -> is_high_surrogate c = false -> is_low_surrogate c = false ->
  is_scalar c.
Proof.
  unfold is_high_surrogate, is_low_surrogate, is_scalar. intros Hr Hc Hd.
  tests; lia.
Qed.

(** What the decoder, its mark already seen, makes of an encoded
    well-formed string is the string. *)
Lemma decode_encode_seen n : forall s r,
  (List.length s <= n)%nat ->
  code_units s = true -> isWellFormed s = true ->
  Utf8.decode (Utf8.mkDecoder Utf8.initial true) (TextEncoder_encode s ++ r) =
  (fst (Utf8.decode (Utf8.mkDecoder Utf8.initial true) r),
   s ++ snd (Utf8.decode (Utf8.mkDecoder Utf8.initial true) r)).
Proof.
  induction n as [|n IH]; intros s r Hn Hu Hw.
  - destruct s; [|simpl in Hn; lia]. simpl. now destruct (Utf8.decode _ r).
  - destruct s as [|c s']; [simpl; now destruct (Utf8.decode _ r)|].
    simpl in Hn, Hu, Hw. apply andb_true_iff in Hu. destruct Hu as [Hc Hu].
    unfold TextEncoder_encode. cbn [scalar_values].
    destruct (is_high_surrogate c) eqn:Hh.
    + destruct s' as [|d s'']; [discriminate Hw|].
      apply andb_true_iff in Hw. destruct Hw as [Hl Hw].
      simpl in Hu. apply andb_true_iff in Hu. destruct Hu as [Hd Hu].
      rewrite Hl. cbn [flat_map]. rewrite <- app_assoc.
      rewrite decode_encoded by (now apply pair_is_scalar).
      fold (TextEncoder_encode s'').
      rewrite IH by (simpl in Hn; try lia; assumption).
      cbn [fst snd Utf8.serialize]. rewrite utf16_pair by assumption.
      reflexivity.
    + apply andb_true_iff in Hw. destruct Hw as [Hl Hw].
      apply negb_true_iff in Hl. rewrite Hl. cbn [flat_map].
      rewrite <- app_assoc. tests.
      rewrite decode_encoded by (apply unit_is_scalar; [lia|assumption..]).
      fold (TextEncoder_encode s').
      rewrite IH by (try lia; assumption).
      cbn [fst snd Utf8.serialize]. rewrite utf16_unit by lia.
      reflexivity.
Qed.

Lemma decode_encode_fresh s r :
  code_units s = true -> isWellFormed s = true -> s <> [] ->
  Utf8.decode Utf8.new_TextDecoder (TextEncoder_encode s ++ r) =
  (fst (Utf8.decode (Utf8.mkDecoder Utf8.initial true) r),
   drop_mark s ++ snd (Utf8.decode (Utf8.mkDecoder Utf8.initial true) r)).
Proof.
  intros Hu Hw Hne. destruct s as [|c s']; [now elim Hne|].
  simpl in Hu, Hw. apply andb_true_iff in Hu. destruct Hu as [Hc Hu].
  unfold TextEncoder_encode, Utf8.new_TextDecoder, drop_mark.
  cbn [scalar_values].
  destruct (is_high_surrogate c) eqn:Hh.
  - destruct s' as [|d s'']; [discriminate Hw|].
    apply andb_true_iff in Hw. destruct Hw as [Hl Hw].
    simpl in Hu. apply andb_true_iff in Hu. destruct Hu as [Hd Hu].
    rewrite Hl. cbn [flat_map]. rewrite <- app_assoc.
    rewrite decode_encoded by (now apply pair_is_scalar).
    fold (TextEncoder_encode s'').
    rewrite (decode_encode_seen _ s'' r (le_n _) Hu Hw).
    cbn [fst snd Utf8.serialize].
    assert (E : (65536 + (c - 55296) * 1024 + (d - 56320) =? 65279) = false).
    { unfold is_high_surrogate, is_low_surrogate in *. tests.
      apply Z.eqb_neq. lia. }
    assert (E' : (c =? 65279) = false).
    { unfold is_high_surrogate in Hh. tests. apply Z.eqb_neq. lia. }
    rewrite E, E', utf16_pair by assumption. reflexivity.
  - apply andb_true_iff in Hw. destruct Hw as [Hl Hw].
    apply negb_true_iff in Hl. rewrite Hl. cbn [flat_map].
    rewrite <- app_assoc. tests.
    rewrite decode_encoded by (apply unit_is_scalar; [lia|assumption..]).
    fold (TextEncoder_encode s').
    rewrite (decode_encode_seen _ s' r (le_n _) Hu Hw).
    cbn [fst snd Utf8.serialize].
    destruct (c =? 65279); [reflexivity|].
    rewrite utf16_unit by lia. reflexivity.
Qed.

Lemma decode_chunks_seen chunks :
  Forall (fun s => code_units s = true /\ isWellFormed s = true) chunks ->
  Utf8.decode (Utf8.mkDecoder Utf8.initial true)
    (List.concat (map TextEncoder_encode chunks)) =
  (Utf8.mkDecoder Utf8.initial true, List.concat chunks).
Proof.
  induction 1 as [|s chunks [Hu Hw] _ IH]; [reflexivity|].
  cbn [map List.concat].
  rewrite (decode_encode_seen _ s _ (le_n _) Hu Hw), IH. reflexivity.
Qed.

(** A fresh decoder over the encoded chunks: the text less one byte
    order mark in front, and nothing left pending. *)
Lemma decode_chunks_fresh chunks :
  Forall (fun s => code_units s = true /\ isWellFormed s = true) chunks ->
  exists d,
    Utf8.decode Utf8.new_TextDecoder
      (List.concat (map TextEncoder_encode chunks)) =
    (d, drop_mark (List.concat chunks)) /\
    Utf8.utf8 d = Utf8.initial.
Proof.
  induction 1 as [|s chunks [Hu Hw] F IH];
    [now exists Utf8.new_TextDecoder|].
  cbn [map List.concat]. destruct s as [|c s']; [exact IH|].
  exists (Utf8.mkDecoder Utf8.initial true).
  rewrite (decode_encode_fresh (c :: s') _ Hu Hw) by discriminate.
  rewrite (decode_chunks_seen chunks F). cbn [fst snd].
  split; [|reflexivity].
  unfold drop_mark. cbn [app]. now destruct (c =? 65279).
Qed.

(** X7.  Text survives the wire: when each chunk is a well-formed string,
    what the streaming decoder's [TextDecoder] makes of the chunks that
    [TextEncoder] produced is the concatenation of the chunks, less one
    byte order mark at the very start, and the decoder is left at rest
    with nothing pending. *)
Theorem decoding_undoes_encoding (chunks : list jsstring) :
  Forall (fun s => code_units s = true /\ isWellFormed s = true) chunks ->
  decoded_text (List.concat (map TextEncoder_encode chunks)) =
    drop_mark (List.concat chunks) /\
  Utf8.utf8 (fst (Utf8.decode Utf8.new_TextDecoder
                    (List.concat (map TextEncoder_encode chunks)))) =
    Utf8.initial.
Proof.
  intro F. destruct (decode_chunks_fresh chunks F) as (d & E & R).
  unfold decoded_text. rewrite E. cbn [fst snd]. now split.
Qed.

Lemma decoding_undoes_encoding_witness :
  decoded_text (List.concat (map TextEncoder_encode
     [[65279; 100]; [233]; [55357; 56832; 8364]])) =
  [100; 233; 55357; 56832; 8364].
Proof.
  destruct (decoding_undoes_encoding
              [[65279; 100]; [233]; [55357; 56832; 8364]]) as [E _].
  - repeat constructor.
  - rewrite E. reflexivity.
Defined.

(* ===================================================================== *)
(** ** Further properties: JSON text read back *)
(* ===================================================================== *)

Lemma hex_digit_char d : 0 <= d < 16 -> hex_digit (hex_char d) = Some d.
Proof.
  intro H. unfold hex_digit, hex_char, is_digit.
  destruct (d <? 10) eqn:T; tests.
  - rewrite (proj2 (Z.leb_le 48 (48 + d))), (proj2 (Z.leb_le (48 + d) 57)) by lia.
    cbn [andb]. f_equal. lia.
  - rewrite (proj2 (Z.leb_gt (87 + d) 57)) by lia. rewrite andb_false_r.
    rewrite (proj2 (Z.leb_le 97 (87 + d))), (proj2 (Z.leb_le (87 + d) 102)) by lia.
    cbn [andb]. f_equal. lia.
Qed.

Lemma parse_unicode_escape c rest acc :
  0 <= c < 65536 ->
  parse_string_chars (unicode_escape c ++ rest) acc =
  parse_string_chars rest (c :: acc).
Proof.
  intro H. unfold unicode_escape. cbn [app parse_string_chars].
  change (92 =? 34) with false. change (92 =? 92) with true.
  change (ch "u" =? ch "u") with true. cbv iota.
  unfold hex4. rewrite !shiftr_div by lia.
  rewrite !hex_digit_char by zmod.
  replace ((((c / 2 ^ 12 mod 16 * 16 + c / 2 ^ 8 mod 16) * 16
             + c / 2 ^ 4 mod 16) * 16 + c mod 16)) with c; [reflexivity|].
  change (2 ^ 12) with 4096. change (2 ^ 8) with 256. change (2 ^ 4) with 16.
  zmod.
Qed.

(** A character that [QuoteJSONString] writes as it is, read back. *)
Lemma parse_literal_char c rest acc :
  32 <= c -> c <> 34 -> c <> 92 ->
  parse_string_chars (c :: rest) acc = parse_string_chars rest (c :: acc).
Proof.
  intros H1 H2 H3. cbn [parse_string_chars].
  rewrite (proj2 (Z.eqb_neq c 34) H2), (proj2 (Z.eqb_neq c 92) H3).
  now rewrite (proj2 (Z.ltb_ge c 32)) by lia.
Qed.

Lemma parse_simple_escape e c rest acc :
  simple_escape e = Some c -> e <> ch "u" ->
  parse_string_chars (92 :: e :: rest) acc = parse_string_chars rest (c :: acc).
Proof.
  intros H1 H2. cbn [parse_string_chars].
  change (92 =? 34) with false. change (92 =? 92) with true. cbv iota.
  now rewrite (proj2 (Z.eqb_neq e (ch "u")) H2), H1.
Qed.

(** A quoted string is read back as the string. *)
Lemma parse_quoted n : forall s acc rest,
  (List.length s <= n)%nat ->
  code_units s = true ->
  parse_string_chars (quote_chars s ++ 34 :: rest) acc = Some (rev acc ++ s, rest).
Proof.
  induction n as [|n IH]; intros s acc rest Hn Hu.
  - destruct s; [|simpl in Hn; lia]. simpl. now rewrite app_nil_r.
  - destruct s as [|c s']; [simpl; now rewrite app_nil_r|].
    simpl in Hn, Hu. apply andb_true_iff in Hu. destruct Hu as [Hc Hu]. tests.
    assert (Step : forall t, parse_string_chars t (c :: acc) = Some (rev (c :: acc) ++ s', rest) ->
                             parse_string_chars t (c :: acc) = Some (rev acc ++ c :: s', rest)).
    { intros t ->. simpl. now rewrite <- app_assoc. }
    cbn [quote_chars].
    destruct (c =? 8) eqn:T8; tests;
      [subst c; cbn [app]; rewrite (parse_simple_escape (ch "b") 8) by (reflexivity || discriminate);
       apply Step, IH; [lia|assumption]|].
    destruct (c =? 9) eqn:T9; tests;
      [subst c; cbn [app]; rewrite (parse_simple_escape (ch "t") 9) by (reflexivity || discriminate);
       apply Step, IH; [lia|assumption]|].
    destruct (c =? 10) eqn:T10; tests;
      [subst c; cbn [app]; rewrite (parse_simple_escape (ch "n") 10) by (reflexivity || discriminate);
       apply Step, IH; [lia|assumption]|].
    destruct (c =? 12) eqn:T12; tests;
      [subst c; cbn [app]; rewrite (parse_simple_escape (ch "f") 12) by (reflexivity || discriminate);
       apply Step, IH; [lia|assumption]|].
    destruct (c =? 13) eqn:T13; tests;
      [subst c; cbn [app]; rewrite (parse_simple_escape (ch "r") 13) by (reflexivity || discriminate);
       apply Step, IH; [lia|assumption]|].
    destruct (c =? 34) eqn:T34; tests;
      [subst c; cbn [app]; rewrite (parse_simple_escape 34 34) by (reflexivity || discriminate);
       apply Step, IH; [lia|assumption]|].
    destruct (c =? 92) eqn:T92; tests;
      [subst c; cbn [app]; rewrite (parse_simple_escape 92 92) by (reflexivity || discriminate);
       apply Step, IH; [lia|assumption]|].
    destruct (c <? 32) eqn:T32; tests;
      [rewrite <- app_assoc, parse_unicode_escape by lia;
       apply Step, IH; [lia|assumption]|].
    destruct (is_high_surrogate c) eqn:Hh.
    + destruct s' as [|d s''].
      * rewrite parse_unicode_escape by lia. reflexivity.
      * destruct (is_low_surrogate d) eqn:Hl.
        -- cbn [app]. rewrite parse_literal_char by lia.
           unfold is_low_surrogate in Hl. tests.
           rewrite parse_literal_char by lia.
           simpl in Hu. apply andb_true_iff in Hu. destruct Hu as [_ Hu].
           rewrite IH by (simpl in Hn; try lia; assumption).
           simpl. now rewrite <- !app_assoc.
        -- rewrite <- app_assoc, parse_unicode_escape by lia.
           apply Step, IH; [lia|assumption].
    + destruct (is_low_surrogate c) eqn:Hl.
      * rewrite <- app_assoc, parse_unicode_escape by lia.
        apply Step, IH; [lia|assumption].
      * cbn [app]. rewrite parse_literal_char by lia.
        apply Step, IH; [lia|assumption].
Qed.

(** *** Decimal digits *)

Lemma digits_of_uint_are_digits u :
  Forall (fun c => is_digit c = true) (digits_of_uint u).
Proof. induction u; simpl; constructor; auto. Qed.

Lemma fold_digits_pos u : forall p,
  fold_left (fun acc d => acc * 10 + d)
    (map (fun c => c - 48) (digits_of_uint u)) (Z.pos p) =
  Z.pos (Pos.of_uint_acc u p).
Proof.
  induction u; intro p; cbn [digits_of_uint map fold_left Pos.of_uint_acc];
    try reflexivity; rewrite <- IHu; f_equal; lia.
Qed.

Lemma digits_value_of_uint u :
  digits_value (map (fun c => c - 48) (digits_of_uint u)) = Z.of_N (Pos.of_uint u).
Proof.
  unfold digits_value.
  induction u; cbn [digits_of_uint map fold_left Pos.of_uint];
    try reflexivity; try exact IHu;
    cbn [N.to_nat Z.of_N]; rewrite <- fold_digits_pos; reflexivity.
Qed.

Lemma string_of_N_value n :
  digits_value (map (fun c => c - 48) (string_of_N n)) = Z.of_N n.
Proof.
  unfold string_of_N. rewrite digits_value_of_uint.
  f_equal. apply DecimalN.Unsigned.of_to.
Qed.

Lemma nzhead_head u :
  match Decimal.nzhead u with Decimal.D0 _ => False | _ => True end.
Proof. induction u; simpl; auto. Qed.

(** The decimal digits of a positive number: there is a first one, and it
    is not a zero. *)
Lemma string_of_N_head n :
  n <> 0%N -> exists c r, string_of_N n = c :: r /\ c <> 48 /\ is_digit c = true.
Proof.
  intro H. destruct n as [|p]; [now elim H|].
  unfold string_of_N. cbn [N.to_uint].
  assert (U : Decimal.unorm (Pos.to_uint p) = Pos.to_uint p).
  { rewrite <- DecimalPos.Unsigned.to_of.
    rewrite DecimalPos.Unsigned.of_to. reflexivity. }
  pose proof (DecimalPos.Unsigned.to_uint_nonnil p) as NN.
  pose proof (nzhead_head (Pos.to_uint p)) as NH.
  unfold Decimal.unorm in U.
  destruct (Decimal.nzhead (Pos.to_uint p)) eqn:E.
  - rewrite <- U in NN |- *. simpl.
    pose proof (DecimalPos.Unsigned.to_uint_nonzero p) as NZ.
    rewrite <- U in NZ. now elim NZ.
  - now elim NH.
  - rewrite <- U. simpl. do 2 eexists. split; [reflexivity|]. split; [lia|reflexivity].
  - rewrite <- U. simpl. do 2 eexists. split; [reflexivity|]. split; [lia|reflexivity].
  - rewrite <- U. simpl. do 2 eexists. split; [reflexivity|]. split; [lia|reflexivity].
  - rewrite <- U. simpl. do 2 eexists. split; [reflexivity|]. split; [lia|reflexivity].
  - rewrite <- U. simpl. do 2 eexists. split; [reflexivity|]. split; [lia|reflexivity].
  - rewrite <- U. simpl. do 2 eexists. split; [reflexivity|]. split; [lia|reflexivity].
  - rewrite <- U. simpl. do 2 eexists. split; [reflexivity|]. split; [lia|reflexivity].
  - rewrite <- U. simpl. do 2 eexists. split; [reflexivity|]. split; [lia|reflexivity].
  - rewrite <- U. simpl. do 2 eexists. split; [reflexivity|]. split; [lia|reflexivity].
Qed.

(** *** Numbers *)

Lemma parse_number_stages s :
  parse_number s = number_body (fst (number_sign s)) (snd (number_sign s)).
Proof.
  unfold parse_number, number_body.
  change (match s with
          | [] => (false, s)
          | c :: r => if c =? ch "-" then (true, r) else (false, s)
          end) with (number_sign s).
  now destruct (number_sign s).
Qed.

Lemma delimited_not_digit rest :
  delimited rest -> span_digits rest = ([], rest).
Proof.
  destruct rest as [|c r]; [reflexivity|].
  simpl. intros [->|[->| ->]]; reflexivity.
Qed.

Lemma span_digits_run ds : forall rest,
  Forall (fun c => is_digit c = true) ds ->
  span_digits (ds ++ rest) =
  (digit_values ds ++ fst (span_digits rest), snd (span_digits rest)).
Proof.
  induction ds as [|c ds IH]; intros rest F.
  - simpl. now destruct (span_digits rest).
  - inversion F as [|? ? Hc F']; subst.
    cbn [app span_digits]. rewrite Hc, (IH rest F'). reflexivity.
Qed.

Lemma digits_value_from l : forall acc,
  fold_left (fun a d => a * 10 + d) l acc =
  acc * 10 ^ Z.of_nat (List.length l) + fold_left (fun a d => a * 10 + d) l 0.
Proof.
  induction l as [|d l IH]; intro acc.
  - simpl. lia.
  - cbn [fold_left List.length]. rewrite (IH (acc * 10 + d)), (IH (0 * 10 + d)).
    rewrite Nat2Z.inj_succ, Z.pow_succ_r by lia. ring.
Qed.

Lemma digits_value_app a b :
  digits_value (a ++ b) =
  digits_value a * 10 ^ Z.of_nat (List.length b) + digits_value b.
Proof.
  unfold digits_value. rewrite fold_left_app. apply digits_value_from.
Qed.

Lemma digits_value_zeros j : digits_value (repeat 0 j) = 0.
Proof.
  unfold digits_value. induction j as [|j IH]; [reflexivity|]. exact IH.
Qed.

Lemma digit_values_zeros j : digit_values (repeat 48 j) = repeat 0 j.
Proof. induction j as [|j IH]; [reflexivity|]. simpl. now rewrite IH. Qed.

Lemma zeros_are_digits j : Forall (fun c => is_digit c = true) (repeat 48 j).
Proof. induction j; simpl; constructor; auto. Qed.

Lemma strip_zeros_done n m e :
  m <> 0 -> m mod 10 <> 0 -> strip_zeros (S n) m e = (m, e).
Proof.
  intros H1 H2. simpl.
  now rewrite (proj2 (Z.eqb_neq m 0) H1), (proj2 (Z.eqb_neq (m mod 10) 0) H2).
Qed.

Lemma strip_zeros_power j : forall n m e,
  0 < m -> m mod 10 <> 0 -> (j < n)%nat ->
  strip_zeros n (m * 10 ^ Z.of_nat j) e = (m, e + Z.of_nat j).
Proof.
  induction j as [|j IH]; intros n m e Hm Hd Hn.
  - destruct n; [lia|]. simpl Z.of_nat. rewrite Z.mul_1_r, Z.add_0_r.
    apply strip_zeros_done; lia.
  - destruct n; [lia|]. cbn [strip_zeros].
    rewrite Nat2Z.inj_succ, Z.pow_succ_r by lia.
    assert (P : 0 < 10 ^ Z.of_nat j) by (apply Z.pow_pos_nonneg; lia).
    rewrite (proj2 (Z.eqb_neq (m * (10 * 10 ^ Z.of_nat j)) 0)) by nia.
    replace (m * (10 * 10 ^ Z.of_nat j)) with (m * 10 ^ Z.of_nat j * 10) by ring.
    rewrite Z.mod_mul by lia. change (0 =? 0) with true. cbv iota.
    rewrite Z.div_mul by lia. rewrite IH by lia. f_equal. lia.
Qed.

Lemma number_int_run ints after :
  Forall (fun c => is_digit c = true) ints ->
  (exists c r, ints = c :: r /\ c <> 48) ->
  span_digits after = ([], after) ->
  number_int (ints ++ after) = Some (digit_values ints, after).
Proof.
  intros F (c & r & -> & Hc) Ha.
  assert (D : is_digit c = true) by (now inversion F).
  unfold number_int. cbn [app].
  change (ch "0") with 48. rewrite (proj2 (Z.eqb_neq c 48) Hc), D.
  change (c :: r ++ after) with ((c :: r) ++ after).
  rewrite (span_digits_run _ after F), Ha. cbn [fst snd].
  now rewrite app_nil_r.
Qed.

Lemma number_frac_run fracs after :
  Forall (fun c => is_digit c = true) fracs -> fracs <> [] ->
  span_digits after = ([], after) ->
  number_frac (46 :: fracs ++ after) = Some (digit_values fracs, after).
Proof.
  intros F Hn Ha. unfold number_frac. change (46 =? ch ".") with true. cbv iota.
  rewrite (span_digits_run _ after F), Ha. cbn [fst snd]. rewrite app_nil_r.
  destruct fracs; [now elim Hn|reflexivity].
Qed.

Lemma number_frac_none after :
  match after with [] => True | c :: _ => c <> 46 end ->
  number_frac after = Some ([], after).
Proof.
  destruct after as [|c r]; [reflexivity|]. intro H. unfold number_frac.
  change (ch ".") with 46. now rewrite (proj2 (Z.eqb_neq c 46) H).
Qed.

Lemma number_exp_run (eneg : bool) es rest :
  Forall (fun c => is_digit c = true) es -> es <> [] ->
  span_digits rest = ([], rest) ->
  number_exp (101 :: (if eneg then 45 else 43) :: es ++ rest) =
  Some (if eneg then - digits_value (digit_values es)
        else digits_value (digit_values es), rest).
Proof.
  intros F Hn Ha. destruct eneg; unfold number_exp.
  - change (101 =? ch "e") with true. cbn [orb]. cbv iota.
    change (45 =? ch "-") with true. cbv iota beta.
    rewrite (span_digits_run _ rest F), Ha. cbn [fst snd]. rewrite app_nil_r.
    destruct es; [now elim Hn|reflexivity].
  - change (101 =? ch "e") with true. cbn [orb]. cbv iota.
    change (43 =? ch "-") with false. change (43 =? ch "+") with true.
    cbv iota beta.
    rewrite (span_digits_run _ rest F), Ha. cbn [fst snd]. rewrite app_nil_r.
    destruct es; [now elim Hn|reflexivity].
Qed.

Lemma number_exp_none rest : delimited rest -> number_exp rest = Some (0, rest).
Proof.
  destruct rest as [|c r]; [reflexivity|].
  simpl. intros [->|[->| ->]]; reflexivity.
Qed.

Lemma number_sign_of (neg : bool) body rest :
  (exists c t, body = c :: t /\ is_digit c = true) ->
  number_sign ((if neg then 45 :: body else body) ++ rest) = (neg, body ++ rest).
Proof.
  intros (c & t & -> & D). destruct neg; [reflexivity|].
  unfold number_sign. cbn [app].
  assert (E : (c =? ch "-") = false).
  { unfold is_digit in D. tests. apply Z.eqb_neq. change (ch "-") with 45. lia. }
  now rewrite E.
Qed.

Lemma digits_of_nonneg m :
  0 <= m ->
  Forall (fun c => is_digit c = true) (string_of_Z m) /\
  string_of_Z m <> [] /\
  digits_value (digit_values (string_of_Z m)) = m.
Proof.
  intro H. unfold string_of_Z. rewrite (proj2 (Z.ltb_ge m 0)) by lia.
  split; [apply digits_of_uint_are_digits|]. split.
  - destruct (Z.to_N m) eqn:E; [discriminate|].
    destruct (string_of_N_head (N.pos p)) as (c & r & -> & _); discriminate.
  - unfold digit_values. rewrite string_of_N_value. lia.
Qed.

Lemma digits_of_positive m :
  0 < m ->
  exists c r, string_of_Z m = c :: r /\ c <> 48 /\ is_digit c = true.
Proof.
  intro H. unfold string_of_Z. rewrite (proj2 (Z.ltb_ge m 0)) by lia.
  apply string_of_N_head. lia.
Qed.

Lemma Forall_prefix {A} (P : A -> Prop) i : forall l,
  Forall P l -> Forall P (firstn i l).
Proof.
  induction i as [|i IH]; intros l F; [constructor|].
  destruct F; simpl; constructor; auto.
Qed.

Lemma Forall_suffix {A} (P : A -> Prop) i : forall l,
  Forall P l -> Forall P (skipn i l).
Proof.
  induction i as [|i IH]; intros l F; [exact F|].
  destruct F; simpl; [constructor|auto].
Qed.

Section NumberText.

Variables (neg : bool) (m : Z) (ds rest : jsstring).
Hypothesis m_positive : 0 < m.
Hypothesis m_normal : m mod 10 <> 0.
Hypothesis ds_digits : Forall (fun c => is_digit c = true) ds.
Hypothesis ds_head : exists c r, ds = c :: r /\ c <> 48 /\ is_digit c = true.
Hypothesis ds_value : digits_value (digit_values ds) = m.
Hypothesis rest_delimited : delimited rest.

Lemma rest_not_digit : span_digits rest = ([], rest).
Proof. now apply delimited_not_digit. Qed.

Lemma rest_not_point : match rest with [] => True | c :: _ => c <> 46 end.
Proof.
  destruct rest as [|c r]; [exact I|].
  destruct rest_delimited as [->|[->| ->]]; discriminate.
Qed.

Lemma ds_length : (0 < List.length ds)%nat.
Proof. destruct ds_head as (c & r & -> & _). simpl. lia. Qed.

Lemma number_of_ds e :
  number_of_digits neg (digit_values ds) e = mkNumber neg m e.
Proof.
  unfold number_of_digits. rewrite ds_value.
  unfold digit_values. rewrite length_map.
  pose proof ds_length. destruct (List.length ds); [lia|].
  rewrite strip_zeros_done by lia. reflexivity.
Qed.

(** An integer with [j] zeros behind its digits. *)
Lemma number_body_integer j :
  number_body neg ((ds ++ repeat 48 j) ++ rest) =
  Some (mkNumber neg m (Z.of_nat j), rest).
Proof.
  unfold number_body.
  assert (I : number_int ((ds ++ repeat 48 j) ++ rest) =
              Some (digit_values (ds ++ repeat 48 j), rest)).
  { apply number_int_run.
    - apply Forall_app. split; [exact ds_digits|apply zeros_are_digits].
    - destruct ds_head as (c & r & -> & Hc & _). now exists c, (r ++ repeat 48 j).
    - apply rest_not_digit. }
  rewrite I, (number_frac_none rest rest_not_point).
  rewrite (number_exp_none rest rest_delimited).
  f_equal. f_equal. rewrite app_nil_r. cbn [List.length Z.of_nat].
  unfold number_of_digits, digit_values. rewrite map_app.
  fold (digit_values ds). fold (digit_values (repeat 48 j)).
  rewrite digit_values_zeros, digits_value_app, digits_value_zeros, ds_value.
  rewrite repeat_length, Z.add_0_r, length_app, repeat_length.
  unfold digit_values. rewrite length_map.
  pose proof ds_length.
  rewrite strip_zeros_power by lia. f_equal; lia.
Qed.

(** Digits with a point after the first [i] of them. *)
Lemma number_body_point i :
  (0 < i < List.length ds)%nat ->
  number_body neg ((firstn i ds ++ 46 :: skipn i ds) ++ rest) =
  Some (mkNumber neg m (- Z.of_nat (List.length ds - i)), rest).
Proof.
  intro Hi. unfold number_body. rewrite <- app_assoc.
  assert (I : number_int (firstn i ds ++ (46 :: skipn i ds) ++ rest) =
              Some (digit_values (firstn i ds), (46 :: skipn i ds) ++ rest)).
  { apply number_int_run.
    - apply Forall_prefix, ds_digits.
    - destruct ds_head as (c & r & -> & Hc & _).
      destruct i; [lia|]. simpl. now exists c, (firstn i r).
    - reflexivity. }
  assert (F : number_frac ((46 :: skipn i ds) ++ rest) =
              Some (digit_values (skipn i ds), rest)).
  { apply number_frac_run.
    - apply Forall_suffix, ds_digits.
    - intro E. apply (f_equal (@List.length Z)) in E.
      rewrite length_skipn in E. simpl in E. lia.
    - apply rest_not_digit. }
  rewrite I, F, (number_exp_none rest rest_delimited). f_equal. f_equal.
  unfold digit_values. rewrite <- map_app, firstn_skipn.
  fold (digit_values ds). rewrite length_map, length_skipn.
  rewrite number_of_ds. f_equal; lia.
Qed.

Lemma leading_zeros_value j l :
  digits_value (0 :: repeat 0 j ++ l) = digits_value l.
Proof.
  change (0 :: repeat 0 j ++ l) with (repeat 0 (S j) ++ l).
  rewrite digits_value_app, digits_value_zeros. lia.
Qed.

(** Digits behind [0.] and [j] zeros. *)
Lemma number_body_small j :
  number_body neg ((48 :: 46 :: repeat 48 j ++ ds) ++ rest) =
  Some (mkNumber neg m (- Z.of_nat (j + List.length ds)), rest).
Proof.
  unfold number_body. cbn [app].
  assert (I : number_int (48 :: 46 :: (repeat 48 j ++ ds) ++ rest) =
              Some ([0], 46 :: (repeat 48 j ++ ds) ++ rest)) by reflexivity.
  rewrite I.
  assert (F : number_frac (46 :: (repeat 48 j ++ ds) ++ rest) =
              Some (digit_values (repeat 48 j ++ ds), rest)).
  { apply number_frac_run.
    - apply Forall_app. split; [apply zeros_are_digits|exact ds_digits].
    - destruct ds_head as (c & r & -> & _). now destruct j.
    - apply rest_not_digit. }
  rewrite F, (number_exp_none rest rest_delimited). f_equal. f_equal.
  unfold number_of_digits, digit_values. rewrite map_app.
  fold (digit_values ds). fold (digit_values (repeat 48 j)).
  rewrite digit_values_zeros. cbn [app].
  rewrite leading_zeros_value, ds_value.
  cbn [List.length]. rewrite strip_zeros_done by lia.
  f_equal. unfold digit_values.
  rewrite length_app, repeat_length, length_map. lia.
Qed.

(** One digit, the others behind a point if there are any, and an
    exponent. *)
Lemma number_body_exponent d more ee :
  ds = d :: more ->
  number_body neg
    ((d :: match more with [] => [] | _ :: _ => 46 :: more end
        ++ 101 :: (if ee <? 0 then 45 else 43) :: string_of_Z (Z.abs ee))
     ++ rest) =
  Some (mkNumber neg m (ee - Z.of_nat (List.length more)), rest).
Proof.
  intro E. unfold number_body.
  destruct (digits_of_nonneg (Z.abs ee)) as (XD & XN & XV); [lia|].
  assert (X : number_exp
                ((101 :: (if ee <? 0 then 45 else 43) :: string_of_Z (Z.abs ee))
                 ++ rest) = Some (ee, rest)).
  { cbn [app]. rewrite number_exp_run by (assumption || apply rest_not_digit).
    rewrite XV. f_equal. f_equal. destruct (ee <? 0) eqn:T; tests; lia. }
  assert (Hd : d <> 48 /\ is_digit d = true).
  { destruct ds_head as (c & r & Ec & Hc & Dc). rewrite E in Ec.
    injection Ec as -> _. now split. }
  assert (Fm : Forall (fun c => is_digit c = true) more).
  { pose proof ds_digits as F. rewrite E in F. now inversion F. }
  assert (I : forall after, span_digits after = ([], after) ->
                number_int (d :: after) = Some ([d - 48], after)).
  { intros after Ha.
    apply (number_int_run [d] after); [now constructor|now exists d, []|exact Ha]. }
  destruct more as [|f more'].
  - cbn [app]. rewrite I by reflexivity.
    rewrite number_frac_none by discriminate.
    change (101 :: (if ee <? 0 then 45 else 43) :: string_of_Z (Z.abs ee) ++ rest)
      with ((101 :: (if ee <? 0 then 45 else 43) :: string_of_Z (Z.abs ee)) ++ rest).
    rewrite X. f_equal. f_equal. rewrite app_nil_r.
    change [d - 48] with (digit_values [d]). rewrite <- E.
    rewrite number_of_ds. f_equal; simpl; lia.
  - cbn [app]. rewrite I by reflexivity.
    assert (F : number_frac
                  (46 :: f :: (more' ++ 101 :: (if ee <? 0 then 45 else 43)
                                 :: string_of_Z (Z.abs ee)) ++ rest) =
                Some (digit_values (f :: more'),
                      (101 :: (if ee <? 0 then 45 else 43)
                         :: string_of_Z (Z.abs ee)) ++ rest)).
    { rewrite <- app_assoc.
      apply (number_frac_run (f :: more')); [exact Fm|discriminate|reflexivity]. }
    rewrite F, X. f_equal. f_equal.
    change ([d - 48] ++ digit_values (f :: more')) with (digit_values (d :: f :: more')).
    rewrite <- E, number_of_ds. f_equal.
    unfold digit_values. now rewrite length_map.
Qed.

End NumberText.

(** The number text parses back to the number, whatever delimiter
    follows it. *)
Lemma parse_number_to_string x rest :
  normal_number x = true -> delimited rest ->
  parse_number (number_to_string x ++ rest) = Some (x, rest).
Proof.
  destruct x as [neg m e]. unfold normal_number, number_to_string.
  cbn [mantissa exponent negative]. intros N D.
  destruct (m =? 0) eqn:Z0.
  - tests. subst.
    rewrite parse_number_stages.
    change (js "0" ++ rest) with (48 :: rest).
    change (number_sign (48 :: rest)) with (false, 48 :: rest). cbn [fst snd].
    unfold number_body.
    change (number_int (48 :: rest)) with (Some ([0], rest)).
    cbv beta iota.
    assert (P : match rest with [] => True | c :: _ => c <> 46 end).
    { destruct rest as [|c r]; [exact I|].
      destruct D as [->|[->| ->]]; discriminate. }
    rewrite (number_frac_none rest P), (number_exp_none rest D). reflexivity.
  - tests.
    assert (Hm : 0 < m) by assumption.
    assert (Hn : m mod 10 <> 0) by assumption.
    destruct (digits_of_nonneg m) as (DD & _ & DV); [lia|].
    pose proof (digits_of_positive m Hm) as DH.
    set (ds := string_of_Z m) in *.
    set (k := Z.of_nat (List.length ds)).
    assert (Hk : 0 < k).
    { destruct DH as (c & r & E & _). subst k. rewrite E. simpl. lia. }
    match goal with
    | |- parse_number ((if neg then _ :: ?b else _) ++ _) = _ => set (body := b)
    end.
    assert (B : number_body neg (body ++ rest) = Some (mkNumber neg m e, rest) /\
                exists c t, body = c :: t /\ is_digit c = true).
    { subst body.
      destruct ((k <=? k + e) && (k + e <=? 21)) eqn:T1;
        [|destruct ((0 <? k + e) && (k + e <=? 21)) eqn:T2;
          [|destruct ((-6 <? k + e) && (k + e <=? 0)) eqn:T3]].
      - split.
        + rewrite (number_body_integer neg m ds rest Hm Hn DD DH DV D).
          apply andb_true_iff in T1. destruct T1 as [T1 _]. tests.
          f_equal. f_equal. f_equal. lia.
        + destruct DH as (c & r & E & _ & Dc). rewrite E.
          now exists c, (r ++ repeat (ch "0") (Z.to_nat (k + e - k))).
      - apply andb_true_iff in T2. destruct T2 as [T2 T2'].
        apply Z.ltb_lt in T2.
        assert (Lt : k + e < k).
        { apply andb_false_iff in T1. destruct T1 as [T1|T1]; tests; lia. }
        split.
        + change (ch ".") with 46.
          rewrite (number_body_point neg m ds rest Hm Hn DD DH DV D) by (fold k; lia).
          f_equal. f_equal. f_equal. fold k. lia.
        + destruct DH as (c & r & E & _ & Dc). rewrite E.
          destruct (Z.to_nat (k + e)) as [|i] eqn:Ei; [lia|].
          simpl. now eexists _, _.
      - clear T1 T2. apply andb_true_iff in T3. destruct T3 as [T3 T3']. tests.
        split.
        + change (ch "0") with 48. change (ch ".") with 46.
          rewrite (number_body_small neg m ds rest Hm Hn DD DH DV D).
          f_equal. f_equal. f_equal. fold k. lia.
        + now eexists _, _.
      - pose proof DH as (d & more & E & _ & Dc).
        assert (K : k = Z.of_nat (S (List.length more))) by (subst k; now rewrite E).
        split.
        + pose proof (number_body_exponent neg m ds rest Hm Hn DD DH DV D
                        d more (k + e - 1) E) as X.
          rewrite E.
          change (ch "e") with 101. change (ch ".") with 46.
          change (ch "-") with 45. change (ch "+") with 43.
          destruct more as [|f more']; cbn [app] in X |- *;
            rewrite X; f_equal; f_equal; f_equal; lia.
        + rewrite E. destruct more; now eexists _, _. }
    destruct B as (B & HB).
    rewrite parse_number_stages.
    match goal with
    | |- context [number_sign ?t] =>
        replace (number_sign t) with (neg, body ++ rest)
    end.
    + exact B.
    + symmetry. apply (number_sign_of neg body rest HB).
Qed.

(* ===================================================================== *)
(** ** [JSON.parse] reads back what [JSON.stringify] writes *)
(* ===================================================================== *)

(** Induction on a value with the elements and members at hand. *)
Lemma Json_nested_ind (P : Json -> Prop) :
  P JNull ->
  (forall b, P (JBool b)) ->
  (forall n, P (JNumber n)) ->
  (forall s, P (JString s)) ->
  (forall l, Forall P l -> P (JArray l)) ->
  (forall l, Forall (fun kv => P (snd kv)) l -> P (JObject l)) ->
  forall v, P v.
Proof.
  intros Hnull Hbool Hnum Hstr Harr Hobj.
  fix IH 1. intros [ |b|n|s|l|l].
  - exact Hnull.
  - apply Hbool.
  - apply Hnum.
  - apply Hstr.
  - apply Harr. induction l as [|x r IHl]; constructor; [apply IH|exact IHl].
  - apply Hobj. induction l as [|[k x] r IHl]; constructor; [apply IH|exact IHl].
Qed.

(** One step of each of the three parsers. *)
Lemma parse_value_S f s :
  parse_value (S f) s =
  ltac:(let t := eval cbn [parse_value] in (parse_value (S f) s) in exact t).
Proof. reflexivity. Qed.

Lemma parse_elements_S f s acc :
  parse_elements (S f) s acc =
  ltac:(let t := eval cbn [parse_elements] in (parse_elements (S f) s acc) in
        exact t).
Proof. reflexivity. Qed.

Lemma parse_members_S f s acc :
  parse_members (S f) s acc =
  ltac:(let t := eval cbn [parse_members] in (parse_members (S f) s acc) in
        exact t).
Proof. reflexivity. Qed.

(** A parser that came to an answer gives the same one on a larger
    budget. *)
Lemma parse_fuel_step fuel :
  (forall s, parse_value fuel s <> PFuel ->
     parse_value (S fuel) s = parse_value fuel s) /\
  (forall s acc, parse_elements fuel s acc <> PFuel ->
     parse_elements (S fuel) s acc = parse_elements fuel s acc) /\
  (forall s acc, parse_members fuel s acc <> PFuel ->
     parse_members (S fuel) s acc = parse_members fuel s acc).
Proof.
  induction fuel as [|f (IHv & IHe & IHm)];
    [repeat split; intros; exfalso; auto|].
  repeat split.
  - intros s H. rewrite (parse_value_S (S f) s).
    rewrite (parse_value_S f s) in H |- *.
    destruct s as [|c r]; [reflexivity|].
    destruct (c =? ch "n"); [reflexivity|].
    destruct (c =? ch "t"); [reflexivity|].
    destruct (c =? ch "f"); [reflexivity|].
    destruct (c =? 34); [reflexivity|].
    destruct (c =? ch "[").
    { destruct (skip_ws r) as [|c' t]; [reflexivity|].
      destruct (c' =? ch "]"); [reflexivity|]. now apply IHe. }
    destruct (c =? ch "{").
    { destruct (skip_ws r) as [|c' t]; [reflexivity|].
      destruct (c' =? ch "}"); [reflexivity|]. now apply IHm. }
    reflexivity.
  - intros s acc H. rewrite (parse_elements_S (S f) s acc).
    rewrite (parse_elements_S f s acc) in H |- *.
    assert (V : parse_value f s <> PFuel).
    { intro E. rewrite E in H. now apply H. }
    rewrite (IHv s V).
    destruct (parse_value f s) as [x t| |]; [|reflexivity|reflexivity].
    destruct (skip_ws t) as [|c t']; [reflexivity|].
    destruct (c =? ch ","); [now apply IHe|reflexivity].
  - intros s acc H. rewrite (parse_members_S (S f) s acc).
    rewrite (parse_members_S f s acc) in H |- *.
    destruct s as [|c r]; [reflexivity|].
    destruct (c =? 34); [|reflexivity].
    destruct (parse_string_chars r []) as [[key t]|]; [|reflexivity].
    destruct (skip_ws t) as [|c1 t1]; [reflexivity|].
    destruct (c1 =? ch ":"); [|reflexivity].
    assert (V : parse_value f (skip_ws t1) <> PFuel).
    { intro E. rewrite E in H. now apply H. }
    rewrite (IHv _ V).
    destruct (parse_value f (skip_ws t1)) as [x t2| |]; [|reflexivity|reflexivity].
    destruct (skip_ws t2) as [|c2 t3]; [reflexivity|].
    destruct (c2 =? ch ","); [now apply IHm|reflexivity].
Qed.

Lemma parse_fuel_le f g s :
  (f <= g)%nat -> parse_value f s <> PFuel -> parse_value g s = parse_value f s.
Proof.
  intros L H. induction L as [|g L IH]; [reflexivity|].
  rewrite <- IH. apply (proj1 (parse_fuel_step g)). now rewrite IH.
Qed.

(** A number text starts with a minus sign or a digit. *)
Lemma parse_number_head c t r :
  parse_number (c :: t) = Some r -> c = 45 \/ is_digit c = true.
Proof.
  rewrite parse_number_stages. unfold number_sign.
  destruct (c =? ch "-") eqn:E; [tests; now left|].
  cbn [fst snd]. unfold number_body, number_int.
  destruct (c =? ch "0") eqn:E0; [tests; subst; now right|].
  destruct (is_digit c); [now right|discriminate].
Qed.

Lemma number_to_string_head x :
  normal_number x = true ->
  exists c t, number_to_string x = c :: t /\ (c = 45 \/ is_digit c = true).
Proof.
  intro N. pose proof (parse_number_to_string x [] N I) as P.
  rewrite app_nil_r in P.
  destruct (number_to_string x) as [|c t]; [discriminate P|].
  exists c, t. split; [reflexivity|]. now apply parse_number_head in P.
Qed.

(** The first character of a JSON text: not white space, not a closing
    bracket. *)
Lemma stringify_head v :
  plain v = true ->
  exists c t, stringify v = c :: t /\ is_ws c = false /\ c <> 93 /\ c <> 125 /\
              0 <= c < 128.
Proof.
  intro Pv.
  destruct v as [ |[|]|n|s|l|l];
    try (eexists _, _; split; [reflexivity|]; repeat split;
         (discriminate || reflexivity)).
  destruct (number_to_string_head n Pv) as (c & t & E & H).
  exists c, t. split; [exact E|].
  destruct H as [->|D]; [repeat split; (discriminate || reflexivity)|].
  unfold is_digit in D. tests.
  repeat split; try lia.
  unfold is_ws.
  rewrite !orb_false_iff. repeat split; apply Z.eqb_neq; lia.
Qed.

Lemma skip_ws_stringify v more :
  plain v = true -> skip_ws (stringify v ++ more) = stringify v ++ more.
Proof.
  intro Pv. destruct (stringify_head v Pv) as (c & t & -> & W & _).
  simpl. now rewrite W.
Qed.

Lemma skip_ws_delimiter c more :
  c = 44 \/ c = 93 \/ c = 125 \/ c = 58 \/ c = 34 ->
  skip_ws (c :: more) = c :: more.
Proof. intros [->|[->|[->|[->| ->]]]]; reflexivity. Qed.

(** Equality of keys. *)
Lemma jsstring_eqb_sym a : forall b, jsstring_eqb a b = jsstring_eqb b a.
Proof.
  induction a as [|x a IH]; intros [|y b]; try reflexivity.
  simpl. now rewrite Z.eqb_sym, IH.
Qed.

(** A key that is not there yet is added behind the others. *)
Lemma obj_set_fresh acc k v later :
  distinct (map fst acc ++ k :: later) = true ->
  obj_set acc k v = acc ++ [(k, v)].
Proof.
  induction acc as [|[k' v'] acc IH]; [reflexivity|].
  cbn [map fst app distinct obj_set]. intro D.
  apply andb_true_iff in D. destruct D as [D1 D2].
  apply negb_true_iff in D1. rewrite existsb_app in D1.
  apply orb_false_iff in D1. destruct D1 as [_ D1].
  cbn [existsb] in D1. apply orb_false_iff in D1. destruct D1 as [D1 _].
  rewrite jsstring_eqb_sym, D1. now rewrite IH.
Qed.

Lemma plain_elements l :
  plain (JArray l) = true -> Forall (fun x => plain x = true) l.
Proof.
  induction l as [|x r IH]; [constructor|].
  change (plain (JArray (x :: r))) with (plain x && plain (JArray r)).
  intro H. apply andb_true_iff in H. destruct H. constructor; auto.
Qed.

Lemma plain_members l :
  plain (JObject l) = true ->
  distinct (map fst l) = true /\
  Forall (fun kv => code_units (fst kv) = true /\ plain (snd kv) = true) l.
Proof.
  intro H. cbn [plain] in H. apply andb_true_iff in H. destruct H as [D H].
  split; [exact D|]. clear D.
  induction l as [|[k x] r IH]; [constructor|].
  apply andb_true_iff in H. destruct H as [H Hr].
  apply andb_true_iff in H. destruct H as [Hk Hx].
  constructor; [now split|now apply IH].
Qed.

Lemma stringify_array x r rest :
  stringify (JArray (x :: r)) ++ rest =
  91 :: stringify x ++ stringify_elements r false ++ 93 :: rest.
Proof.
  change (stringify (JArray (x :: r)))
    with (91 :: (stringify x ++ stringify_elements r false) ++ [93]).
  cbn [app]. now rewrite <- !app_assoc.
Qed.

Lemma stringify_object k x r rest :
  stringify (JObject ((k, x) :: r)) ++ rest =
  123 :: 34 :: quote_chars k ++ 34 :: 58 :: stringify x
    ++ stringify_members r false ++ 125 :: rest.
Proof.
  change (stringify (JObject ((k, x) :: r)))
    with (123 :: (QuoteJSONString k ++ 58 :: stringify x
                    ++ stringify_members r false) ++ [125]).
  unfold QuoteJSONString. cbn [app]. rewrite <- !app_assoc. cbn [app].
  now rewrite <- !app_assoc.
Qed.

(** The elements of an array, read after the opening bracket. *)
Lemma parse_elements_text r : forall x,
  parses_back x -> plain x = true ->
  Forall parses_back r -> Forall (fun y => plain y = true) r ->
  exists f0 : nat, forall fuel, (f0 <= fuel)%nat -> forall acc rest,
    parse_elements fuel
      (stringify x ++ stringify_elements r false ++ 93 :: rest) acc =
    POk (JArray (rev acc ++ x :: r)) rest.
Proof.
  induction r as [|y r IH]; intros x (fx & Hx) Px Br Pr.
  - exists (S fx). intros [|fuel] L acc rest; [lia|].
    rewrite parse_elements_S. cbn [stringify_elements app].
    rewrite (Hx fuel) by (lia || (right; now left)).
    reflexivity.
  - inversion Br as [|? ? By Br']. inversion Pr as [|? ? Py Pr']. subst.
    destruct (IH y By Py Br' Pr') as (fr & Hr).
    exists (S (Nat.max fx fr)). intros [|fuel] L acc rest; [lia|].
    rewrite parse_elements_S.
    change (stringify_elements (y :: r) false)
      with (44 :: stringify y ++ stringify_elements r false).
    cbn [app].
    rewrite (Hx fuel) by (lia || now left).
    rewrite skip_ws_delimiter by now left.
    change (44 =? ch ",") with true. cbv beta iota.
    rewrite <- app_assoc, skip_ws_stringify by exact Py.
    rewrite Hr by lia. cbn [rev]. now rewrite <- app_assoc.
Qed.

Lemma parse_quoted_string s rest :
  code_units s = true ->
  parse_string_chars (quote_chars s ++ 34 :: rest) [] = Some (s, rest).
Proof. intro H. now rewrite (parse_quoted (List.length s) s [] rest (le_n _) H). Qed.

(** The members of an object, read after the opening brace. *)
Lemma parse_members_text r : forall k x,
  code_units k = true -> parses_back x -> plain x = true ->
  Forall (fun kv => parses_back (snd kv)) r ->
  Forall (fun kv => code_units (fst kv) = true /\ plain (snd kv) = true) r ->
  exists f0 : nat, forall fuel, (f0 <= fuel)%nat -> forall acc rest,
    distinct (map fst acc ++ k :: map fst r) = true ->
    parse_members fuel
      (34 :: quote_chars k ++ 34 :: 58 :: stringify x
         ++ stringify_members r false ++ 125 :: rest) acc =
    POk (JObject (acc ++ (k, x) :: r)) rest.
Proof.
  induction r as [|[k2 y] r IH]; intros k x Hk (fx & Hx) Px Br Pr.
  - exists (S fx). intros [|fuel] L acc rest D; [lia|].
    rewrite parse_members_S. change (34 =? 34) with true. cbv beta iota.
    rewrite (parse_quoted_string k _ Hk).
    rewrite skip_ws_delimiter by tauto.
    change (58 =? ch ":") with true. cbv beta iota.
    rewrite skip_ws_stringify by exact Px.
    cbn [stringify_members app].
    rewrite (Hx fuel) by (lia || (right; now right)).
    rewrite skip_ws_delimiter by tauto.
    change (125 =? ch ",") with false. change (125 =? ch "}") with true.
    cbv beta iota. now rewrite (obj_set_fresh acc k x [] D).
  - inversion Br as [|? ? By Br']. inversion Pr as [|? ? [Hk2 Py] Pr']. subst.
    cbn [fst snd] in *.
    destruct (IH k2 y Hk2 By Py Br' Pr') as (fr & Hr).
    exists (S (Nat.max fx fr)). intros [|fuel] L acc rest D; [lia|].
    rewrite parse_members_S. change (34 =? 34) with true. cbv beta iota.
    rewrite (parse_quoted_string k _ Hk).
    rewrite skip_ws_delimiter by tauto.
    change (58 =? ch ":") with true. cbv beta iota.
    rewrite skip_ws_stringify by exact Px.
    change (stringify_members ((k2, y) :: r) false)
      with (44 :: (34 :: quote_chars k2 ++ [34]) ++ 58 :: stringify y
              ++ stringify_members r false).
    cbn [app]. rewrite <- !app_assoc. cbn [app].
    rewrite (Hx fuel) by (lia || now left).
    rewrite skip_ws_delimiter by tauto.
    change (44 =? ch ",") with true. cbv beta iota.
    rewrite skip_ws_delimiter by tauto.
    cbn [map fst] in D.
    rewrite (obj_set_fresh acc k x _ D).
    rewrite <- app_assoc.
    rewrite Hr; [now rewrite <- app_assoc|lia|].
    now rewrite map_app, <- app_assoc.
Qed.

(** Every plain value is read back from its text. *)
Lemma plain_parses_back v : plain v = true -> parses_back v.
Proof.
  induction v as [ |b|n|s|l IH|l IH] using Json_nested_ind; intro Pv.
  - exists 1%nat. intros [|fuel] L rest D; [lia|reflexivity].
  - exists 1%nat. intros [|fuel] L rest D; [lia|]. now destruct b.
  - exists 1%nat. intros [|fuel] L rest D; [lia|].
    pose proof (parse_number_to_string n rest Pv D) as P.
    destruct (number_to_string_head n Pv) as (c & t & E & H).
    cbn [stringify]. rewrite E in P |- *. cbn [app] in P |- *.
    rewrite parse_value_S.
    assert (T : (c =? ch "n") = false /\ (c =? ch "t") = false /\
                (c =? ch "f") = false /\ (c =? 34) = false /\
                (c =? ch "[") = false /\ (c =? ch "{") = false).
    { destruct H as [->|H]; [repeat split; reflexivity|].
      unfold is_digit in H. tests.
      change (ch "n") with 110. change (ch "t") with 116.
      change (ch "f") with 102. change (ch "[") with 91.
      change (ch "{") with 123.
      repeat split; apply Z.eqb_neq; lia. }
    destruct T as (-> & -> & -> & -> & -> & ->). now rewrite P.
  - exists 1%nat. intros [|fuel] L rest D; [lia|].
    cbn [stringify]. unfold QuoteJSONString. cbn [app].
    rewrite <- app_assoc. cbn [app].
    rewrite parse_value_S. change (34 =? ch "n") with false.
    change (34 =? ch "t") with false. change (34 =? ch "f") with false.
    change (34 =? 34) with true. cbv beta iota.
    cbn [plain] in Pv. now rewrite (parse_quoted_string s rest Pv).
  - pose proof (plain_elements l Pv) as Pl.
    assert (Bl : Forall parses_back l).
    { clear Pv. induction IH as [|x r Hx _ IHr]; [constructor|].
      inversion Pl; subst. constructor; auto. }
    destruct l as [|x r].
    + exists 1%nat. intros [|fuel] L rest D; [lia|reflexivity].
    + inversion Bl as [|? ? Bx Br]. inversion Pl as [|? ? Px Pr]. subst.
      destruct (parse_elements_text r x Bx Px Br Pr) as (f0 & H).
      exists (S f0). intros [|fuel] L rest D; [lia|].
      rewrite stringify_array, parse_value_S.
      change (91 =? ch "n") with false. change (91 =? ch "t") with false.
      change (91 =? ch "f") with false. change (91 =? 34) with false.
      change (91 =? ch "[") with true. cbv beta iota.
      rewrite skip_ws_stringify by exact Px.
      destruct (stringify_head x Px) as (c & t & E & _ & N & _).
      pose proof (H fuel ltac:(lia) [] rest) as R.
      rewrite E in R |- *. cbn [app] in R |- *.
      apply Z.eqb_neq in N. change (ch "]") with 93. rewrite N. exact R.
  - destruct (plain_members l Pv) as (Dl & Pl).
    assert (Bl : Forall (fun kv => parses_back (snd kv)) l).
    { clear Pv Dl. induction IH as [|kv r Hx _ IHr]; [constructor|].
      inversion Pl as [|? ? [_ ?] ?]; subst. constructor; auto. }
    destruct l as [|[k x] r].
    + exists 1%nat. intros [|fuel] L rest D; [lia|reflexivity].
    + inversion Bl as [|? ? Bx Br]. inversion Pl as [|? ? [Hk Px] Pr]. subst.
      cbn [fst snd] in *.
      destruct (parse_members_text r k x Hk Bx Px Br Pr) as (f0 & H).
      exists (S f0). intros [|fuel] L rest D; [lia|].
      rewrite stringify_object, parse_value_S.
      change (123 =? ch "n") with false. change (123 =? ch "t") with false.
      change (123 =? ch "f") with false. change (123 =? 34) with false.
      change (123 =? ch "[") with false.
      change (123 =? ch "{") with true. cbv beta iota.
      rewrite skip_ws_delimiter by tauto.
      change (34 =? ch "}") with false. cbv beta iota.
      apply (H fuel ltac:(lia) [] rest). exact Dl.
Qed.

(** [JSON.parse(JSON.stringify(v))] is [v] for every plain value. *)
Lemma parse_stringify v : plain v = true -> JSON.parse (stringify v) = Some v.
Proof.
  intro Pv. destruct (plain_parses_back v Pv) as (f0 & H).
  unfold JSON.parse.
  pose proof (skip_ws_stringify v [] Pv) as W. rewrite !app_nil_r in W.
  rewrite W.
  set (F := (2 * List.length (stringify v) + 2)%nat).
  assert (B : parse_value F (stringify v) <> PFuel).
  { apply (proj1 (parse_budget F)). subst F. lia. }
  pose proof (parse_fuel_le F (Nat.max f0 F) (stringify v) (Nat.le_max_r _ _) B) as E.
  pose proof (H (Nat.max f0 F) (Nat.le_max_l _ _) [] I) as R.
  rewrite app_nil_r in R. rewrite <- E, R. reflexivity.
Qed.

(* ===================================================================== *)
(** ** JSON text on the wire *)
(* ===================================================================== *)

Lemma isWellFormed_app n : forall a b,
  (List.length a <= n)%nat ->
  isWellFormed a = true -> isWellFormed b = true -> isWellFormed (a ++ b) = true.
Proof.
  induction n as [|n IH]; intros a b Hn Ha Hb.
  - destruct a; [exact Hb|simpl in Hn; lia].
  - destruct a as [|c a]; [exact Hb|].
    simpl in Hn, Ha |- *. destruct (is_high_surrogate c).
    + destruct a as [|d a]; [discriminate Ha|].
      apply andb_true_iff in Ha. destruct Ha as [Hd Ha].
      cbn [app]. rewrite Hd. simpl. apply IH; [simpl in Hn; lia|assumption..].
    + apply andb_true_iff in Ha. destruct Ha as [Hc Ha].
      rewrite Hc. simpl. apply IH; [lia|assumption..].
Qed.

Lemma clean_nil : clean [].
Proof. repeat split. intros []. Qed.

Lemma clean_app a b : clean a -> clean b -> clean (a ++ b).
Proof.
  intros (Ua & Wa & Na) (Ub & Wb & Nb). repeat split.
  - unfold code_units in *. now rewrite forallb_app, Ua, Ub.
  - now apply (isWellFormed_app (List.length a)).
  - intro H. apply in_app_or in H. tauto.
Qed.

Lemma clean_cons c s : simple c -> clean s -> clean (c :: s).
Proof.
  intros [R N] (U & W & L). repeat split.
  - simpl. rewrite U. apply andb_true_iff. split; [|reflexivity].
    apply andb_true_iff. split; [apply Z.leb_le|apply Z.ltb_lt]; lia.
  - simpl.
    assert (H : is_high_surrogate c = false).
    { unfold is_high_surrogate. apply andb_false_iff. left. apply Z.leb_gt. lia. }
    assert (H' : is_low_surrogate c = false).
    { unfold is_low_surrogate. apply andb_false_iff. left. apply Z.leb_gt. lia. }
    now rewrite H, H', W.
  - intros [E|E]; [now apply N|now apply L].
Qed.

Lemma clean_simple s : Forall simple s -> clean s.
Proof.
  induction 1 as [|c s Hc _ IH]; [apply clean_nil|now apply clean_cons].
Qed.

Lemma digit_is_simple c : is_digit c = true -> simple c.
Proof. unfold is_digit, simple, NL. intro H. tests. lia. Qed.

Lemma digits_are_simple ds :
  Forall (fun c => is_digit c = true) ds -> Forall simple ds.
Proof. intro F. eapply Forall_impl; [|exact F]. apply digit_is_simple. Qed.

Ltac simple_char := cbv; repeat split; (discriminate || reflexivity).

Ltac simple_chars :=
  repeat first [apply Forall_nil | apply Forall_cons; [simple_char|]].

Lemma string_of_Z_simple z : Forall simple (string_of_Z z).
Proof.
  unfold string_of_Z, string_of_N.
  destruct (z <? 0); [constructor; [simple_char|]|];
    apply digits_are_simple, digits_of_uint_are_digits.
Qed.

(** The text of a number: digits, a point, an exponent mark, signs. *)
Lemma number_to_string_simple x : Forall simple (number_to_string x).
Proof.
  unfold number_to_string.
  destruct (mantissa x =? 0); [simple_chars|].
  pose proof (string_of_Z_simple (mantissa x)) as D.
  pose proof (string_of_Z_simple
                (Z.abs (Z.of_nat (List.length (string_of_Z (mantissa x)))
                        + exponent x - 1))) as E.
  set (ds := string_of_Z (mantissa x)) in *.
  set (k := Z.of_nat (List.length ds)) in *.
  set (es := string_of_Z _) in E.
  assert (Z0 : forall j, Forall simple (repeat (ch "0") j)).
  { intro j. induction j; simpl; constructor; [simple_char|assumption]. }
  assert (S : simple (if k + exponent x - 1 <? 0 then ch "-" else ch "+")).
  { destruct (_ <? 0); simple_char. }
  assert (B : forall body, Forall simple body ->
                Forall simple (if negative x then ch "-" :: body else body)).
  { intros body F. destruct (negative x); [constructor; [simple_char|]|]; exact F. }
  apply B.
  destruct ((k <=? k + exponent x) && (k + exponent x <=? 21)).
  { apply Forall_app. split; [exact D|apply Z0]. }
  destruct ((0 <? k + exponent x) && (k + exponent x <=? 21)).
  { apply Forall_app. split; [apply Forall_prefix, D|].
    constructor; [simple_char|apply Forall_suffix, D]. }
  destruct ((-6 <? k + exponent x) && (k + exponent x <=? 0)).
  { constructor; [simple_char|]. constructor; [simple_char|].
    apply Forall_app. split; [apply Z0|exact D]. }
  destruct ds as [|d [|f more]]; [constructor| |].
  - inversion D; subst. constructor; [assumption|].
    constructor; [simple_char|]. constructor; assumption.
  - inversion D as [|? ? Hd Dm]; subst. constructor; [assumption|].
    constructor; [simple_char|]. apply Forall_app. split; [exact Dm|].
    constructor; [simple_char|]. constructor; assumption.
Qed.

Lemma hex_char_simple d : 0 <= d < 16 -> simple (hex_char d).
Proof.
  intro H. unfold hex_char, simple, NL. destruct (d <? 10) eqn:T; tests; lia.
Qed.

Lemma unicode_escape_simple c : Forall simple (unicode_escape c).
Proof.
  unfold unicode_escape.
  repeat constructor; try discriminate;
    try (apply hex_char_simple; zmod).
Qed.

(** A quoted string: lone surrogates and control characters are escaped,
    so what is left is well formed and holds no newline. *)
Lemma quote_chars_clean n : forall s,
  (List.length s <= n)%nat -> code_units s = true -> clean (quote_chars s).
Proof.
  induction n as [|n IH]; intros s Hn Hu.
  - destruct s; [apply clean_nil|simpl in Hn; lia].
  - destruct s as [|c s']; [apply clean_nil|].
    simpl in Hn, Hu. apply andb_true_iff in Hu. destruct Hu as [Hc Hu].
    assert (R : clean (quote_chars s')) by (apply IH; [lia|exact Hu]).
    cbn [quote_chars].
    destruct (c =? 8); [repeat (apply clean_cons; [simple_char|]); exact R|].
    destruct (c =? 9); [repeat (apply clean_cons; [simple_char|]); exact R|].
    destruct (c =? 10) eqn:T10; [repeat (apply clean_cons; [simple_char|]); exact R|].
    destruct (c =? 12); [repeat (apply clean_cons; [simple_char|]); exact R|].
    destruct (c =? 13); [repeat (apply clean_cons; [simple_char|]); exact R|].
    destruct (c =? 34); [repeat (apply clean_cons; [simple_char|]); exact R|].
    destruct (c =? 92); [repeat (apply clean_cons; [simple_char|]); exact R|].
    destruct (c <? 32);
      [apply clean_app; [apply clean_simple, unicode_escape_simple|exact R]|].
    destruct (is_high_surrogate c) eqn:Hh.
    + destruct s' as [|d s''];
        [apply clean_simple, unicode_escape_simple|].
      destruct (is_low_surrogate d) eqn:Hl;
        [|apply clean_app; [apply clean_simple, unicode_escape_simple|exact R]].
      simpl in Hu. apply andb_true_iff in Hu. destruct Hu as [Hd Hu].
      destruct (IH s'') as (U & W & L); [simpl in Hn; lia|exact Hu|].
      repeat split.
      * simpl. now rewrite Hc, Hd, U.
      * simpl. now rewrite Hh, Hl, W.
      * unfold is_high_surrogate, is_low_surrogate, NL in *. tests.
        intros [E|[E|E]]; [lia|lia|now apply L].
    + destruct (is_low_surrogate c) eqn:Hl;
        [apply clean_app; [apply clean_simple, unicode_escape_simple|exact R]|].
      destruct R as (U & W & L). repeat split.
      * simpl. now rewrite Hc, U.
      * simpl. now rewrite Hh, Hl, W.
      * tests. intros [E|E]; [now subst|now apply L].
Qed.

Lemma QuoteJSONString_clean s : code_units s = true -> clean (QuoteJSONString s).
Proof.
  intro H. unfold QuoteJSONString.
  apply clean_cons; [simple_char|]. apply clean_app.
  - now apply (quote_chars_clean (List.length s)).
  - apply clean_simple. simple_chars.
Qed.

(** The text of a plain value is clean. *)
Lemma stringify_clean v : plain v = true -> clean (stringify v).
Proof.
  induction v as [ |b|n|s|l IH|l IH] using Json_nested_ind; intro Pv.
  - apply clean_simple. simple_chars.
  - destruct b; apply clean_simple; simple_chars.
  - apply clean_simple, number_to_string_simple.
  - now apply QuoteJSONString_clean.
  - pose proof (plain_elements l Pv) as Pl.
    change (stringify (JArray l))
      with (91 :: stringify_elements l true ++ [93]).
    apply clean_cons; [simple_char|]. apply clean_app;
      [|apply clean_simple; simple_chars].
    clear Pv. generalize true.
    induction IH as [|x r Hx _ IHr]; intro first; [apply clean_nil|].
    inversion Pl; subst. cbn [stringify_elements].
    apply clean_app; [destruct first; [apply clean_nil|
      apply clean_simple; simple_chars]|].
    apply clean_app; auto.
  - destruct (plain_members l Pv) as (_ & Pl).
    change (stringify (JObject l))
      with (123 :: stringify_members l true ++ [125]).
    apply clean_cons; [simple_char|]. apply clean_app;
      [|apply clean_simple; simple_chars].
    clear Pv. generalize true.
    induction IH as [|[k x] r Hx _ IHr]; intro first; [apply clean_nil|].
    inversion Pl as [|? ? [Hk Px] Pr]; subst. cbn [stringify_members].
    apply clean_app; [destruct first; [apply clean_nil|
      apply clean_simple; simple_chars]|].
    apply clean_app; [now apply QuoteJSONString_clean|].
    apply clean_cons; [simple_char|]. apply clean_app; auto.
Qed.

(* ===================================================================== *)
(** ** From the server's values to the caller's *)
(* ===================================================================== *)

Lemma code_units_app a b : code_units (a ++ b) = code_units a && code_units b.
Proof. apply forallb_app. Qed.

Lemma data_chunk_lines rs :
  List.concat (map data_chunk rs) =
  flat_map (fun l => l ++ [NL])
    (map (fun r => js "data: " ++ stringify (JArray [r])) rs) ++ [].
Proof.
  induction rs as [|r rs IH]; [reflexivity|].
  cbn [map List.concat flat_map]. rewrite IH. unfold data_chunk.
  now rewrite <- !app_assoc.
Qed.

Lemma data_line_clean r :
  plain r = true -> clean (js "data: " ++ stringify (JArray [r])).
Proof.
  intro Pr. apply clean_app; [apply clean_simple; simple_chars|].
  apply stringify_clean. cbn [plain]. now rewrite Pr.
Qed.

Lemma data_chunk_encodable r :
  plain r = true ->
  code_units (data_chunk r) = true /\ isWellFormed (data_chunk r) = true.
Proof.
  intro Pr. destruct (data_line_clean r Pr) as (U & W & _).
  unfold data_chunk. rewrite app_assoc. split.
  - now rewrite code_units_app, U.
  - now apply (isWellFormed_app _ _ _ (le_n _)).
Qed.

Lemma data_line_yields r :
  plain r = true ->
  process_line (js "data: " ++ stringify (JArray [r])) = [Yield r].
Proof.
  intro Pr. rewrite process_data_line, parse_stringify; [reflexivity|].
  cbn [plain]. now rewrite Pr.
Qed.

(** X8.  The stream test in general: for any plain responses, when the
    network call resolves to the mock stream of the chunks
    [data: <text of [r]>\n], one per response, the streaming call hands the
    consumer exactly these responses, in order, logs nothing and ends
    normally. *)
Theorem mock_stream_yields_the_responses
  (platform : Platform) (this : LocalContentGenerator)
  (request : GenerateContentParameters) (rs : list Json) :
  fetch platform (getEndpoint this true) (post_init request) =
    Resolved (createMockStream (map data_chunk rs)) ->
  Forall (fun r => plain r = true) rs ->
  outputs (fst (generateContentStream platform this request)) = map Yield rs /\
  snd (generateContentStream platform this request) = Return tt.
Proof.
  intros Hf Prs.
  destruct (stream_closed platform this request _
              (map TextEncoder_encode (map data_chunk rs)) Hf eq_refl eq_refl)
    as [E1 E2].
  split; [|exact E2]. rewrite E1.
  assert (F : Forall (fun s => code_units s = true /\ isWellFormed s = true)
                (map data_chunk rs)).
  { apply Forall_map. eapply Forall_impl; [|exact Prs].
    apply data_chunk_encodable. }
  destruct (decode_chunks_fresh _ F) as (d & E & _).
  unfold decoded_text. rewrite E. cbn [snd].
  assert (D : drop_mark (List.concat (map data_chunk rs)) =
              List.concat (map data_chunk rs)).
  { destruct rs; reflexivity. }
  rewrite D, data_chunk_lines.
  rewrite frame_of_lines; [|
    apply Forall_map; eapply Forall_impl; [|exact Prs];
    intros r Pr; apply (data_line_clean r Pr) | intros []].
  cbn [fst]. clear -Prs.
  induction Prs as [|r rs Pr _ IH]; [reflexivity|].
  cbn [map flat_map]. now rewrite data_line_yields, IH.
Qed.

Lemma mock_stream_witness :
  yielded (fst (generateContentStream
     (serving (Resolved (createMockStream
        (map data_chunk
           [JObject [(js "text", JString (js "Chunk 1"))];
            JObject [(js "text", JString (js " Chunk 2"))]]))))
     example_generator example_request)) =
  [JObject [(js "text", JString (js "Chunk 1"))];
   JObject [(js "text", JString (js " Chunk 2"))]].
Proof.
  rewrite <- yielded_outputs.
  rewrite (proj1 (mock_stream_yields_the_responses
    (serving (Resolved (createMockStream
        (map data_chunk
           [JObject [(js "text", JString (js "Chunk 1"))];
            JObject [(js "text", JString (js " Chunk 2"))]]))))
    example_generator example_request
    [JObject [(js "text", JString (js "Chunk 1"))];
     JObject [(js "text", JString (js " Chunk 2"))]]
    eq_refl ltac:(repeat constructor))).
  reflexivity.
Defined.

(** The whole of a body that arrives in chunks and is then closed. *)
Lemma read_all_stream chunks :
  read_all (stream_of chunks) = Resolved (List.concat chunks).
Proof.
  unfold stream_of. induction chunks as [|value rest IH]; [reflexivity|].
  cbn [map app read_all List.concat]. now rewrite IH.
Qed.

(** The one-shot decoder undoes the encoder on a text that starts with
    an ASCII character. *)
Lemma decode_all_encode c t :
  0 <= c < 128 ->
  code_units (c :: t) = true -> isWellFormed (c :: t) = true ->
  Utf8.decode_all (TextEncoder_encode (c :: t)) = c :: t.
Proof.
  intros Hc Hu Hw.
  assert (E : TextEncoder_encode (c :: t) = byte_of c :: TextEncoder_encode t).
  { unfold TextEncoder_encode. cbn [scalar_values].
    assert (H : is_high_surrogate c = false).
    { unfold is_high_surrogate. apply andb_false_iff. left. apply Z.leb_gt. lia. }
    assert (L : is_low_surrogate c = false).
    { unfold is_low_surrogate. apply andb_false_iff. left. apply Z.leb_gt. lia. }
    rewrite H, L. cbn [flat_map]. unfold utf8_encode.
    now rewrite (proj2 (Z.ltb_lt c 128)) by lia. }
  assert (N : byte_of c <> xef).
  { intro B. pose proof (byte_val_of c ltac:(lia)) as V. rewrite B in V.
    change (Utf8.byte_val xef) with 239 in V. lia. }
  unfold Utf8.decode_all.
  assert (S : match TextEncoder_encode (c :: t) with
              | xef :: xbb :: xbf :: r => r
              | _ => TextEncoder_encode (c :: t)
              end = TextEncoder_encode (c :: t)).
  { rewrite E. destruct (byte_of c); try reflexivity. now elim N. }
  rewrite S.
  pose proof (decode_encode_seen _ (c :: t) [] (le_n _) Hu Hw) as D.
  rewrite app_nil_r in D. rewrite D. cbn [fst snd Utf8.decode Utf8.utf8].
  unfold Utf8.at_end. cbn. now rewrite !app_nil_r.
Qed.

(** X9.  What the server writes is what the caller gets: when the
    response has a success status and its body, in whatever chunks it
    arrives, is the UTF-8 encoding of the JSON text of a plain value, the
    single-shot call returns that value, after one network call and one
    reading of the body. *)
Theorem json_body_round_trip
  (platform : Platform) (this : LocalContentGenerator)
  (request : GenerateContentParameters) (response : Response)
  (chunks : list (list byte)) (v : Json) :
  fetchWithTimeout platform (getEndpoint this false) (post_init request)
    (timeoutMs this) = Resolved response ->
  ok response = true ->
  body response = Some (stream_of chunks) ->
  List.concat chunks = TextEncoder_encode (stringify v) ->
  plain v = true ->
  generateContent platform this request =
  ([CallFetchWithTimeout (getEndpoint this false) (post_init request)
      (timeoutMs this); CallJson],
   Return v).
Proof.
  intros Hf Hok Hb Hc Pv.
  unfold generateContent. rewrite try_catch_throw.
  unfold Response_json, bind, await. rewrite Hf, Hok. simpl negb. cbv iota.
  unfold consume_body. rewrite Hb, read_all_stream, Hc.
  destruct (stringify_head v Pv) as (c & t & E & _ & _ & _ & R).
  destruct (stringify_clean v Pv) as (U & W & _).
  rewrite E in U, W |- *.
  rewrite (decode_all_encode c t R U W), <- E, (parse_stringify v Pv).
  reflexivity.
Qed.

Lemma json_body_round_trip_witness :
  snd (generateContent
         (serving (Resolved (mkResponse true 200 (js "OK")
            (Some (stream_of
               [firstn 7 (TextEncoder_encode
                  (stringify (JObject [(js "text", JString [233; 55357; 56832])])));
                skipn 7 (TextEncoder_encode
                  (stringify (JObject [(js "text", JString [233; 55357; 56832])])))])))))
         example_generator example_request) =
  Return (JObject [(js "text", JString [233; 55357; 56832])]).
Proof.
  rewrite (json_body_round_trip
    (serving (Resolved (mkResponse true 200 (js "OK")
       (Some (stream_of
          [firstn 7 (TextEncoder_encode
             (stringify (JObject [(js "text", JString [233; 55357; 56832])])));
           skipn 7 (TextEncoder_encode
             (stringify (JObject [(js "text", JString [233; 55357; 56832])])))])))))
    example_generator example_request _ _
    (JObject [(js "text", JString [233; 55357; 56832])])
    eq_refl eq_refl eq_refl eq_refl eq_refl).
  reflexivity.
Defined.

Lemma plain_member k x r :
  code_units k = true -> plain x = true ->
  existsb (jsstring_eqb k) (map fst r) = false ->
  plain (JObject r) = true -> plain (JObject ((k, x) :: r)) = true.
Proof.
  intros Hk Hx Hf Hr. cbn [plain] in Hr |- *.
  apply andb_true_iff in Hr. destruct Hr as [D A].
  cbn [map fst distinct]. now rewrite Hf, D, Hk, Hx, A.
Qed.

Lemma plain_present {A} k (field : option A) inj r :
  code_units k = true -> all_set (fun x => plain (inj x)) field = true ->
  existsb (jsstring_eqb k) (map fst r) = false ->
  plain (JObject r) = true -> plain (JObject (present k field inj ++ r)) = true.
Proof.
  intros Hk Hf He Hr. destruct field as [x|]; [|exact Hr].
  now apply plain_member.
Qed.

Lemma absent_present {A} p k (field : option A) inj r :
  p k = false -> existsb p (map fst r) = false ->
  existsb p (map fst (present k field inj ++ r)) = false.
Proof.
  intros Hp Hr. destruct field; [|exact Hr]. simpl. now rewrite Hp.
Qed.

Lemma plain_strings l : plain (JArray (map JString l)) = forallb code_units l.
Proof.
  induction l as [|s l IH]; [reflexivity|].
  change (plain (JArray (map JString (s :: l))))
    with (code_units s && plain (JArray (map JString l))).
  now rewrite IH.
Qed.

(** X10.  The request body reads back as the payload: for a request whose
    values are plain, the body both operations send is a JSON text, and
    parsing it gives the object that holds [contents], [safetySettings]
    when it is set, and [generationConfig] with exactly the sampling
    fields that are set. *)
Theorem request_body_parses_back (request : GenerateContentParameters) :
  plain_request request = true ->
  exists text,
    init_body (post_init request) = Some text /\
    JSON.parse text =
    Some (JObject
      ((js "contents", contents request) ::
       present (js "safetySettings") (config_field request safetySettings) JArray ++
       [(js "generationConfig",
         JObject
           (present (js "temperature") (config_field request temperature) JNumber ++
            present (js "topP") (config_field request topP) JNumber ++
            present (js "topK") (config_field request topK) JNumber ++
            present (js "candidateCount") (config_field request candidateCount) JNumber ++
            present (js "maxOutputTokens") (config_field request maxOutputTokens) JNumber ++
            present (js "stopSequences") (config_field request stopSequences)
              (fun l => JArray (map JString l)) ++ []))])).
Proof.
  intro P. unfold plain_request in P.
  repeat (apply andb_true_iff in P; destruct P as [P ?]).
  unfold post_init, JSON_stringify. cbn [init_body].
  rewrite payload_serialized. cbn [option_map].
  eexists. split; [reflexivity|]. apply parse_stringify.
  apply plain_member; [reflexivity|assumption| |].
  { apply absent_present; reflexivity. }
  apply plain_present; [reflexivity|assumption|reflexivity|].
  apply plain_member; [reflexivity| |reflexivity|reflexivity].
  repeat (apply plain_present;
          [reflexivity|assumption|
           repeat (apply absent_present; [reflexivity|]); reflexivity|]);
    try reflexivity.
  apply plain_present; [reflexivity| |reflexivity|reflexivity].
  destruct (config_field request stopSequences) as [l|]; [|reflexivity].
  cbn [all_set] in *. now rewrite plain_strings.
Qed.

Lemma request_body_witness :
  exists text,
    init_body (post_init
      (mkGenerateContentParameters (JArray [JString (js "Hello")])
         (Some (mkGenerateContentConfig (Some (mkNumber false 7 (-1))) None None
                  None None (Some [js "END"]) None)))) = Some text /\
    JSON.parse text =
    Some (JObject
      [(js "contents", JArray [JString (js "Hello")]);
       (js "generationConfig",
        JObject [(js "temperature", JNumber (mkNumber false 7 (-1)));
                 (js "stopSequences", JArray [JString (js "END")])])]).
Proof.
  exact (request_body_parses_back
    (mkGenerateContentParameters (JArray [JString (js "Hello")])
       (Some (mkGenerateContentConfig (Some (mkNumber false 7 (-1))) None None
                None None (Some [js "END"]) None)))
    eq_refl).
Defined.

(** X11.  A generator made from a configuration posts to the configured
    server: the single-shot call starts with the timeout-aware call to
    [<base>/models/<model>:generateContent] with a timeout of 60000 ms,
    the streaming call with the plain call to
    [<base>/models/<model>:streamGenerateContent]; both carry the method
    POST, the JSON content type and the same body; and the two endpoints
    are never the same address. *)
Theorem operations_post_to_their_own_endpoints
  (platform : Platform) (config : Config)
  (request : GenerateContentParameters) :
  (exists t,
     fst (generateContent platform (new_LocalContentGenerator config) request) =
     CallFetchWithTimeout
       (getLocalLlmBaseUrl config ++ js "/models/" ++ getLocalLlmModel config
          ++ js ":generateContent")
       (mkRequestInit (js "POST") [(js "Content-Type", js "application/json")]
          (JSON_stringify (payload request)))
       60000 :: t) /\
  (exists t,
     fst (generateContentStream platform (new_LocalContentGenerator config)
            request) =
     CallFetch
       (getLocalLlmBaseUrl config ++ js "/models/" ++ getLocalLlmModel config
          ++ js ":streamGenerateContent")
       (mkRequestInit (js "POST") [(js "Content-Type", js "application/json")]
          (JSON_stringify (payload request))) :: t) /\
  getEndpoint (new_LocalContentGenerator config) true <>
  getEndpoint (new_LocalContentGenerator config) false.
Proof.
  split; [|split].
  - unfold generateContent. rewrite try_catch_throw. cbn [fst].
    unfold bind at 1. unfold await at 1.
    destruct (fetchWithTimeout _ _ _ _) as [r|e]; [|now eexists].
    destruct (if negb (ok r) then _ else _) as [t c]. now eexists.
  - unfold generateContentStream. rewrite try_catch_throw. cbn [fst].
    unfold bind at 1. unfold await at 1.
    destruct (fetch _ _ _) as [r|e]; [|now eexists].
    destruct (if negb (ok r) then _ else _) as [t c]. now eexists.
  - unfold getEndpoint, new_LocalContentGenerator. cbn [baseUrl model].
    intro E. repeat apply app_inv_head in E. discriminate E.
Qed.
